(** * Timeline chart: viewport clamping, filtering, layout cache and label stacking

    A shallow embedding of the timeline chart script (the variant with the
    shared [clampDomain] helper, touch gestures and the offset cache), with
    the older [scripts/app.js] handlers embedded next to it in [Module Legacy]
    where the two variants differ.

    Conventions.
    - An instant is the time value of a JS [Date]: an integer number of
      milliseconds, here a [Z].  [None] stands for the Invalid Date, whose
      time value is NaN.
    - A JS Number is an exact rational ([Q]); [None] stands for NaN.  The
      source computes on doubles; for time values below 2^52 in magnitude
      sums, differences and halves of instants are exact in double
      arithmetic, products with the constants 1.1, 0.9, 0.8, 1.25, 0.33 and
      0.66 are idealised as products with 11/10, 9/10, 4/5, 5/4, 33/100 and
      66/100, and the quotients and products inside d3's scale as exact
      ones.  In the script such a value can be off by a few units in the
      last place, which [new Date] can turn into one millisecond.
    - [new Date(v)] on a Number truncates towards zero (TimeClip).  TimeClip
      also answers the Invalid Date beyond 8.64e15 ms on either side of the
      epoch ([JS.timeClip]); the embedding takes the Numbers handed to
      [new Date] to be inside that range, and [JS.inRange] says so where a
      statement spells it out. *)

From Stdlib Require Import ZArith QArith Qround Qabs Lqa Lia Bool List String Ascii.
From Stdlib Require Import Permutation.
Import ListNotations.

Local Open Scope Z_scope.

(** ** JS numbers and dates *)

Module JS.

Definition Number : Type := option Q.
Definition Date : Type := option Z.

(** Unary plus on a Date: its time value. *)
Definition valueOf (d : Date) : Number := option_map inject_Z d.

Definition lift2 (f : Q -> Q -> Q) (a b : Number) : Number :=
  match a, b with
  | Some x, Some y => Some (f x y)
  | _, _ => None
  end.

Definition add : Number -> Number -> Number := lift2 Qplus.
Definition sub : Number -> Number -> Number := lift2 Qminus.
Definition mul : Number -> Number -> Number := lift2 Qmult.

(** Division.  On a zero divisor JS gives an infinity or NaN.  The one
    divisor of the source that can be zero is the factor of [zoomBy], whose
    quotient flows into [new Date] only, and that makes the Invalid Date of
    all three; so the embedding keeps the one value NaN for them. *)
Definition div (a b : Number) : Number :=
  match a, b with
  | Some x, Some y => if Qeq_bool y 0%Q then None else Some (x / y)%Q
  | _, _ => None
  end.

(** Comparisons; every comparison with NaN is false. *)
Definition cmp (f : Q -> Q -> bool) (a b : Number) : bool :=
  match a, b with
  | Some x, Some y => f x y
  | _, _ => false
  end.

Definition Qltb (x y : Q) : bool := negb (Qle_bool y x).

Definition lt : Number -> Number -> bool := cmp Qltb.
Definition gt (a b : Number) : bool := lt b a.
Definition le : Number -> Number -> bool := cmp Qle_bool.
Definition ge (a b : Number) : bool := le b a.
Definition eq : Number -> Number -> bool := cmp Qeq_bool.

(** ToIntegerOrInfinity on a finite Number. *)
Definition truncate (q : Q) : Z :=
  if Qle_bool 0%Q q then Qfloor q else Qceiling q.

(** The range of Date: 100,000,000 days on either side of the epoch. *)
Definition MAX_TIME : Z := 8640000000000000.

Definition inRange (q : Q) : Prop := (Qabs q <= inject_Z MAX_TIME)%Q.

(** TimeClip on a finite Number, and the Date made of it. *)
Definition timeClip (q : Q) : Date :=
  if Qle_bool (Qabs q) (inject_Z MAX_TIME) then Some (truncate q) else None.

(** [new Date(n)] for a Number [n] inside the range of Date, where it is
    [timeClip]. *)
Definition newDate (n : Number) : Date := option_map truncate n.

(** [new Date(d)] for a Date [d]: a copy with the same time value. *)
Definition copyDate (d : Date) : Date := d.

Definition ofZ (z : Z) : Number := Some (inject_Z z).

End JS.

Notation "a +' b" := (JS.add a b) (at level 50, left associativity).
Notation "a -' b" := (JS.sub a b) (at level 50, left associativity).
Notation "a *' b" := (JS.mul a b) (at level 40, left associativity).
Notation "a /' b" := (JS.div a b) (at level 40, left associativity).
Notation "a <' b" := (JS.lt a b) (at level 70, no associativity).
Notation "a >' b" := (JS.gt a b) (at level 70, no associativity).
Notation "a <=' b" := (JS.le a b) (at level 70, no associativity).
Notation "a >=' b" := (JS.ge a b) (at level 70, no associativity).
Notation "+' d" := (JS.valueOf d) (at level 35, right associativity).

(** ** Constants *)

(** [const LAYOUT = { top: 8, chartHeight: 320, axisGap: 20, annoGap: 36,
    annoRow: 18, annoRowsMax: 8, bottom: 16 }] *)
Module LAYOUT.
Definition top : Z := 8.
Definition chartHeight : Z := 320.
Definition axisGap : Z := 20.
Definition annoGap : Z := 36.
Definition annoRow : Z := 18.
Definition annoRowsMax : Z := 8.
Definition bottom : Z := 16.
End LAYOUT.

Definition AXIS_Y : Z := LAYOUT.top + LAYOUT.chartHeight.
Definition ANNO_Y0 : Z := AXIS_Y + LAYOUT.annoGap.

(** Never let the timeline get narrower than ~30 days. *)
Definition MIN_SPAN_MS : Z := 1000 * 60 * 60 * 24 * 30.

(** Dot radius for event markers. *)
Definition radius : Z := 8.

(** One day, in milliseconds (used to write instants down). *)
Definition day : Z := 1000 * 60 * 60 * 24.

(** ** clampDomain *)

Section ClampDomain.

(** [new Date(d + n)] for a Date [d] and a Number [n].  Binary [+] converts
    a Date operand with the default hint, which for Dates is the string
    one, so [d + n] is the text of [d.toString()] followed by the digits of
    [n], and [new Date] hands that text to [Date.parse].  The text is not
    in the ISO format, so what it parses to is left to the engine; the
    embedding takes the engine's answer as a parameter. *)
Variable dateOfConcat : JS.Date -> JS.Number -> JS.Date.

Definition Domain : Type := (JS.Date * JS.Date)%type.

(** The minimum-window block of [clampDomain]. *)
Definition enforceMinSpan (min max : JS.Date) (d : Domain) : Domain :=
  let '(start, end_) := d in
  if (+' end_ -' +' start) <' JS.ofZ MIN_SPAN_MS then
    let mid := (+' start +' +' end_) /' JS.ofZ 2 in
    let start := JS.newDate (mid -' JS.ofZ MIN_SPAN_MS /' JS.ofZ 2) in
    let end_ := JS.newDate (mid +' JS.ofZ MIN_SPAN_MS /' JS.ofZ 2) in
    (* clamp again to dataset *)
    let '(start, end_) :=
      if +' start <' +' min
      then (JS.copyDate min, dateOfConcat min (JS.ofZ MIN_SPAN_MS))
      else (start, end_) in
    let '(start, end_) :=
      if +' end_ >' +' max
      then (JS.newDate (+' max -' JS.ofZ MIN_SPAN_MS), JS.copyDate max)
      else (start, end_) in
    (start, end_)
  else (start, end_).

Definition clampDomain (proposed bounds : Domain) : Domain :=
  let '(start, end_) := proposed in
  let '(min, max) := bounds in
  let span := +' end_ -' +' start in
  let maxSpan := +' max -' +' min in
  (* If trying to show more than exists, snap to full extent *)
  if span >=' maxSpan then (JS.copyDate min, JS.copyDate max)
  else
    (* Keep inside the bounds while preserving the span *)
    let '(start, end_) :=
      if +' start <' +' min
      then (JS.copyDate min, dateOfConcat min span)
      else (start, end_) in
    let '(start, end_) :=
      if +' end_ >' +' max
      then (JS.newDate (+' max -' span), JS.copyDate max)
      else (start, end_) in
    (* safety swap *)
    let '(start, end_) :=
      if +' end_ <' +' start then (end_, start) else (start, end_) in
    (* enforce minimum zoom window *)
    enforceMinSpan min max (start, end_).

End ClampDomain.

(** ** Strings and arrays *)

Local Open Scope string_scope.

(** [Boolean(s)] for a string: the empty string is the only falsy one. *)
Definition truthy (s : string) : bool := negb (s =? "").

(** [s.includes(t)] *)
Fixpoint includes (s t : string) : bool :=
  String.prefix t s ||
  match s with
  | EmptyString => false
  | String _ s' => includes s' t
  end.

(** [arr.includes(v)] for an array of strings. *)
Definition arr_includes (arr : list string) (v : string) : bool :=
  existsb (String.eqb v) arr.

(** [Array.from(new Set(arr))]: first occurrences, in order. *)
Fixpoint dedupe_from (seen arr : list string) : list string :=
  match arr with
  | [] => []
  | a :: rest =>
      if arr_includes seen a then dedupe_from seen rest
      else a :: dedupe_from (a :: seen) rest
  end.

Definition dedupe (arr : list string) : list string := dedupe_from [] arr.

(** A [Set] of strings with [has], [add] and [delete]. *)
Definition StrSet : Type := list string.
Definition has (s : StrSet) (k : string) : bool := arr_includes s k.

(** A [Map] from strings to strings, as the list of the entries it was
    built from; [get] returns the value set last. *)
Definition StrMap : Type := list (string * string).
Definition Map_get (m : StrMap) (k : string) : option string :=
  fold_left (fun acc kv => if fst kv =? k then Some (snd kv) else acc) m None.

(** ** Records *)

(** One parsed CSV row, with the fields the simulation and the offset cache
    write on it ([None] is [undefined]). *)
Record Event : Type := mkEvent {
  date : Z;
  displayDate : string;
  event : string;
  notes : string;
  displaySource : string;
  sourceUrl : string;
  categories : list string;
  category : string;
  topics : list string;
  validTopics : list string;
  displayCategories : list string;
  displayTopics : list string;
  keyEvent : bool;
  nodeX : JS.Number;            (* d.x, written by the simulation *)
  nodeY : JS.Number;            (* d.y, written by the simulation *)
  ySim : option JS.Number;
  xOffset : option JS.Number;
  viewed : option bool
}.

(** A dropdown built by [buildSelectableList]: its [.dropdown-option]
    elements, each with its [data-value] and whether it carries the class
    [on], and the [__valueLookup] map when [setupFilters] attached one. *)
Record Dropdown : Type := mkDropdown {
  options : list (string * bool);
  valueLookup : option StrMap
}.

(** [getSelectedValues(dropdownEl)] *)
Definition getSelectedValues (dropdownEl : option Dropdown) : list string :=
  match dropdownEl with
  | None => []
  | Some dd => map fst (filter snd (options dd))
  end.

(** [dropdownEl.querySelectorAll(".dropdown-option").length], 0 without the
    element. *)
Definition optionCount (dropdownEl : option Dropdown) : nat :=
  match dropdownEl with
  | None => 0%nat
  | Some dd => List.length (options dd)
  end.

(** The "Select all" / "Deselect all" buttons. *)
Definition setAll (on : bool) (dd : Dropdown) : Dropdown :=
  mkDropdown (map (fun o => (fst o, on)) (options dd)) (valueLookup dd).

(** A click (or Space/Enter) on the [i]-th option toggles it. *)
Fixpoint toggleAt (i : nat) (opts : list (string * bool)) : list (string * bool) :=
  match opts, i with
  | [], _ => []
  | (v, on) :: rest, O => (v, negb on) :: rest
  | o :: rest, S j => o :: toggleAt j rest
  end.

Definition toggleOption (i : nat) (dd : Dropdown) : Dropdown :=
  mkDropdown (toggleAt i (options dd)) (valueLookup dd).

(** ** The host: the browser and d3

    What the script calls but does not define.  [toLowerCase], [trim] and
    [toTitleCase] are the string methods and the regex replacement of
    [setupFilters]; [dateOfConcat] is described with [clampDomain]; the three
    [sim_] fields are [d3.forceSimulation(data).force(..).stop()], one
    [simulation.tick()], and the [x], [y] the simulation has written on the
    nodes. *)
Record Forces : Type := mkForces {
  forceX : list JS.Number;      (* d3.forceX(d => x(d.date)).strength(1) *)
  forceY : Q;                   (* d3.forceY(DOT_CENTER_Y) *)
  forceCollide : Q              (* d3.forceCollide(radius + 1) *)
}.

Record Host : Type := mkHost {
  toLowerCase : string -> string;
  trim : string -> string;
  toTitleCase : string -> string;
  dateOfConcat : JS.Date -> JS.Number -> JS.Date;
  Simulation : Type;
  sim_create : Forces -> list Event -> Simulation;
  sim_tick : Simulation -> Simulation;
  sim_nodes : Simulation -> list (JS.Number * JS.Number)
}.

(** ** The filter pipeline of [updateChart] *)

Section FilterPipeline.

Variable host : Host.

Variable rawData : list Event.
(** Legend state. *)
Variable selectedCats : StrSet.
(** [#topicDropdown] and [#sourceDropdown], [None] when the element is
    missing. *)
Variables topicDropdown sourceDropdown : option Dropdown.
(** [!!document.getElementById("keyEventFilter")?.checked] *)
Variable onlyKeyEvents : bool.
(** [document.getElementById("search")?.value || ""] *)
Variable searchValue : string.

Definition topicLabels : list string := getSelectedValues topicDropdown.

(** map UI labels (Title Case) -> canonical tokens (lowercase), then
    de-dupe *)
Definition selectedTopics0 : list string :=
  dedupe
    match topicDropdown with
    | Some {| valueLookup := Some lookup |} =>
        filter truthy
          (map (fun label =>
                  match Map_get lookup label with
                  | Some v => v
                  | None => label
                  end) topicLabels)
    | _ => topicLabels
    end.

Definition selectedSources0 : list string := getSelectedValues sourceDropdown.

(** fallbacks if menus are empty/not built *)
Definition allTopics : list string :=
  dedupe (filter truthy (flat_map validTopics rawData)).
Definition allSources : list string :=
  dedupe (filter truthy (map displaySource rawData)).

Definition topicListCount : nat := optionCount topicDropdown.
Definition sourceListCount : nat := optionCount sourceDropdown.
Definition useTopicFilter : bool := (0 <? topicListCount)%nat.
Definition useSourceFilter : bool := (0 <? sourceListCount)%nat.

Definition selectedTopics : list string :=
  if useTopicFilter then selectedTopics0 else allTopics.
Definition selectedSources : list string :=
  if useSourceFilter then selectedSources0 else allSources.

Definition searchTerm : string := toLowerCase host (trim host searchValue).

(** legend categories *)
Definition categoryKeys : list string := ["biological"; "chemical"; "multi"].
Definition activeCats : list string := filter (has selectedCats) categoryKeys.

Definition isAllTopicsSelected : bool :=
  if useTopicFilter then (List.length selectedTopics =? topicListCount)%nat
  else true.
Definition isAllSourcesSelected : bool :=
  if useSourceFilter then (List.length selectedSources =? sourceListCount)%nat
  else true.

Definition isMulti (d : Event) : bool := (1 <? List.length (categories d))%nat.

(** 1) category (legend) *)
Definition catMatch (d : Event) : bool :=
  if (0 <? List.length activeCats)%nat then
    if isMulti d then arr_includes activeCats "multi"
    else existsb (arr_includes activeCats) (categories d)
  else false.

(** 2) allow if not key or key is enabled *)
Definition keyOk (d : Event) : bool := has selectedCats "key" || negb (keyEvent d).

(** 3) topic *)
Definition topicMatch (d : Event) : bool :=
  if useTopicFilter then
    if (List.length selectedTopics =? 0)%nat then false
    else if negb isAllTopicsSelected then
      let evTopics := validTopics d in
      (0 <? List.length evTopics)%nat
      && existsb (arr_includes selectedTopics) evTopics
    else true
  else true.

(** 4) source *)
Definition sourceMatch (d : Event) : bool :=
  if useSourceFilter then
    if (List.length selectedSources =? 0)%nat then false
    else if negb isAllSourcesSelected then
      truthy (displaySource d) && arr_includes selectedSources (displaySource d)
    else true
  else true.

(** 5) key-only toggle *)
Definition keyMatch (d : Event) : bool := negb onlyKeyEvents || keyEvent d.

(** 6) text search *)
Definition searchMatch (d : Event) : bool :=
  let s := searchTerm in
  negb (truthy s)
  || (truthy (event d) && includes (toLowerCase host (event d)) s)
  || (truthy (notes d) && includes (toLowerCase host (notes d)) s).

Definition passes (d : Event) : bool :=
  catMatch d && keyOk d && topicMatch d && sourceMatch d && keyMatch d
  && searchMatch d.

(** The value [updateChart] assigns to [filteredData]. *)
Definition filterRecords : list Event :=
  if (List.length activeCats =? 0)%nat && negb (has selectedCats "key") then []
  else filter passes rawData.

End FilterPipeline.

(** ** The time scale

    [d3.scaleTime()] is d3's linear scale on time values: [x(t)] normalises
    [t] against the domain ([1/2] on a domain of zero width) and
    interpolates the range at that fraction; [x.invert(px)] does the same
    from the range to the domain and returns a Date. *)

Local Open Scope Z_scope.

Record Scale : Type := mkScale {
  domain : Domain;
  range : Q * Q
}.

Definition qnum (q : Q) : JS.Number := Some q.

Definition interpolate (a b u : JS.Number) : JS.Number :=
  a *' (qnum 1 -' u) +' b *' u.

Definition normalize (a b v : JS.Number) : JS.Number :=
  match b -' a with
  | None => None
  | Some w => if Qeq_bool w 0 then qnum (1 # 2) else (v -' a) /' Some w
  end.

(** [x(d)] for a Date [d]. *)
Definition scale_apply (x : Scale) (d : JS.Date) : JS.Number :=
  let '(d0, d1) := domain x in
  let '(r0, r1) := range x in
  interpolate (qnum r0) (qnum r1) (normalize (+' d0) (+' d1) (+' d)).

(** [x.invert(px)], in exact arithmetic. *)
Definition scale_invert (x : Scale) (px : JS.Number) : JS.Date :=
  let '(d0, d1) := domain x in
  let '(r0, r1) := range x in
  JS.newDate (interpolate (+' d0) (+' d1) (normalize (qnum r0) (qnum r1) px)).

(** [x.domain([start, end])] *)
Definition set_domain (x : Scale) (start end_ : JS.Date) : Scale :=
  mkScale (start, end_) (range x).

(** [d3.extent(data, d => d.date)]: the least and the greatest date, a pair
    of [undefined] on an empty array. *)
Definition d3_extent (data : list Event) : Domain :=
  match map date data with
  | [] => (None, None)
  | t :: ts => (Some (fold_left Z.min ts t), Some (fold_left Z.max ts t))
  end.

(** ** Packing the dots and the offset cache *)

Section Layout.

Variable host : Host.

Fixpoint set_positions (data : list Event) (pos : list (JS.Number * JS.Number))
  : list Event :=
  match data, pos with
  | d :: data', (px, py) :: pos' =>
      mkEvent (date d) (displayDate d) (event d) (notes d) (displaySource d)
              (sourceUrl d) (categories d) (category d) (topics d)
              (validTopics d) (displayCategories d) (displayTopics d)
              (keyEvent d) px py (ySim d) (xOffset d) (viewed d)
      :: set_positions data' pos'
  | _, _ => data
  end.

(** [d3.forceSimulation(data).force("x", ..).force("y", ..)
     .force("collide", ..).stop()] followed by
    [for (let i = 0; i < 150; i++) simulation.tick()]. *)
Definition packDots (x : Scale) (centerY : Q) (data : list Event) : list Event :=
  let forces :=
    mkForces (map (fun d => scale_apply x (Some (date d))) data)
             centerY (inject_Z (radius + 1)) in
  let simulation := sim_create host forces data in
  set_positions data (sim_nodes host (Nat.iter 150 (sim_tick host) simulation)).

(** [v || 0] for a Number: NaN and 0 are falsy. *)
Definition orZero (v : JS.Number) : JS.Number :=
  match v with
  | None => qnum 0
  | Some q => if Qeq_bool q 0 then qnum 0 else Some q
  end.

(** cache per-node offsets from ideal time position & the simulated y *)
Definition cacheOffsets (x : Scale) (data : list Event) : list Event :=
  map (fun d =>
         mkEvent (date d) (displayDate d) (event d) (notes d) (displaySource d)
                 (sourceUrl d) (categories d) (category d) (topics d)
                 (validTopics d) (displayCategories d) (displayTopics d)
                 (keyEvent d) (nodeX d) (nodeY d)
                 (Some (nodeY d))
                 (Some (orZero (nodeX d -' scale_apply x (Some (date d)))))
                 (viewed d))
      data.

(** The offset a circle is drawn with: [d.xOffset || 0]. *)
Definition cachedOffset (d : Event) : JS.Number :=
  match xOffset d with
  | Some off => orZero off
  | None => qnum 0
  end.

(** [.attr("cx", d => x(d.date) + (d.xOffset || 0))] *)
Definition cx (x : Scale) (d : Event) : JS.Number :=
  scale_apply x (Some (date d)) +' cachedOffset d.

(** [.attr("cy", d => d.ySim ?? d.y)] *)
Definition cy (d : Event) : JS.Number :=
  match ySim d with
  | Some v => v
  | None => nodeY d
  end.

Definition circleAttrs (x : Scale) (data : list Event)
  : list (JS.Number * JS.Number) :=
  map (fun d => (cx x d, cy d)) data.

End Layout.

(** ** Label stacking in [drawAnnotations] *)

(** An entry of [placedLabels]. *)
Record Placed : Type := mkPlaced {
  x1 : Q;           (* labelX1 - labelPadding *)
  x2 : Q;           (* labelX2 + labelPadding *)
  level : nat
}.

Inductive Anchor : Type := anchor_start | anchor_middle | anchor_end.

(** What [drawAnnotations] draws for one key event. *)
Record Annotation : Type := mkAnnotation {
  anno_event : Event;
  xPos : Q;
  labelText : string;
  labelX1 : Q;
  labelX2 : Q;
  anno_level : nat;
  yBase : Z;
  yStart : JS.Number;
  anchor : Anchor
}.

Definition labelPadding : Q := 4.

(** The horizontal ellipsis: one UTF-16 code unit in the source, one
    character here. *)
Definition ellipsis : string := String (ascii_of_nat 133) EmptyString.

(** [d.event.length > 50 ? d.event.slice(0, 50) + "…" : d.event] *)
Definition labelTextOf (d : Event) : string :=
  if (50 <? String.length (event d))%nat
  then (substring 0 50 (event d) ++ ellipsis)%string
  else event d.

(** [keyEvents.sort((a, b) => a.date - b.date)]: a stable sort by date. *)
Fixpoint insertByDate (d : Event) (sorted : list Event) : list Event :=
  match sorted with
  | [] => [d]
  | e :: rest =>
      if date d <? date e then d :: sorted else e :: insertByDate d rest
  end.

Definition sortByDate (events : list Event) : list Event :=
  fold_left (fun acc d => insertByDate d acc) events [].

(** The test inside [placedLabels.some(..)]:
    [!(labelX2 < l.x1 || labelX1 > l.x2 || level !== l.level)] *)
Definition collides (labelX1 labelX2 : Q) (lvl : nat) (l : Placed) : bool :=
  negb (JS.Qltb labelX2 (x1 l) || JS.Qltb (x2 l) labelX1
        || negb (lvl =? level l)%nat).

(** [let level = 0; while (placedLabels.some(..)) level++;] with the number
    of iterations bounded by [fuel]; [None] when the bound is reached. *)
Fixpoint findLevel (fuel : nat) (placedLabels : list Placed)
         (labelX1 labelX2 : Q) (lvl : nat) : option nat :=
  if existsb (collides labelX1 labelX2 lvl) placedLabels then
    match fuel with
    | O => None
    | S fuel' => findLevel fuel' placedLabels labelX1 labelX2 (S lvl)
    end
  else Some lvl.

(** At most one row per placed label can be occupied. *)
Definition levelFor (placedLabels : list Placed) (labelX1 labelX2 : Q) : nat :=
  match findLevel (List.length placedLabels) placedLabels labelX1 labelX2 0 with
  | Some lvl => lvl
  | None => S (List.length placedLabels)
  end.

Section Annotations.

Variable x : Scale.
Variable data : list Event.
Variable width : Q.
Variable DOT_CENTER_Y : Q.

(** [data.find(item => item.date.getTime() === d.date.getTime()
                       && item.event === d.event)] *)
Definition findMatch (d : Event) : option Event :=
  find (fun item => (date item =? date d) && (event item =? event d)%string) data.

(** [xPos < width * 0.33], [xPos > width * 0.66], with exact products. *)
Definition anchorOf (xPos : Q) : Anchor :=
  if JS.Qltb xPos (width * (33 # 100)) then anchor_start
  else if JS.Qltb (width * (66 # 100)) xPos then anchor_end
  else anchor_middle.

(** One turn of the [forEach]: the labels placed so far and the
    annotations drawn so far, extended by those of [d]. *)
Definition placeOne (acc : list Placed * list Annotation) (d : Event)
  : list Placed * list Annotation :=
  let '(placedLabels, drawn) := acc in
  match scale_apply x (Some (date d)) with
  | None => acc                        (* isNaN(x(d.date)): return *)
  | Some xPos =>
      let labelText := labelTextOf d in
      let labelWidth := inject_Z (Z.of_nat (String.length labelText) * 7) in
      let labelX1 := (xPos - labelWidth / 2)%Q in
      let labelX2 := (xPos + labelWidth / 2)%Q in
      let lvl := levelFor placedLabels labelX1 labelX2 in
      let placedLabels :=
        (placedLabels
         ++ [mkPlaced (labelX1 - labelPadding)%Q (labelX2 + labelPadding)%Q lvl])%list in
      let yBase := ANNO_Y0 + Z.of_nat lvl * LAYOUT.annoRow in
      let yStart :=
        match findMatch d with
        | Some m => match nodeY m with Some v => Some v | None => Some DOT_CENTER_Y end
        | None => Some DOT_CENTER_Y
        end in
      (placedLabels,
       (drawn ++ [mkAnnotation d xPos labelText labelX1 labelX2 lvl yBase yStart
                               (anchorOf xPos)])%list)
  end.

(** The labels placed and the annotations drawn for the key events, which
    the call also leaves sorted. *)
Definition placeLabels (keyEvents : list Event) : list Placed * list Annotation :=
  fold_left placeOne (sortByDate keyEvents) ([], []).

End Annotations.

(** ** Module-scope state and the page *)

(** The module-scope variables of the script, the controls it reads from the
    page, and what it has drawn.  [boundData] is the [data] array that the
    wheel, drag and touch handlers installed by the last non-empty
    [drawChart] close over; while [filteredData] is not empty it is that
    same array.  The simulation writes on node objects that [rawData] and
    [keyEvents] share; of those two arrays the script reads only the
    ingestion-time fields, which is all the embedding keeps up to date in
    them. *)
Record State : Type := mkState {
  rawData : list Event;
  filteredData : list Event;
  keyEvents : list Event;
  currentXScale : option Scale;
  FULL_EXTENT : option Domain;
  selectedCats : StrSet;
  width : Q;
  DOT_CENTER_Y : Q;
  didInitialFit : bool;                 (* drawChart._didInitialFit *)
  topicDropdown : option Dropdown;
  sourceDropdown : option Dropdown;
  keyEventFilter : bool;
  searchValue : string;
  boundData : list Event;
  dots : list (JS.Number * JS.Number);  (* cx, cy of the circles *)
  annotations : list Annotation
}.

Definition with_chart (st : State) (x : option Scale) (fd ke bd : list Event)
           (ds : list (JS.Number * JS.Number)) (an : list Annotation) : State :=
  mkState (rawData st) fd ke x (FULL_EXTENT st) (selectedCats st) (width st)
          (DOT_CENTER_Y st) (didInitialFit st) (topicDropdown st)
          (sourceDropdown st) (keyEventFilter st) (searchValue st) bd ds an.

Definition with_didInitialFit (st : State) (b : bool) : State :=
  mkState (rawData st) (filteredData st) (keyEvents st) (currentXScale st)
          (FULL_EXTENT st) (selectedCats st) (width st) (DOT_CENTER_Y st) b
          (topicDropdown st) (sourceDropdown st) (keyEventFilter st)
          (searchValue st) (boundData st) (dots st) (annotations st).

Definition with_controls (st : State) (cats : StrSet) (td sd : option Dropdown)
           (kf : bool) (sv : string) : State :=
  mkState (rawData st) (filteredData st) (keyEvents st) (currentXScale st)
          (FULL_EXTENT st) cats (width st) (DOT_CENTER_Y st) (didInitialFit st)
          td sd kf sv (boundData st) (dots st) (annotations st).

Definition with_rawData (st : State) (rows : list Event) (extent : option Domain)
  : State :=
  mkState rows (filteredData st) (keyEvents st) (currentXScale st) extent
          (selectedCats st) (width st) (DOT_CENTER_Y st) (didInitialFit st)
          (topicDropdown st) (sourceDropdown st) (keyEventFilter st)
          (searchValue st) (boundData st) (dots st) (annotations st).

Section Chart.

Variable host : Host.

(** [setDomainAndRedraw(x, xAxisG, dotsGroup, data, start, end, { repack })]:
    helper used by wheel/drag to apply new domain and refresh positions.
    It moves the circles that are there and creates none: after
    [drawChart([])] has removed the [.dots] group, [svg.select(".dots")] is
    empty and the group the wheel and touch handlers hold is off the page,
    so no circle shows. *)
Definition setDomainAndRedraw (st : State) (x : Scale) (data : list Event)
           (start end_ : JS.Date) (repack : bool) : State :=
  (* update domain + axis *)
  let x := set_domain x start end_ in
  (* re-run simulation against the new time scale, refresh caches *)
  let data :=
    if repack then cacheOffsets x (packDots host x (DOT_CENTER_Y st) data)
    else data in
  (* always update screen positions from scale + cached offsets;
     redraw annotations for the new domain *)
  with_chart st (Some x)
             (match filteredData st with [] => [] | _ => data end)
             (sortByDate (keyEvents st))
             data
             (match dots st with [] => [] | _ => circleAttrs x data end)
             (snd (placeLabels x data (width st) (DOT_CENTER_Y st) (keyEvents st))).

(** [FULL_EXTENT || d3.extent(filteredData, d => d.date)] *)
Definition clampBounds (st : State) : Domain :=
  match FULL_EXTENT st with
  | Some extent => extent
  | None => d3_extent (filteredData st)
  end.

(** [FULL_EXTENT || d3.extent(rawData, d => d.date)], in
    [enableTouchZoomPan]. *)
Definition touchBounds (st : State) : Domain :=
  match FULL_EXTENT st with
  | Some extent => extent
  | None => d3_extent (rawData st)
  end.

Definition setViewed (data : list Event) : list Event :=
  map (fun d =>
         mkEvent (date d) (displayDate d) (event d) (notes d) (displaySource d)
                 (sourceUrl d) (categories d) (category d) (topics d)
                 (validTopics d) (displayCategories d) (displayTopics d)
                 (keyEvent d) (nodeX d) (nodeY d) (ySim d) (xOffset d)
                 (match viewed d with None => Some false | v => v end))
      data.

(** [drawChart(data)] *)
Definition drawChart (st : State) (data : list Event) : State :=
  match data with
  | [] =>
      (* clear dynamic layers; keep axis/legend if any *)
      with_chart st (currentXScale st) (filteredData st) (keyEvents st)
                 (boundData st) [] []
  | _ =>
      (* 1) scale + axis *)
      let x := mkScale (d3_extent data) (40, width st - 40)%Q in
      (* 2) pack dots *)
      let data := cacheOffsets x (setViewed (packDots host x (DOT_CENTER_Y st) data)) in
      (* 4) dots, 5)-6) handlers, 7) annotations *)
      let st :=
        with_chart st (Some x)
                   (match filteredData st with [] => [] | _ => data end)
                   (sortByDate (keyEvents st))
                   data
                   (circleAttrs x data)
                   (snd (placeLabels x data (width st) (DOT_CENTER_Y st)
                                     (keyEvents st))) in
      (* Start fully zoomed out once *)
      match didInitialFit st, FULL_EXTENT st with
      | false, Some (lo, hi) =>
          with_didInitialFit (setDomainAndRedraw st x data lo hi false) true
      | _, _ => st
      end
  end.

(** [updateChart()] *)
Definition updateChart (st : State) : State :=
  let data :=
    filterRecords host (rawData st) (selectedCats st) (topicDropdown st)
                  (sourceDropdown st) (keyEventFilter st) (searchValue st) in
  let st :=
    with_chart st (currentXScale st) data (filter keyEvent data)
               (boundData st) (dots st) (annotations st) in
  drawChart st data.

(** *** Filters UI *)

Fixpoint insertSorted (s : string) (sorted : list string) : list string :=
  match sorted with
  | [] => [s]
  | t :: rest => if String.ltb s t then s :: sorted else t :: insertSorted s rest
  end.

(** [arr.sort()] on strings. *)
Definition sortStrings (arr : list string) : list string :=
  fold_left (fun acc s => insertSorted s acc) arr [].

(** [buildSelectableList(dropdownEl, items)]: items ON by default. *)
Definition buildSelectableList (items : list string) (lookup : option StrMap)
  : Dropdown :=
  mkDropdown (map (fun v => (v, true)) items) lookup.

(** [setupFilters()]; a dropdown is built when its element is on the
    page. *)
Definition setupFilters (st : State) : State :=
  let topics :=
    sortStrings (dedupe (filter truthy (flat_map validTopics (rawData st)))) in
  let itemsForUI := map (toTitleCase host) topics in
  let sources := sortStrings (dedupe (filter truthy (map displaySource (rawData st)))) in
  with_controls st (selectedCats st)
    (match topicDropdown st with
     | Some _ => Some (buildSelectableList itemsForUI (Some (combine itemsForUI topics)))
     | None => None
     end)
    (match sourceDropdown st with
     | Some _ => Some (buildSelectableList sources None)
     | None => None
     end)
    (keyEventFilter st) (searchValue st).

(** The [.then] of the CSV load in [init]; [data] is the parsed rows. *)
Definition load (st : State) (data : list Event) : State :=
  let st := with_rawData st data (Some (d3_extent data)) in
  updateChart (setupFilters st).

End Chart.

(** ** Gestures *)

Section Gestures.

Variable host : Host.

Definition Qmax (a b : Q) : Q := if Qle_bool a b then b else a.
Definition Qmin (a b : Q) : Q := if Qle_bool a b then a else b.

(** [event.deltaY > 0 ? 1.1 : 0.9] *)
Definition wheelFactor (deltaY : Q) : Q :=
  if JS.Qltb 0 deltaY then 11 # 10 else 9 # 10.

(** [Math.max(0.0001, Math.min(1000, factor))] *)
Definition wheelK (deltaY : Q) : Q :=
  Qmax (1 # 10000) (Qmin 1000 (wheelFactor deltaY)).

(** The window the wheel handler proposes about the anchor [a], as the two
    Numbers it hands to [new Date], in exact arithmetic. *)
Definition wheelProposal (d0 d1 a : JS.Number) (k : Q) : JS.Number * JS.Number :=
  (a -' (a -' d0) *' qnum k, a +' (d1 -' a) *' qnum k).

(** [Math.abs(newSpan - oldSpan) > 5] *)
Definition spanChanged (newSpan oldSpan : JS.Number) : bool :=
  match newSpan -' oldSpan with
  | Some d => JS.Qltb 5 (Qabs d)
  | None => false
  end.

(** A gesture either returns without touching the chart or calls
    [setDomainAndRedraw] with a window and a repack flag. *)
Inductive Request : Type :=
| Ignored
| Redraw (start end_ : JS.Date) (repack : bool).

(** The wheel handler installed by [drawChart], up to its call of
    [setDomainAndRedraw]. *)
Definition wheelRequest (st : State) (x : Scale) (deltaY mouseX : Q) : Request :=
  let anchorDate := scale_invert x (qnum mouseX) in
  let '(d0, d1) := (+' fst (domain x), +' snd (domain x)) in
  let extent := clampBounds st in
  let '(min, max) := (+' fst extent, +' snd extent) in
  let k := wheelK deltaY in
  let a := +' anchorDate in
  let '(newStart, newEnd) := wheelProposal d0 d1 a k in
  let '(start2, end2) :=
    clampDomain (dateOfConcat host) (JS.newDate newStart, JS.newDate newEnd)
                (fst extent, snd extent) in
  if (+' end2 -' +' start2) <=' JS.ofZ MIN_SPAN_MS then
    (* don't zoom in further *)
    Ignored
  else
    let atFullExtent := JS.eq d0 min && JS.eq d1 max in
    let wantFullExtent := JS.eq (+' start2) min && JS.eq (+' end2) max in
    if atFullExtent && wantFullExtent && JS.Qltb 0 deltaY then Ignored
    else
      let oldSpan := d1 -' d0 in
      let newSpan := +' end2 -' +' start2 in
      Redraw start2 end2 (spanChanged newSpan oldSpan).

(** Drag to pan, and the one-finger pan of [enableTouchZoomPan]; [bounds]
    is the extent each of them clamps to. *)
Definition panRequest (bounds : Domain) (x : Scale) (dxPx : Q) : Request :=
  (* convert pixel delta to time delta using current scale *)
  let dt := +' scale_invert x (qnum 0) -' +' scale_invert x (qnum dxPx) in
  let '(s0, e0) := (+' fst (domain x), +' snd (domain x)) in
  let newStart := JS.newDate (s0 +' dt) in
  let newEnd := JS.newDate (e0 +' dt) in
  let '(newStart, newEnd) :=
    clampDomain (dateOfConcat host) (newStart, newEnd) (fst bounds, snd bounds) in
  Redraw newStart newEnd false.

Definition dragRequest (st : State) (x : Scale) (dxPx : Q) : Request :=
  panRequest (clampBounds st) x dxPx.

Definition touchPanRequest (st : State) (x : Scale) (dxPx : Q) : Request :=
  panRequest (touchBounds st) x dxPx.

(** The two-finger pinch of [enableTouchZoomPan]: [baseDomain] is the
    domain at gesture start, [k = pinchStartDist / dist] and [localX] the
    svg-local x of the midpoint of the fingers. *)
Definition pinchRequest (st : State) (x : Scale) (baseDomain : JS.Number * JS.Number)
           (k localX : Q) : Request :=
  let '(d0, d1) := baseDomain in
  let anchorDate := scale_invert x (qnum localX) in
  let a := +' anchorDate in
  let newStart := JS.newDate (a -' (a -' d0) *' qnum k) in
  let newEnd := JS.newDate (a +' (d1 -' a) *' qnum k) in
  let extent := touchBounds st in
  let '(newStart, newEnd) :=
    clampDomain (dateOfConcat host) (newStart, newEnd) (fst extent, snd extent) in
  Redraw newStart newEnd (spanChanged (+' newEnd -' +' newStart) (d1 -' d0)).

(** The window [zoomBy(factor, anchorDate)] has computed when it reaches
    its minimum-window test; [anchorDate] is [None] when the argument is
    left out, as both zoom buttons do. *)
Definition zoomByWindow (st : State) (x : Scale) (factor : Q)
           (anchorDate : option JS.Date) : Domain :=
  let '(d0, d1) := domain x in
  let center :=
    match anchorDate with
    | Some a => +' a
    | None => (+' d0 +' +' d1) /' JS.ofZ 2
    end in
  (* Proposed new span *)
  let span := (+' d1 -' +' d0) /' qnum factor in
  let newStart := JS.newDate (center -' span /' JS.ofZ 2) in
  let newEnd := JS.newDate (center +' span /' JS.ofZ 2) in
  (* Always clamp against the FULL dataset, not the filtered slice *)
  let extent := clampBounds st in
  let min := +' fst extent in
  let max := +' snd extent in
  let maxSpan := max -' min in
  (* Don't allow zoom out beyond the full dataset *)
  let '(newStart, newEnd) :=
    if (+' newEnd -' +' newStart) >' maxSpan
    then (JS.newDate min, JS.newDate max)
    else (newStart, newEnd) in
  (* Keep inside bounds *)
  let '(newStart, newEnd) :=
    if +' newStart <' min
    then (JS.newDate min, JS.newDate (min +' span))
    else (newStart, newEnd) in
  let '(newStart, newEnd) :=
    if +' newEnd >' max
    then (JS.newDate (max -' span), JS.newDate max)
    else (newStart, newEnd) in
  (newStart, newEnd).

(** [zoomBy(factor, anchorDate)], up to its call of [setDomainAndRedraw]. *)
Definition zoomByRequest (st : State) (factor : Q) (anchorDate : option JS.Date)
  : Request :=
  match currentXScale st, filteredData st with
  | None, _ | _, [] => Ignored
  | Some x, _ :: _ =>
      let '(newStart, newEnd) := zoomByWindow st x factor anchorDate in
      let minZoomSpan := JS.ofZ MIN_SPAN_MS in   (* use the shared constant *)
      (* Enforce minimum zoom window *)
      if (+' newEnd -' +' newStart) <' minZoomSpan then Ignored
      else Redraw newStart newEnd true
  end.

(** Carrying a request out on the chart. *)
Definition perform (st : State) (x : Scale) (data : list Event) (r : Request)
  : State :=
  match r with
  | Ignored => st
  | Redraw start end_ repack => setDomainAndRedraw host st x data start end_ repack
  end.

Definition zoomBy (st : State) (factor : Q) (anchorDate : option JS.Date) : State :=
  match currentXScale st with
  | Some x => perform st x (filteredData st) (zoomByRequest st factor anchorDate)
  | None => st
  end.

(** The handlers exist once a non-empty [drawChart] has run, which is when
    [currentXScale] is set; they act on the scale and the data they closed
    over. *)
Definition onHandlers (st : State) (f : Scale -> Request) : State :=
  match currentXScale st with
  | Some x => perform st x (boundData st) (f x)
  | None => st
  end.

Definition wheel (st : State) (deltaY mouseX : Q) : State :=
  onHandlers st (fun x => wheelRequest st x deltaY mouseX).
Definition drag (st : State) (dxPx : Q) : State :=
  onHandlers st (fun x => dragRequest st x dxPx).
Definition touchPan (st : State) (dxPx : Q) : State :=
  onHandlers st (fun x => touchPanRequest st x dxPx).
Definition pinch (st : State) (baseDomain : JS.Number * JS.Number) (k localX : Q)
  : State :=
  onHandlers st (fun x => pinchRequest st x baseDomain k localX).

(** The gestures: a wheel tick, a mouse drag, a one-finger pan, a pinch and
    a press of a zoom button. *)
Inductive Gesture : Type :=
| GWheel (deltaY mouseX : Q)
| GDrag (dxPx : Q)
| GTouchPan (dxPx : Q)
| GPinch (baseDomain : JS.Number * JS.Number) (k localX : Q)
| GZoomBy (factor : Q) (anchorDate : option JS.Date).

Definition gesture (st : State) (g : Gesture) : State :=
  match g with
  | GWheel deltaY mouseX => wheel st deltaY mouseX
  | GDrag dxPx => drag st dxPx
  | GTouchPan dxPx => touchPan st dxPx
  | GPinch baseDomain k localX => pinch st baseDomain k localX
  | GZoomBy factor anchorDate => zoomBy st factor anchorDate
  end.

(** What the user can do to the controls; each ends in [updateChart()]. *)
Inductive Control : Type :=
| LegendClick (key : string)
| TopicToggle (i : nat)
| TopicSetAll (on : bool)
| SourceToggle (i : nat)
| SourceSetAll (on : bool)
| KeyOnly (checked : bool)
| Search (text : string).

(** [if (selectedCats.has(d.key)) selectedCats.delete(d.key);
     else selectedCats.add(d.key);] *)
Definition toggleCat (cats : StrSet) (key : string) : StrSet :=
  if has cats key then filter (fun k => negb (k =? key)%string) cats
  else (cats ++ [key])%list.

Definition control (st : State) (c : Control) : State :=
  let st :=
    match c with
    | LegendClick key =>
        with_controls st (toggleCat (selectedCats st) key) (topicDropdown st)
                      (sourceDropdown st) (keyEventFilter st) (searchValue st)
    | TopicToggle i =>
        with_controls st (selectedCats st)
                      (option_map (toggleOption i) (topicDropdown st))
                      (sourceDropdown st) (keyEventFilter st) (searchValue st)
    | TopicSetAll on =>
        with_controls st (selectedCats st)
                      (option_map (setAll on) (topicDropdown st))
                      (sourceDropdown st) (keyEventFilter st) (searchValue st)
    | SourceToggle i =>
        with_controls st (selectedCats st) (topicDropdown st)
                      (option_map (toggleOption i) (sourceDropdown st))
                      (keyEventFilter st) (searchValue st)
    | SourceSetAll on =>
        with_controls st (selectedCats st) (topicDropdown st)
                      (option_map (setAll on) (sourceDropdown st))
                      (keyEventFilter st) (searchValue st)
    | KeyOnly checked =>
        with_controls st (selectedCats st) (topicDropdown st)
                      (sourceDropdown st) checked (searchValue st)
    | Search text =>
        with_controls st (selectedCats st) (topicDropdown st)
                      (sourceDropdown st) (keyEventFilter st) text
    end in
  updateChart host st.

(** The states the page goes through once the CSV has loaded. *)
Inductive reachable (st0 : State) (rows : list Event) : State -> Prop :=
| reach_load : reachable st0 rows (load host st0 rows)
| reach_control st c :
    reachable st0 rows st -> reachable st0 rows (control st c)
| reach_gesture st g :
    reachable st0 rows st -> reachable st0 rows (gesture st g).

End Gestures.

(** ** The older handlers of [scripts/app.js]

    [scripts/app.js] has no [clampDomain], no [FULL_EXTENT] and no offset
    cache: its wheel handler and its [zoomBy] clamp by hand against the
    extent of [filteredData], stop at a window of one day, and always re-run
    the simulation.  Its [updateChart] has the same early exit and the same
    six tests, without the fallbacks for a dropdown that is missing or
    empty and without the de-duplication of the selected topics. *)
Module Legacy.

Definition minZoomSpan : Z := 1000 * 60 * 60 * 24.

(** The window the wheel handler has arrived at when it tests it against
    the minimum: the span divided by the factor, about the date under the
    pointer, kept inside the extent of [filteredData] and capped at it. *)
Definition wheelWindow (x : Scale) (filteredData : list Event)
           (deltaY mouseX : Q) : Domain :=
  let mouseDate := scale_invert x (qnum mouseX) in
  let factor := if JS.Qltb 0 deltaY then 11 # 10 else 9 # 10 in
  let '(dom0, dom1) := domain x in
  let dataExtent := d3_extent filteredData in
  let maxSpan := +' snd dataExtent -' +' fst dataExtent in
  let newSpan := (+' dom1 -' +' dom0) /' qnum factor in
  let centerTime := +' mouseDate in
  let newStart := JS.newDate (centerTime -' newSpan /' JS.ofZ 2) in
  let newEnd := JS.newDate (centerTime +' newSpan /' JS.ofZ 2) in
  (* Clamp to data extent. *)
  let '(newStart, newEnd) :=
    if +' newStart <' +' fst dataExtent
    then (fst dataExtent, JS.newDate (+' fst dataExtent +' newSpan))
    else (newStart, newEnd) in
  let '(newStart, newEnd) :=
    if +' newEnd >' +' snd dataExtent
    then (JS.newDate (+' snd dataExtent -' newSpan), snd dataExtent)
    else (newStart, newEnd) in
  let '(newStart, newEnd) :=
    if (+' newEnd -' +' newStart) >' maxSpan
    then (fst dataExtent, snd dataExtent)
    else (newStart, newEnd) in
  (newStart, newEnd).

Definition wheelRequest (x : Scale) (filteredData : list Event)
           (deltaY mouseX : Q) : Request :=
  let '(newStart, newEnd) := wheelWindow x filteredData deltaY mouseX in
  (* Minimum zoom window: 1 day *)
  if (+' newEnd -' +' newStart) <' JS.ofZ minZoomSpan then Ignored
  else Redraw newStart newEnd true.

Definition zoomByWindow (x : Scale) (filteredData : list Event) (factor : Q)
           (anchorDate : option JS.Date) : Domain :=
  let '(d0, d1) := domain x in
  let center :=
    match anchorDate with
    | Some a => +' a
    | None => (+' d0 +' +' d1) /' JS.ofZ 2
    end in
  let span := (+' d1 -' +' d0) /' qnum factor in
  let newStart := JS.newDate (center -' span /' JS.ofZ 2) in
  let newEnd := JS.newDate (center +' span /' JS.ofZ 2) in
  (* Clamp to data extent (just like wheel handler) *)
  let dataExtent := d3_extent filteredData in
  let maxSpan := +' snd dataExtent -' +' fst dataExtent in
  let '(newStart, newEnd) :=
    if (+' newEnd -' +' newStart) >' maxSpan
    then (fst dataExtent, snd dataExtent)
    else (newStart, newEnd) in
  let '(newStart, newEnd) :=
    if +' newStart <' +' fst dataExtent
    then (fst dataExtent, JS.newDate (+' fst dataExtent +' span))
    else (newStart, newEnd) in
  let '(newStart, newEnd) :=
    if +' newEnd >' +' snd dataExtent
    then (JS.newDate (+' snd dataExtent -' span), snd dataExtent)
    else (newStart, newEnd) in
  (newStart, newEnd).

Definition zoomByRequest (currentXScale : option Scale)
           (filteredData : list Event) (factor : Q)
           (anchorDate : option JS.Date) : Request :=
  match currentXScale, filteredData with
  | None, _ | _, [] => Ignored
  | Some x, _ :: _ =>
      let '(newStart, newEnd) := zoomByWindow x filteredData factor anchorDate in
      if (+' newEnd -' +' newStart) <' JS.ofZ minZoomSpan then Ignored
      else Redraw newStart newEnd true
  end.

(** The filter pipeline of [updateChart] in [scripts/app.js]. *)
Section LegacyFilter.

Variable host : Host.
Variable rawData : list Event.
Variable selectedCats : StrSet.
Variables topicDropdown sourceDropdown : option Dropdown.
Variable onlyKeyEvents : bool.
Variable searchValue : string.

(** [selectedTopics.map(label => lookup.get(label) || label)] *)
Definition selectedTopics : list string :=
  match topicDropdown with
  | Some {| valueLookup := Some lookup |} =>
      map (fun label =>
             match Map_get lookup label with
             | Some v => if truthy v then v else label
             | None => label
             end) (getSelectedValues topicDropdown)
  | _ => getSelectedValues topicDropdown
  end.

Definition selectedSources : list string := getSelectedValues sourceDropdown.

Definition totalTopics : nat := optionCount topicDropdown.
Definition totalSources : nat := optionCount sourceDropdown.

Definition isAllTopicsSelected : bool :=
  (0 <? totalTopics)%nat && (List.length selectedTopics =? totalTopics)%nat.
Definition isAllSourcesSelected : bool :=
  (0 <? totalSources)%nat && (List.length selectedSources =? totalSources)%nat.

Definition catMatch (d : Event) : bool :=
  if (List.length (activeCats selectedCats) =? 0)%nat then false
  else if isMulti d then arr_includes (activeCats selectedCats) "multi"
  else existsb (arr_includes (activeCats selectedCats)) (categories d).

Definition topicMatch (d : Event) : bool :=
  let eventTopics := validTopics d in
  if (List.length selectedTopics =? 0)%nat then false
  else if isAllTopicsSelected then true
  else if (List.length eventTopics =? 0)%nat then false
  else existsb (arr_includes selectedTopics) eventTopics.

Definition sourceMatch (d : Event) : bool :=
  if (List.length selectedSources =? 0)%nat then false
  else if isAllSourcesSelected then true
  else if negb (truthy (displaySource d)) then false
  else arr_includes selectedSources (displaySource d).

Definition passes (d : Event) : bool :=
  catMatch d && keyOk selectedCats d && topicMatch d && sourceMatch d
  && keyMatch onlyKeyEvents d && searchMatch host searchValue d.

Definition filterRecords : list Event :=
  if (List.length (activeCats selectedCats) =? 0)%nat
     && negb (has selectedCats "key")
  then []
  else filter passes rawData.

End LegacyFilter.

End Legacy.


(** ** Values of Numbers *)

(** [Nval n q]: the Number [n] is not NaN and its value is [q]. *)
Inductive Nval : JS.Number -> Q -> Prop :=
| Nval_intro (q q' : Q) : (q == q')%Q -> Nval (Some q) q'.

(** ** Arithmetic views

    The same computations on plain [Z] and [Q], for windows and bounds whose
    dates are all valid; the facts below show that the embeddings above
    agree with them. *)

(** The window of [zoomBy] for a centre [c] and a proposed span [sp]. *)
Definition zoomWindowNum (c sp : Q) (lo hi : Z) : Z * Z :=
  let ns := JS.truncate (c - sp / 2) in
  let ne := JS.truncate (c + sp / 2) in
  let '(ns, ne) := if (hi - lo <? ne - ns)%Z then (lo, hi) else (ns, ne) in
  let '(ns, ne) :=
    if (ns <? lo)%Z then (lo, JS.truncate (inject_Z lo + sp)) else (ns, ne) in
  let '(ns, ne) :=
    if (hi <? ne)%Z then (JS.truncate (inject_Z hi - sp), hi) else (ns, ne) in
  (ns, ne).

(** The centre [zoomBy] uses. *)
Definition zoomCenter (d0 d1 : Z) (anchorDate : option Z) : Q :=
  match anchorDate with
  | Some a => inject_Z a
  | None => (inject_Z d0 + inject_Z d1) / 2
  end.

(** ** Selecting every option by hand *)

(** The indices, from [i] on, of the options that are off. *)
Fixpoint offIndices (i : nat) (opts : list (string * bool)) : list nat :=
  match opts with
  | [] => []
  | (_, on) :: rest =>
      if on then offIndices (S i) rest else i :: offIndices (S i) rest
  end.

(** Clicking, one after the other, every option that is off. *)
Definition selectEach (dd : Dropdown) : Dropdown :=
  fold_left (fun d i => toggleOption i d) (offIndices 0 (options dd)) dd.

(** The topic tokens [setupFilters] collects, and the labels it shows. *)
Definition topicTokens (rawData : list Event) : list string :=
  sortStrings (dedupe (filter truthy (flat_map validTopics rawData))).

Definition topicItems (host : Host) (rawData : list Event) : list string :=
  map (toTitleCase host) (topicTokens rawData).

(** The topic dropdown as [setupFilters] builds it, in whatever on/off state
    its options are. *)
Definition builtFrom (host : Host) (rawData : list Event) (dd : Dropdown) : Prop :=
  map fst (options dd) = topicItems host rawData
  /\ valueLookup dd = Some (combine (topicItems host rawData) (topicTokens rawData)).

(** ** What the label stacker guarantees *)

(** How many placed labels sit on row [lvl] or above. *)
Definition occupied (placedLabels : list Placed) (lvl : nat) : nat :=
  List.length (filter (fun l => (lvl <=? level l)%nat) placedLabels).


(** The padded extents of two placed labels meet. *)
Definition paddedOverlap (p q : Placed) : Prop :=
  (x1 q <= x2 p)%Q /\ (x1 p <= x2 q)%Q.

(** The unpadded extent of [later] lies strictly outside the padded extent
    of [earlier] whenever the two share a row. *)
Definition clearOf (earlier later : Placed) : Prop :=
  level earlier = level later ->
  (x2 later - labelPadding < x1 earlier)%Q
  \/ (x2 earlier < x1 later + labelPadding)%Q.

(** The events are in ascending date order. *)
Fixpoint dateSorted (events : list Event) : Prop :=
  match events with
  | [] => True
  | d :: rest => Forall (fun e => (date d <= date e)%Z) rest /\ dateSorted rest
  end.

(** What no redraw, filter change or gesture touches. *)
Definition sameData (st st' : State) : Prop :=
  rawData st' = rawData st /\ FULL_EXTENT st' = FULL_EXTENT st.

(** The zoom-out button. *)
Definition zoomOut (host : Host) (st : State) : State := zoomBy host st (4 # 5) None.

(** The domain of the current scale. *)
Definition currentDomain (st : State) : option Domain :=
  option_map domain (currentXScale st).

(** The circles on the page and the cached offsets of an array, with every
    fraction in lowest terms. *)
Definition shownCircles (st : State) : list (option Q * option Q) :=
  map (fun c => (option_map Qred (fst c), option_map Qred (snd c))) (dots st).

Definition cachedOffsets (data : list Event) : list (option (option Q)) :=
  map (fun d => option_map (option_map Qred) (xOffset d)) data.

(** * The rest of the script

    The functions around the four cores: the escaping used for the dropdown
    markup, the row function of the CSV load, the resize handler, the zoom
    audit, the pointer session of [enableTouchZoomPan], the marking of
    clicked dots and the guided tour. *)

(** ** Escaping *)

(** [s.replace(/c/g, r)] for a pattern of one character. *)
Fixpoint replaceAll (c : ascii) (r s : string) : string :=
  match s with
  | EmptyString => EmptyString
  | String a rest =>
      if Ascii.eqb a c then (r ++ replaceAll c r rest)%string
      else String a (replaceAll c r rest)
  end.

(** The double quote. *)
Definition dquote : ascii := ascii_of_nat 34.

(** [escapeHtml(s)]: the five replacements, in the order of the source. *)
Definition escapeHtml (s : string) : string :=
  replaceAll "'"%char "&#039;"
    (replaceAll dquote "&quot;"
       (replaceAll ">"%char "&gt;"
          (replaceAll "<"%char "&lt;"
             (replaceAll "&"%char "&amp;" s)))).

(** ** The row function of the CSV load *)

(** A row as [d3.csv] hands it to the row function: one string per column,
    [None] for a column the sheet does not have. *)
Record CsvRow : Type := mkCsvRow {
  col_Date : option string;
  col_Display_Date : option string;
  col_Event : option string;
  col_Source_Notes : option string;
  col_Source : option string;
  col_Source_URL : option string;
  col_Category : option string;
  col_Topic : option string;
  col_Key_Event : option string
}.

(** "bad" topic tokens to filter out of topic lists. *)
Definition BAD_TOPICS : StrSet := ["na"; "n/a"; "none"; ""; "unspecified"; "-"; "null"].

(** [v || ""] *)
Definition orEmpty (v : option string) : string :=
  match v with
  | Some s => s
  | None => ""
  end.

(** [v || fallback] for a string: [undefined] and the empty string are
    falsy. *)
Definition orElse (v : option string) (fallback : string) : string :=
  match v with
  | Some s => if truthy s then s else fallback
  | None => fallback
  end.

(** [s.split(sep)] for a separator of one character: the pieces between
    the separators, one piece more than there are separators. *)
Fixpoint splitOn (sep : ascii) (s : string) : list string :=
  match s with
  | EmptyString => [EmptyString]
  | String c rest =>
      if Ascii.eqb c sep then EmptyString :: splitOn sep rest
      else
        match splitOn sep rest with
        | piece :: pieces => String c piece :: pieces
        | [] => [String c EmptyString]
        end
  end.

Section Ingest.

Variable host : Host.
(** [new Date(d.Date)] on the text of the Date column. *)
Variable parseDate : option string -> JS.Date.

(** [(v || "").split(",").map(s => s.trim()).filter(Boolean)] *)
Definition splitTrim (v : option string) : list string :=
  filter truthy (map (trim host) (splitOn ","%char (orEmpty v))).

(** [v ? String(v).trim() : ""] *)
Definition trimmedOrEmpty (v : option string) : string :=
  match v with
  | Some s => if truthy s then trim host s else ""
  | None => ""
  end.

(** The row function passed to [d3.csv]; [None] is its [null], for a row
    whose date does not parse. *)
Definition parseRow (d : CsvRow) : option Event :=
  match parseDate (col_Date d) with
  | None => None
  | Some parsedDate =>
      let displayCategories := splitTrim (col_Category d) in
      let displayTopics := splitTrim (col_Topic d) in
      let categories := map (toLowerCase host) displayCategories in
      let topicsNorm :=
        map (fun t => toLowerCase host (trim host t)) displayTopics in
      let displaySource := trim host (orEmpty (col_Source d)) in
      Some (mkEvent parsedDate
                    (trimmedOrEmpty (col_Display_Date d))
                    (orElse (col_Event d) "(No event name)")
                    (orEmpty (col_Source_Notes d))
                    displaySource
                    (trimmedOrEmpty (col_Source_URL d))
                    categories
                    (toLowerCase host (trim host (orEmpty (col_Category d))))
                    topicsNorm
                    (filter (fun t => negb (has BAD_TOPICS t)) topicsNorm)
                    displayCategories
                    displayTopics
                    (toLowerCase host (orEmpty (col_Key_Event d)) =? "true")%string
                    None None None None None)
  end.

(** The rows [d3.csv] resolves with: those the row function did not answer
    with [null]. *)
Definition parseRows (rows : list CsvRow) : list Event :=
  flat_map (fun d => match parseRow d with Some e => [e] | None => [] end) rows.

End Ingest.

(** ** Resize and the zoom audit *)

Definition with_width (st : State) (w : Q) : State :=
  mkState (rawData st) (filteredData st) (keyEvents st) (currentXScale st)
          (FULL_EXTENT st) (selectedCats st) w (DOT_CENTER_Y st)
          (didInitialFit st) (topicDropdown st) (sourceDropdown st)
          (keyEventFilter st) (searchValue st) (boundData st) (dots st)
          (annotations st).

(** [Math.max(320, (container.clientWidth || 0) - 40)] *)
Definition chartWidth (clientWidth : Z) : Q := Qmax 320 (inject_Z clientWidth - 40)%Q.

(** [resizeChart()]; [container] is the [clientWidth] of [#container],
    [None] when the element is missing.  The handler is installed by
    [init] after [svg] has been set. *)
Definition resizeChart (host : Host) (st : State) (container : option Z) : State :=
  match container with
  | None => st
  | Some clientWidth => updateChart host (with_width st (chartWidth clientWidth))
  end.

(** [auditZoomClipping()]: the filtered rows outside the current domain;
    [None] is the return without a value when there is no scale yet. *)
Definition auditZoomClipping (st : State) : option (list Event) :=
  match currentXScale st with
  | None => None
  | Some x =>
      let '(d0, d1) := domain x in
      Some (filter (fun d => (+' Some (date d) <' +' d0) || (+' Some (date d) >' +' d1))
                   (filteredData st))
  end.

(** ** The pointer session of [enableTouchZoomPan] *)

Record PointerEvent : Type := mkPointerEvent {
  pointerId : Z;
  clientX : Q;
  clientY : Q
}.

(** The variables the three handlers close over.  [active] is the [Map]
    from pointer id to position, in insertion order. *)
Record Session : Type := mkSession {
  active : list (Z * (Q * Q));
  baseDomain : option (JS.Number * JS.Number);
  panLastX : option Q;
  pinchStartDist : option Q;
  pinchStartMidX : option Q
}.

Definition newSession : Session := mkSession [] None None None None.

(** [active.set(id, p)]: a known key keeps its place. *)
Fixpoint active_set (id : Z) (p : Q * Q) (m : list (Z * (Q * Q)))
  : list (Z * (Q * Q)) :=
  match m with
  | [] => [(id, p)]
  | (k, v) :: rest =>
      if (k =? id)%Z then (k, p) :: rest else (k, v) :: active_set id p rest
  end.

Definition active_has (id : Z) (m : list (Z * (Q * Q))) : bool :=
  existsb (fun kv => (fst kv =? id)%Z) m.

Definition active_delete (id : Z) (m : list (Z * (Q * Q))) : list (Z * (Q * Q)) :=
  filter (fun kv => negb (fst kv =? id)%Z) m.

Section PointerSession.

Variable host : Host.
(** [Math.hypot] *)
Variable hypot : Q -> Q -> Q.

(** [x.domain().map(d => +d)] *)
Definition domainSnapshot (x : Scale) : JS.Number * JS.Number :=
  (+' fst (domain x), +' snd (domain x)).

(** [onPointerDown]; the handlers are installed by a [drawChart] that has
    drawn, so there is a scale. *)
Definition onPointerDown (s : Session) (st : State) (e : PointerEvent) : Session :=
  match currentXScale st with
  | None => s
  | Some x =>
      let active := active_set (pointerId e) (clientX e, clientY e) (active s) in
      match active with
      | [_] =>
          (* 1 finger: start pan *)
          mkSession active (Some (domainSnapshot x)) (Some (clientX e))
                    (pinchStartDist s) (pinchStartMidX s)
      | [(_, p0); (_, p1)] =>
          (* 2 fingers: start pinch *)
          mkSession active (Some (domainSnapshot x)) (panLastX s)
                    (Some (hypot (fst p0 - fst p1) (snd p0 - snd p1))%Q)
                    (Some ((fst p0 + fst p1) / 2)%Q)
      | _ =>
          mkSession active (baseDomain s) (panLastX s) (pinchStartDist s)
                    (pinchStartMidX s)
      end
  end.

(** [onPointerMove]; [bboxLeft] is [svg.node().getBoundingClientRect().left]
    at the time of the event. *)
Definition onPointerMove (s : Session) (st : State) (e : PointerEvent)
           (bboxLeft : Q) : Session * State :=
  match currentXScale st with
  | None => (s, st)
  | Some _ =>
      if negb (active_has (pointerId e) (active s)) then (s, st)
      else
        let active := active_set (pointerId e) (clientX e, clientY e) (active s) in
        let s := mkSession active (baseDomain s) (panLastX s) (pinchStartDist s)
                           (pinchStartMidX s) in
        match active, pinchStartDist s, panLastX s with
        | [(_, p0); (_, p1)], Some startDist, _ =>
            if Qeq_bool startDist 0 then (s, st)
            else
              (* 2-finger pinch zoom *)
              let dist := hypot (fst p0 - fst p1)%Q (snd p0 - snd p1)%Q in
              if Qle_bool dist 0 then (s, st)
              else
                let k := (startDist / dist)%Q in        (* >1 means zoom out *)
                match baseDomain s with
                | None => (s, st)                        (* TypeError *)
                | Some base =>
                    let midClientX := ((fst p0 + fst p1) / 2)%Q in
                    let localX := (midClientX - bboxLeft)%Q in
                    (s, pinch host st base k localX)
                end
        | [_], _, Some lastX =>
            (* 1-finger pan *)
            let dxPx := (clientX e - lastX)%Q in
            (mkSession active (baseDomain s) (Some (clientX e)) (pinchStartDist s)
                       (pinchStartMidX s),
             touchPan host st dxPx)
        | _, _, _ => (s, st)
        end
  end.

(** [onPointerUp], also bound to [pointercancel] and [pointerleave]. *)
Definition onPointerUp (s : Session) (st : State) (e : PointerEvent) : Session :=
  match currentXScale st with
  | None => s
  | Some _ =>
      let active := active_delete (pointerId e) (active s) in
      let '(dist, mid) :=
        if (List.length active <? 2)%nat then (None, None)
        else (pinchStartDist s, pinchStartMidX s) in
      let '(lastX, base) :=
        if (List.length active =? 0)%nat then (None, None)
        else (panLastX s, baseDomain s) in
      mkSession active base lastX dist mid
  end.

Inductive PointerAction : Type :=
| PointerDown (e : PointerEvent)
| PointerMove (e : PointerEvent) (bboxLeft : Q)
| PointerUp (e : PointerEvent).

Definition pointerStep (sst : Session * State) (a : PointerAction) : Session * State :=
  let '(s, st) := sst in
  match a with
  | PointerDown e => (onPointerDown s st e, st)
  | PointerMove e bboxLeft => onPointerMove s st e bboxLeft
  | PointerUp e => (onPointerUp s st e, st)
  end.

(** A run of pointer events on the handlers one [drawChart] installed. *)
Definition pointerRun (st : State) (actions : list PointerAction) : Session * State :=
  fold_left pointerStep actions (newSession, st).

End PointerSession.

(** ** Marking clicked dots

    [lastClicked] and the [viewed] flags live on the row objects, which all
    the arrays share; a row is named here by its index in [rawData]. *)

Record Marks : Type := mkMarks {
  lastClicked : option nat;
  viewedOf : nat -> option bool         (* d.viewed, [None] for [undefined] *)
}.

(** Before the first draw: no dot clicked, no flag set. *)
Definition newMarks : Marks := mkMarks None (fun _ => None).

Definition setFlag (i : nat) (v : option bool) (flags : nat -> option bool)
  : nat -> option bool :=
  fun j => if (j =? i)%nat then v else flags j.

(** [data.forEach(d => { if (d.viewed === undefined) d.viewed = false; })]
    in [drawChart], for the rows of [data]. *)
Definition initViewed (m : Marks) (data : list nat) : Marks :=
  fold_left
    (fun m i =>
       match viewedOf m i with
       | None => mkMarks (lastClicked m) (setFlag i (Some false) (viewedOf m))
       | Some _ => m
       end)
    data m.

(** The click handler of a dot, and of the label of a key event for the dot
    it matches, up to the styling:
    [if (lastClicked && lastClicked !== d) lastClicked.viewed = true;
     lastClicked = d;] *)
Definition clickDot (m : Marks) (d : nat) : Marks :=
  mkMarks (Some d)
          match lastClicked m with
          | Some l => if (l =? d)%nat then viewedOf m
                      else setFlag l (Some true) (viewedOf m)
          | None => viewedOf m
          end.

(** The opacity the click handlers give the circle of row [c]:
    [c === lastClicked ? 1 : c.viewed ? 0.4 : 0.8] *)
Definition dotOpacity (m : Marks) (c : nat) : Q :=
  let dimmed :=
    match viewedOf m c with Some true => (4 # 10)%Q | _ => (8 # 10)%Q end in
  match lastClicked m with
  | Some l => if (c =? l)%nat then 1%Q else dimmed
  | None => dimmed
  end.

(** What happens to the marks: a draw of some rows, or a click on one. *)
Inductive MarkAction : Type :=
| Drawn (data : list nat)
| Clicked (d : nat).

Definition markStep (m : Marks) (a : MarkAction) : Marks :=
  match a with
  | Drawn data => initViewed m data
  | Clicked d => clickDot m d
  end.

(** The rows clicked, in order. *)
Definition clicksOf (actions : list MarkAction) : list nat :=
  flat_map (fun a => match a with Clicked d => [d] | Drawn _ => [] end) actions.

(** ** The guided tour *)

Record TourStep : Type := mkTourStep {
  title : string;
  text : string;
  target : string
}.

(** Ordered steps shown by the tour *)
Definition TOUR_STEPS : list TourStep :=
  [ mkTourStep "Scroll to zoom in"
               "Scroll over the timeline with your mouse to zoom in and out."
               "#chart";
    mkTourStep "Click for additional information"
               "Click on a dot to highlight the event and find additional details in the side panel."
               ".dots circle, #chart";
    mkTourStep "Filter by topic"
               "Use the Topic filter to select or deselect events."
               "#topicDropdownBtn";
    mkTourStep "Filter by source"
               "Use the Source filter to select or deselect events based on their source."
               "#sourceDropdownBtn";
    mkTourStep "Search"
               "Type here to quickly search the data."
               "#search";
    mkTourStep "Legend"
               "Toggle categories and key events on and off by clicking items in the legend."
               "svg .legend";
    mkTourStep "Annotations"
               "Key events are labeled below the axis. Click a label to jump to that event."
               "svg .annotation-boxes, #chart" ].

(** The tour's variables and what it shows: the mask, and the step the
    spotlight and the popover are displayed for. *)
Record Tour : Type := mkTour {
  TOUR_STARTED : bool;
  tourIndex : nat;
  maskShown : bool;
  shownStep : option nat
}.

Definition newTour : Tour := mkTour false 0 false None.

(** [endTour()] *)
Definition endTour (t : Tour) : Tour :=
  mkTour (TOUR_STARTED t) (tourIndex t) false None.

Section TourSteps.

(** Whether a target of step [i] is found on the page: one of the
    comma-separated parts of its selector resolves within the polling of
    [waitForEl].  Each call is taken to finish before the next click. *)
Variable found : nat -> bool.

(** [showTourStep(tourIndex)] with the [tourNext()] it calls when no target
    is found; [fuel] bounds the steps that can be skipped. *)
Fixpoint showTourStep (fuel : nat) (t : Tour) : Tour :=
  if found (tourIndex t) then
    mkTour (TOUR_STARTED t) (tourIndex t) (maskShown t) (Some (tourIndex t))
  else
    (* If no target can be found, skip this step: tourNext() *)
    if (tourIndex t <? List.length TOUR_STEPS - 1)%nat then
      match fuel with
      | O => t
      | S fuel' =>
          showTourStep fuel'
            (mkTour (TOUR_STARTED t) (S (tourIndex t)) (maskShown t) (shownStep t))
      end
    else endTour t.

(** [tourNext()] *)
Definition tourNext (t : Tour) : Tour :=
  if (tourIndex t <? List.length TOUR_STEPS - 1)%nat then
    showTourStep (List.length TOUR_STEPS)
      (mkTour (TOUR_STARTED t) (S (tourIndex t)) (maskShown t) (shownStep t))
  else endTour t.

(** [tourPrev()] *)
Definition tourPrev (t : Tour) : Tour :=
  if (0 <? tourIndex t)%nat then
    showTourStep (List.length TOUR_STEPS)
      (mkTour (TOUR_STARTED t) (tourIndex t - 1) (maskShown t) (shownStep t))
  else t.

(** [startTour()] *)
Definition startTour (t : Tour) : Tour :=
  if TOUR_STARTED t then t
  else showTourStep (List.length TOUR_STEPS) (mkTour true 0 true (shownStep t)).

(** The click on [#helpTourBtn]. *)
Definition helpTour (t : Tour) : Tour :=
  startTour (mkTour false (tourIndex t) (maskShown t) (shownStep t)).

End TourSteps.

(** What the user can do to the tour, with the targets found at that
    time. *)
Inductive TourAction : Type :=
| TourStart
| TourHelp
| TourNext
| TourBack
| TourSkip.

Definition tourStep (t : Tour) (a : TourAction * (nat -> bool)) : Tour :=
  let '(action, found) := a in
  match action with
  | TourStart => startTour found t
  | TourHelp => helpTour found t
  | TourNext => tourNext found t
  | TourBack => tourPrev found t
  | TourSkip => endTour t
  end.

(** *** The frame of the spotlight and the place of the popover *)

Section TourFrame.

Local Open Scope Q_scope.

(** [window.innerWidth], [window.innerHeight] *)
Variables innerWidth innerHeight : Q.

(** The spotlight: [(sLeft, sTop, sW, sH)] from the target's rectangle. *)
Definition spotlightFrame (rectLeft rectTop rectWidth rectHeight : Q)
  : Q * Q * Q * Q :=
  let pad := 8 in
  let sLeft := Qmax 8 (rectLeft - pad) in
  let sTop := Qmax 8 (rectTop - pad) in
  let sW := Qmin (innerWidth - sLeft - 8) (rectWidth + pad * 2) in
  let sH := Qmin (innerHeight - sTop - 8) (rectHeight + pad * 2) in
  (sLeft, sTop, sW, sH).

(** The popover: [(popLeft, popTop)] from the spotlight and the popover's
    own size. *)
Definition popoverPlace (sLeft sTop sH popWidth popHeight : Q) : Q * Q :=
  let belowTop := sTop + sH + 10 in
  let aboveTop := sTop - popHeight - 10 in
  let popLeft := sLeft in
  (* Keep popover inside viewport horizontally. *)
  let popLeft :=
    if JS.Qltb (innerWidth - 10) (popLeft + popWidth)
    then innerWidth - popWidth - 10 else popLeft in
  let popLeft := if JS.Qltb popLeft 10 then 10 else popLeft in
  (* Choose vertical position (below unless it would overflow). *)
  let popTop :=
    if JS.Qltb innerHeight (belowTop + popHeight + 10)
    then Qmax 10 aboveTop else belowTop in
  (popLeft, popTop).

End TourFrame.

(** ** Views used in the proofs *)

(** What [escapeHtml] makes of one character. *)
Definition entityOf (a : ascii) : string :=
  if Ascii.eqb a "&"%char then "&amp;"
  else if Ascii.eqb a "<"%char then "&lt;"
  else if Ascii.eqb a ">"%char then "&gt;"
  else if Ascii.eqb a dquote then "&quot;"
  else if Ascii.eqb a "'"%char then "&#039;"
  else String a EmptyString.

(** Reading the five entities back, as the HTML parser does with the
    markup [buildSelectableList] assigns to [innerHTML]. *)
Fixpoint unescapeHtml (s : string) : string :=
  match s with
  | EmptyString => EmptyString
  | String "&" (String "a" (String "m" (String "p" (String ";" rest)))) =>
      String "&" (unescapeHtml rest)
  | String "&" (String "l" (String "t" (String ";" rest))) =>
      String "<" (unescapeHtml rest)
  | String "&" (String "g" (String "t" (String ";" rest))) =>
      String ">" (unescapeHtml rest)
  | String "&" (String "q" (String "u" (String "o" (String "t" (String ";" rest))))) =>
      String dquote (unescapeHtml rest)
  | String "&" (String "#" (String "0" (String "3" (String "9" (String ";" rest))))) =>
      String "'" (unescapeHtml rest)
  | String a rest => String a (unescapeHtml rest)
  end.

(** The source names [setupFilters] collects. *)
Definition sourceItems (rawData : list Event) : list string :=
  sortStrings (dedupe (filter truthy (map displaySource rawData))).

(** What holds of the pointer session between any two events. *)
Definition sessionOk (s : Session) : Prop :=
  (active s = [] -> s = newSession)
  /\ (active s <> [] -> baseDomain s <> None /\ panLastX s <> None)
  /\ (pinchStartDist s <> None -> (2 <= List.length (active s))%nat).

(** What holds of the tour between any two clicks: the index names a step,
    and the popover, when displayed, shows the step of the index. *)
Definition tourOk (t : Tour) : Prop :=
  (tourIndex t < List.length TOUR_STEPS)%nat
  /\ (shownStep t = None \/ shownStep t = Some (tourIndex t)).

(** * Sample engines, hosts and pages

    Concrete values at which the facts below are evaluated. *)

(** Two engines to evaluate with: one whose [Date.parse] rejects the
    concatenated text, and one whose lenient parser reads the leading date
    back and ignores the trailing digits. *)
Definition rejectingEngine (d : JS.Date) (n : JS.Number) : JS.Date := None.
Definition lenientEngine (d : JS.Date) (n : JS.Number) : JS.Date := d.

(** What [new Date(min + span)] gives when [min] is itself a Number: the
    sum.  This is [clampDomain] called with its bounds as time values, the
    way [zoomBy] holds them. *)
Definition numericBounds (d : JS.Date) (n : JS.Number) : JS.Date :=
  JS.newDate (+' d +' n).


(** A host whose simulation puts every node on its targets and leaves it
    there, and whose string functions are the identity. *)
Definition stillHost : Host :=
  mkHost (fun s => s) (fun s => s) (fun s => s) rejectingEngine
         (list (JS.Number * JS.Number))
         (fun forces _ => map (fun fx => (fx, Some (forceY forces))) (forceX forces))
         (fun sim => sim)
         (fun sim => sim).

(** A parsed row. *)
Definition row (t : Z) (title : string) (cats topicTokens : list string)
           (source : string) (key : bool) : Event :=
  mkEvent t "" title "" source "" cats (String.concat "," cats) topicTokens
          topicTokens cats topicTokens key None None None None None.

(** The page before the CSV has loaded: both dropdown elements, the key-only
    checkbox and the search box are there, every legend entry is on, and the
    chart is 1080 wide. *)
Definition blankPage : State :=
  mkState [] [] [] None None ["biological"; "chemical"; "multi"; "key"]
          1080 168 false
          (Some (mkDropdown [] None)) (Some (mkDropdown [] None)) false ""
          [] [] [].

(** Two rows a hundred days apart. *)
Definition twoRows : list Event :=
  [ row 0 "first" ["chemical"] ["sarin"] "archive" false;
    row (100 * day) "second" ["biological"] [] "press" true ].

Definition twoRowsPage : State := load stillHost blankPage twoRows.

Definition allCats : StrSet := ["biological"; "chemical"; "multi"; "key"].

(** The topic dropdown [setupFilters] builds for [twoRows], with its one
    option switched off. *)
Definition sarinDropdown : Dropdown :=
  mkDropdown [("sarin", false)] (Some [("sarin", "sarin")]).

Definition secondRow : Event :=
  row (100 * day) "second" ["biological"] [] "press" true.

(** Two key events 75 days apart with titles of ten characters, on a chart
    1080 wide that shows 1000 days. *)
Definition thousandDays : Scale :=
  mkScale (Some 0, Some (1000 * day)) (40%Q, 1040%Q).

Definition closeKeyEvents : list Event :=
  [ row (100 * day) "aaaaaaaaaa" ["chemical"] [] "" true;
    row (175 * day) "bbbbbbbbbb" ["chemical"] [] "" true ].

(** Four rows over a hundred days; the two chemical ones are five days
    apart. *)
Definition fourRows : list Event :=
  [ row 0 "first" ["biological"] [] "archive" false;
    row (50 * day) "second" ["chemical"] ["sarin"] "archive" false;
    row (55 * day) "third" ["chemical"] ["sarin"] "press" false;
    row (100 * day) "fourth" ["biological"] [] "press" false ].

(** The page after the load of [fourRows] and a click on "Biological" in the
    legend, which leaves the two chemical rows. *)
Definition chemicalOnlyPage : State :=
  control stillHost (load stillHost blankPage fourRows) (LegendClick "biological").

(** A chart that shows a hundred days, for the handlers of [scripts/app.js]. *)
Definition hundredDays : Scale :=
  mkScale (Some 0, Some (100 * day)) (40%Q, 1040%Q).

Definition midRows : list Event :=
  [ row (40 * day) "a" ["chemical"] [] "" false;
    row (60 * day) "b" ["chemical"] [] "" false ].

(** Four rows over a hundred days; the two chemical ones are fifty days
    apart.  After a click on "Biological" the chart shows those fifty
    days. *)
Definition spreadRows : list Event :=
  [ row 0 "first" ["biological"] [] "archive" false;
    row (20 * day) "second" ["chemical"] ["sarin"] "archive" false;
    row (70 * day) "third" ["chemical"] ["sarin"] "press" false;
    row (100 * day) "fourth" ["biological"] [] "press" false ].

Definition chemicalSpreadPage : State :=
  control stillHost (load stillHost blankPage spreadRows) (LegendClick "biological").

(** Two rows one millisecond more than [MIN_SPAN_MS] apart. *)
Definition oddRows : list Event :=
  [ row 1000 "first" ["chemical"] [] "" false;
    row (1000 + MIN_SPAN_MS + 1) "second" ["chemical"] [] "" false ].

Definition oddPage : State := load stillHost blankPage oddRows.

(** The micro sign (U+00B5), the Greek small mu (U+03BC) and the Greek
    capital mu (U+039C), two bytes each in UTF-8. *)
Definition microSign : string :=
  String (ascii_of_nat 194) (String (ascii_of_nat 181) EmptyString).
Definition smallMu : string :=
  String (ascii_of_nat 206) (String (ascii_of_nat 188) EmptyString).
Definition capitalMu : string :=
  String (ascii_of_nat 206) (String (ascii_of_nat 156) EmptyString).

(** Two topics that look alike, one typed with the micro sign and one with
    the Greek letter, and the label [toTitleCase] gives both.  The [\b] of
    its pattern is a boundary of ASCII word characters: [dose] is followed
    by an underscore, so it is not matched and keeps its lower case, and the
    one word the pattern finds is the two letters after the underscore,
    whose first is put in upper case; the micro sign and the small mu both
    have the capital mu as their upper case. *)
Definition microTopic : string := "dose_" ++ microSign ++ "g".
Definition muTopic : string := "dose_" ++ smallMu ++ "g".
Definition muLabel : string := "dose_" ++ capitalMu ++ "g".

(** A host whose [toTitleCase] is the script's on those two topics. *)
Definition mergingHost : Host :=
  mkHost (fun s => s) (fun s => s)
         (fun s => if (s =? microTopic)%string || (s =? muTopic)%string then muLabel else s)
         rejectingEngine
         (list (JS.Number * JS.Number))
         (fun forces _ => map (fun fx => (fx, Some (forceY forces))) (forceX forces))
         (fun sim => sim)
         (fun sim => sim).

(** A row for each of the two topics and a row without topic. *)
Definition taggedRows : list Event :=
  [ row 0 "first" ["chemical"] [microTopic] "archive" false;
    row (50 * day) "second" ["chemical"] [muTopic] "archive" false;
    row (100 * day) "third" ["chemical"] [] "archive" false ].

(** A host whose simulation leaves every node 5 pixels to the right of its
    target and 2 pixels below the centre line. *)
Definition nudgingHost : Host :=
  mkHost (fun s => s) (fun s => s) (fun s => s) rejectingEngine
         (list (JS.Number * JS.Number))
         (fun forces _ =>
            map (fun fx => (fx +' qnum 5, Some (forceY forces + 2)%Q)) (forceX forces))
         (fun sim => sim)
         (fun sim => sim).

(** [chemicalOnlyPage] on that host: the chart shows the five days between
    the two chemical rows. *)
Definition nudgedPage : State :=
  control nudgingHost (load nudgingHost blankPage fourRows) (LegendClick "biological").


(** A sheet of three rows: one with a placeholder among its topics, one
    whose date cannot be read, one without topics. *)
Definition sampleSheet : list CsvRow :=
  [ mkCsvRow (Some "1995-03-20") None (Some "first") None (Some "archive") None
             (Some "chemical") (Some "sarin,n/a") (Some "true");
    mkCsvRow (Some "soon") None (Some "second") None None None
             (Some "chemical") (Some "vx") None;
    mkCsvRow (Some "2001-10-04") None (Some "third") None (Some "press") None
             (Some "biological") None None ].

(** A reader of dates that knows the two dates of [sampleSheet]. *)
Definition sampleDates (text : option string) : JS.Date :=
  match text with
  | Some "1995-03-20" => Some 795657600000
  | Some "2001-10-04" => Some 1002153600000
  | _ => None
  end.

(** * Facts *)

Local Close Scope string_scope.
Local Open Scope Q_scope.

Create HintDb jsnum.

(** ** Numbers *)

#[export] Hint Constructors Nval : jsnum.

Lemma Nval_ofZ (z : Z) : Nval (JS.ofZ z) (inject_Z z).
Proof. constructor. reflexivity. Qed.

Lemma Nval_valueOf (z : Z) : Nval (+' Some z) (inject_Z z).
Proof. constructor. reflexivity. Qed.

Lemma Nval_qnum (q : Q) : Nval (qnum q) q.
Proof. constructor. reflexivity. Qed.

Lemma Nval_eq (n : JS.Number) (q q' : Q) : Nval n q -> q == q' -> Nval n q'.
Proof. intros [a b H] E. constructor. now rewrite H. Qed.

Lemma Nval_add a b qa qb : Nval a qa -> Nval b qb -> Nval (a +' b) (qa + qb).
Proof. intros [? ? Ha] [? ? Hb]. constructor. now rewrite Ha, Hb. Qed.

Lemma Nval_sub a b qa qb : Nval a qa -> Nval b qb -> Nval (a -' b) (qa - qb).
Proof. intros [? ? Ha] [? ? Hb]. constructor. now rewrite Ha, Hb. Qed.

Lemma Nval_mul a b qa qb : Nval a qa -> Nval b qb -> Nval (a *' b) (qa * qb).
Proof. intros [? ? Ha] [? ? Hb]. constructor. now rewrite Ha, Hb. Qed.

Lemma Nval_div a b qa qb :
  Nval a qa -> Nval b qb -> ~ qb == 0 -> Nval (a /' b) (qa / qb).
Proof.
  intros [x ? Ha] [y ? Hb] Hnz. unfold JS.div.
  destruct (Qeq_bool y 0) eqn:E.
  - apply Qeq_bool_iff in E. rewrite Hb in E. contradiction.
  - constructor. now rewrite Ha, Hb.
Qed.

Lemma Qltb_lt (a b : Q) : JS.Qltb a b = true <-> a < b.
Proof.
  unfold JS.Qltb. rewrite negb_true_iff. split.
  - intros H. apply Qnot_le_lt. intros Hle. apply Qle_bool_iff in Hle. congruence.
  - intros H. destruct (Qle_bool b a) eqn:E; [|reflexivity].
    apply Qle_bool_iff in E. exfalso. exact (Qlt_not_le _ _ H E).
Qed.

Lemma Qltb_ge (a b : Q) : JS.Qltb a b = false <-> b <= a.
Proof.
  unfold JS.Qltb. rewrite negb_false_iff. apply Qle_bool_iff.
Qed.

Lemma Qle_bool_gt (a b : Q) : Qle_bool a b = false <-> b < a.
Proof.
  split.
  - intros H. apply Qnot_le_lt. intros Hle. apply Qle_bool_iff in Hle. congruence.
  - intros H. destruct (Qle_bool a b) eqn:E; [|reflexivity].
    apply Qle_bool_iff in E. exfalso. exact (Qlt_not_le _ _ H E).
Qed.

Lemma Nval_lt a b qa qb : Nval a qa -> Nval b qb -> (a <' b) = JS.Qltb qa qb.
Proof.
  intros [x ? Ha] [y ? Hb]. unfold JS.lt, JS.cmp, JS.Qltb. now rewrite Ha, Hb.
Qed.

Lemma Nval_gt a b qa qb : Nval a qa -> Nval b qb -> (a >' b) = JS.Qltb qb qa.
Proof. intros Ha Hb. unfold JS.gt. now apply Nval_lt. Qed.

Lemma Nval_le a b qa qb : Nval a qa -> Nval b qb -> (a <=' b) = Qle_bool qa qb.
Proof.
  intros [x ? Ha] [y ? Hb]. unfold JS.le, JS.cmp. now rewrite Ha, Hb.
Qed.

Lemma Nval_ge a b qa qb : Nval a qa -> Nval b qb -> (a >=' b) = Qle_bool qb qa.
Proof. intros Ha Hb. unfold JS.ge. now apply Nval_le. Qed.

Lemma Nval_eqb a b qa qb : Nval a qa -> Nval b qb -> JS.eq a b = Qeq_bool qa qb.
Proof.
  intros [x ? Ha] [y ? Hb]. unfold JS.eq, JS.cmp. now rewrite Ha, Hb.
Qed.

(** *** Truncation towards zero *)

#[export] Instance truncate_comp : Proper (Qeq ==> eq) JS.truncate.
Proof.
  intros a b H. unfold JS.truncate. rewrite H.
  destruct (Qle_bool 0 b); now rewrite H.
Qed.

Lemma truncate_Z (z : Z) : JS.truncate (inject_Z z) = z.
Proof.
  unfold JS.truncate. destruct (Qle_bool 0 (inject_Z z)).
  - apply Qfloor_Z.
  - apply Qceiling_Z.
Qed.

Lemma truncate_mono (a b : Q) : a <= b -> (JS.truncate a <= JS.truncate b)%Z.
Proof.
  intros H. unfold JS.truncate.
  destruct (Qle_bool 0 a) eqn:Ea, (Qle_bool 0 b) eqn:Eb.
  - now apply Qfloor_resp_le.
  - apply Qle_bool_iff in Ea. apply Qle_bool_gt in Eb. exfalso.
    apply (Qlt_not_le _ _ Eb). now apply Qle_trans with a.
  - apply Z.le_trans with (Qfloor b); [|apply Z.le_refl].
    apply Z.le_trans with (Qceiling 0).
    + apply Qceiling_resp_le. apply Qlt_le_weak. now apply Qle_bool_gt.
    + change (Qceiling 0) with (Qfloor 0). apply Qfloor_resp_le.
      now apply Qle_bool_iff.
  - now apply Qceiling_resp_le.
Qed.

Lemma truncate_lower (q : Q) : inject_Z (JS.truncate q) - 1 < q.
Proof.
  unfold JS.truncate. destruct (Qle_bool 0 q).
  - pose proof (Qfloor_le q). lra.
  - pose proof (Qceiling_lt q) as H. unfold Z.sub in H.
    rewrite inject_Z_plus, inject_Z_opp in H.
    change (inject_Z 1) with 1 in H. lra.
Qed.

Lemma truncate_upper (q : Q) : q < inject_Z (JS.truncate q) + 1.
Proof.
  unfold JS.truncate. destruct (Qle_bool 0 q).
  - pose proof (Qlt_floor q) as H. rewrite inject_Z_plus in H.
    change (inject_Z 1) with 1 in H. lra.
  - pose proof (Qle_ceiling q). lra.
Qed.

Lemma newDate_Nval (n : JS.Number) (q : Q) :
  Nval n q -> JS.newDate n = Some (JS.truncate q).
Proof. intros [a b H]. simpl. now rewrite H. Qed.

Lemma newDate_inRange (q : Q) : JS.inRange q -> JS.newDate (Some q) = JS.timeClip q.
Proof.
  intros H. unfold JS.timeClip. apply Qle_bool_iff in H. now rewrite H.
Qed.

Lemma newDate_Z (n : JS.Number) (z : Z) :
  Nval n (inject_Z z) -> JS.newDate n = Some z.
Proof. intros H. rewrite (newDate_Nval _ _ H). now rewrite truncate_Z. Qed.

(** Moving between [Z] and [Q] comparisons. *)
Lemma Qltb_Z (a b : Z) : JS.Qltb (inject_Z a) (inject_Z b) = (a <? b)%Z.
Proof.
  destruct (a <? b)%Z eqn:E.
  - apply Qltb_lt. rewrite <- Zlt_Qlt. now apply Z.ltb_lt.
  - apply Qltb_ge. rewrite <- Zle_Qle. now apply Z.ltb_ge.
Qed.

Lemma Qle_bool_Z (a b : Z) : Qle_bool (inject_Z a) (inject_Z b) = (a <=? b)%Z.
Proof.
  destruct (a <=? b)%Z eqn:E.
  - apply Qle_bool_iff. rewrite <- Zle_Qle. now apply Z.leb_le.
  - apply Qle_bool_gt. rewrite <- Zlt_Qlt. now apply Z.leb_gt.
Qed.

Lemma Nval_Zsub a b (x y : Z) :
  Nval a (inject_Z x) -> Nval b (inject_Z y) -> Nval (a -' b) (inject_Z (x - y)).
Proof.
  intros Ha Hb. eapply Nval_eq; [exact (Nval_sub _ _ _ _ Ha Hb)|].
  unfold Z.sub. rewrite inject_Z_plus, inject_Z_opp. reflexivity.
Qed.

Lemma Nval_Zadd a b (x y : Z) :
  Nval a (inject_Z x) -> Nval b (inject_Z y) -> Nval (a +' b) (inject_Z (x + y)).
Proof.
  intros Ha Hb. eapply Nval_eq; [exact (Nval_add _ _ _ _ Ha Hb)|].
  rewrite inject_Z_plus. reflexivity.
Qed.

(** *** Evaluating Numbers *)

Lemma Qhalf (a : Q) : a / 2 == a * (1 # 2).
Proof. field. Qed.

(** [lra] after turning halves into products. *)
Ltac lraq :=
  repeat (setoid_rewrite Qhalf);
  repeat match goal with H : _ |- _ => setoid_rewrite Qhalf in H end;
  lra.

Ltac nval_side :=
  first [ intros E; vm_compute in E; discriminate E
        | intro; lra
        | assumption ].

Ltac nval :=
  first
    [ assumption
    | apply Nval_ofZ | apply Nval_valueOf | apply Nval_qnum
    | apply Nval_add; nval | apply Nval_sub; nval | apply Nval_mul; nval
    | apply Nval_div; [ nval | nval | nval_side ] ].

Lemma newDate_valueOf (z : Z) : JS.newDate (+' Some z) = Some z.
Proof. apply newDate_Z. apply Nval_valueOf. Qed.

Lemma lt_valueOf (a b : Z) : (+' Some a <' +' Some b) = (a <? b)%Z.
Proof. rewrite (Nval_lt _ _ _ _ (Nval_valueOf a) (Nval_valueOf b)). apply Qltb_Z. Qed.

Lemma gt_valueOf (a b : Z) : (+' Some a >' +' Some b) = (b <? a)%Z.
Proof. unfold JS.gt. apply lt_valueOf. Qed.

Lemma span_gt_valueOf (a b c d : Z) :
  ((+' Some a -' +' Some b) >' (+' Some c -' +' Some d)) = (c - d <? a - b)%Z.
Proof.
  rewrite (Nval_gt _ _ _ _
             (Nval_Zsub _ _ _ _ (Nval_valueOf a) (Nval_valueOf b))
             (Nval_Zsub _ _ _ _ (Nval_valueOf c) (Nval_valueOf d))).
  apply Qltb_Z.
Qed.

Lemma span_lt_ofZ (a b m : Z) :
  ((+' Some a -' +' Some b) <' JS.ofZ m) = (a - b <? m)%Z.
Proof.
  rewrite (Nval_lt _ _ _ _
             (Nval_Zsub _ _ _ _ (Nval_valueOf a) (Nval_valueOf b)) (Nval_ofZ m)).
  apply Qltb_Z.
Qed.

Lemma span_le_ofZ (a b m : Z) :
  ((+' Some a -' +' Some b) <=' JS.ofZ m) = (a - b <=? m)%Z.
Proof.
  rewrite (Nval_le _ _ _ _
             (Nval_Zsub _ _ _ _ (Nval_valueOf a) (Nval_valueOf b)) (Nval_ofZ m)).
  apply Qle_bool_Z.
Qed.

Create Rewrite HintDb jseval.

#[export] Hint Rewrite newDate_valueOf lt_valueOf gt_valueOf span_gt_valueOf
  span_lt_ofZ span_le_ofZ : jseval.


Lemma inject_Z_sub (a b : Z) : inject_Z (a - b) == inject_Z a - inject_Z b.
Proof. unfold Z.sub. rewrite inject_Z_plus, inject_Z_opp. reflexivity. Qed.

Ltac toQ H :=
  first [ apply -> Z.ltb_lt in H | apply -> Z.ltb_ge in H | idtac ];
  first [ rewrite Zlt_Qlt in H | rewrite Zle_Qle in H ];
  rewrite ?inject_Z_sub, ?inject_Z_plus in H.

(** ** clampDomain *)

Section ClampFacts.

Variable parse : JS.Date -> JS.Number -> JS.Date.

(** A proposed window at least as wide as the bounds is answered with the
    bounds themselves, whatever the engine. *)
Lemma clampDomain_full_extent (s e lo hi : Z) :
  (hi - lo <= e - s)%Z ->
  clampDomain parse (Some s, Some e) (Some lo, Some hi) = (Some lo, Some hi).
Proof.
  intros H. unfold clampDomain.
  rewrite (Nval_ge _ _ _ _ (Nval_Zsub _ _ _ _ (Nval_valueOf e) (Nval_valueOf s))
                   (Nval_Zsub _ _ _ _ (Nval_valueOf hi) (Nval_valueOf lo))).
  rewrite Qle_bool_Z. apply Z.leb_le in H. now rewrite H.
Qed.

(** A window that already lies inside the bounds, is narrower than them
    and at least [MIN_SPAN_MS] wide is returned as it is. *)
Lemma clampDomain_inside (s e lo hi : Z) :
  (lo <= s)%Z -> (e <= hi)%Z -> (e - s < hi - lo)%Z -> (MIN_SPAN_MS <= e - s)%Z ->
  clampDomain parse (Some s, Some e) (Some lo, Some hi) = (Some s, Some e).
Proof.
  intros Hlo Hhi Hspan Hmin. unfold clampDomain, enforceMinSpan.
  pose proof (Nval_valueOf s) as Vs. pose proof (Nval_valueOf e) as Ve.
  pose proof (Nval_valueOf lo) as Vlo. pose proof (Nval_valueOf hi) as Vhi.
  rewrite (Nval_ge _ _ _ _ (Nval_Zsub _ _ _ _ Ve Vs) (Nval_Zsub _ _ _ _ Vhi Vlo)).
  rewrite Qle_bool_Z.
  replace (hi - lo <=? e - s)%Z with false by (symmetry; apply Z.leb_gt; lia).
  rewrite (Nval_lt _ _ _ _ Vs Vlo), Qltb_Z.
  replace (s <? lo)%Z with false by (symmetry; apply Z.ltb_ge; lia).
  rewrite (Nval_gt _ _ _ _ Ve Vhi), Qltb_Z.
  replace (hi <? e)%Z with false by (symmetry; apply Z.ltb_ge; lia).
  rewrite (Nval_lt _ _ _ _ Ve Vs), Qltb_Z.
  replace (e <? s)%Z with false
    by (symmetry; apply Z.ltb_ge; unfold MIN_SPAN_MS in Hmin; lia).
  rewrite (Nval_lt _ _ _ _ (Nval_Zsub _ _ _ _ Ve Vs) (Nval_ofZ MIN_SPAN_MS)), Qltb_Z.
  replace (e - s <? MIN_SPAN_MS)%Z with false by (symmetry; apply Z.ltb_ge; lia).
  reflexivity.
Qed.

(** A window pushed past the upper bound is moved, span kept, to end at the
    bound. *)
Lemma clampDomain_above_max (s e lo hi : Z) :
  (lo <= s)%Z -> (hi < e)%Z -> (e - s < hi - lo)%Z -> (MIN_SPAN_MS <= e - s)%Z ->
  clampDomain parse (Some s, Some e) (Some lo, Some hi)
  = (Some (hi - (e - s))%Z, Some hi).
Proof.
  intros Hlo Hhi Hspan Hmin. unfold clampDomain, enforceMinSpan.
  pose proof (Nval_valueOf s) as Vs. pose proof (Nval_valueOf e) as Ve.
  pose proof (Nval_valueOf lo) as Vlo. pose proof (Nval_valueOf hi) as Vhi.
  rewrite (Nval_ge _ _ _ _ (Nval_Zsub _ _ _ _ Ve Vs) (Nval_Zsub _ _ _ _ Vhi Vlo)).
  rewrite Qle_bool_Z.
  replace (hi - lo <=? e - s)%Z with false by (symmetry; apply Z.leb_gt; lia).
  rewrite (Nval_lt _ _ _ _ Vs Vlo), Qltb_Z.
  replace (s <? lo)%Z with false by (symmetry; apply Z.ltb_ge; lia).
  rewrite (Nval_gt _ _ _ _ Ve Vhi), Qltb_Z.
  replace (hi <? e)%Z with true by (symmetry; apply Z.ltb_lt; lia).
  rewrite (newDate_Z _ _ (Nval_Zsub _ _ _ _ Vhi (Nval_Zsub _ _ _ _ Ve Vs))).
  unfold JS.copyDate.
  pose proof (Nval_valueOf (hi - (e - s))) as Vn.
  rewrite (Nval_lt _ _ _ _ Vhi Vn), Qltb_Z.
  replace (hi <? hi - (e - s))%Z with false
    by (symmetry; apply Z.ltb_ge; unfold MIN_SPAN_MS in Hmin; lia).
  rewrite (Nval_lt _ _ _ _ (Nval_Zsub _ _ _ _ Vhi Vn) (Nval_ofZ MIN_SPAN_MS)), Qltb_Z.
  replace (hi - (hi - (e - s)) <? MIN_SPAN_MS)%Z with false
    by (symmetry; apply Z.ltb_ge; lia).
  reflexivity.
Qed.

(** A window pushed past the lower bound is moved to start at the bound;
    its end is what the engine makes of the text of the bound followed by
    the digits of the span.  Where the engine rejects that text the domain
    returned ends in the Invalid Date. *)
Lemma clampDomain_below_min_invalid (s e lo hi : Z) :
  (s < lo)%Z -> (e - s < hi - lo)%Z ->
  (forall n, parse (Some lo) n = None) ->
  clampDomain parse (Some s, Some e) (Some lo, Some hi) = (Some lo, None).
Proof.
  intros Hlo Hspan Hparse. unfold clampDomain.
  pose proof (Nval_valueOf s) as Vs. pose proof (Nval_valueOf e) as Ve.
  pose proof (Nval_valueOf lo) as Vlo. pose proof (Nval_valueOf hi) as Vhi.
  rewrite (Nval_ge _ _ _ _ (Nval_Zsub _ _ _ _ Ve Vs) (Nval_Zsub _ _ _ _ Vhi Vlo)).
  rewrite Qle_bool_Z.
  replace (hi - lo <=? e - s)%Z with false by (symmetry; apply Z.leb_gt; lia).
  rewrite (Nval_lt _ _ _ _ Vs Vlo), Qltb_Z.
  replace (s <? lo)%Z with true by (symmetry; apply Z.ltb_lt; lia).
  rewrite Hparse. reflexivity.
Qed.

End ClampFacts.

(** A window that does not start below the lower bound, is narrower than
    the bounds and at least [MIN_SPAN_MS] wide keeps its span. *)
Lemma clampDomain_span_kept (parse : JS.Date -> JS.Number -> JS.Date)
      (s e lo hi : Z) :
  (lo <= s)%Z -> (MIN_SPAN_MS <= e - s)%Z -> (e - s < hi - lo)%Z ->
  exists s' e',
    clampDomain parse (Some s, Some e) (Some lo, Some hi) = (Some s', Some e')
    /\ (e' - s' = e - s)%Z /\ (lo <= s')%Z /\ (e' <= hi)%Z
    /\ ((e <= hi)%Z -> s' = s /\ e' = e)
    /\ ((hi < e)%Z -> e' = hi).
Proof.
  intros Hlo Hmin Hspan.
  destruct (Z_le_gt_dec e hi) as [Hin|Hout].
  - exists s, e. rewrite clampDomain_inside by assumption.
    repeat split; try lia.
  - exists (hi - (e - s))%Z, hi. rewrite clampDomain_above_max by (assumption || lia).
    repeat split; try lia.
Qed.


(** *** Bounds given as time values *)

Lemma numericBounds_Z (lo : Z) (n : JS.Number) (z : Z) :
  Nval n (inject_Z z) -> numericBounds (Some lo) n = Some (lo + z)%Z.
Proof.
  intros V. unfold numericBounds.
  apply newDate_Z. apply Nval_Zadd; [apply Nval_valueOf|exact V].
Qed.

(** The two ends of the recentred window, and how far truncation can take
    them from the midpoint plus and minus half of [MIN_SPAN_MS]. *)
Lemma recentred_ends (s e : Z) :
  exists tS tE,
    JS.newDate ((+' Some s +' +' Some e) /' JS.ofZ 2 -' JS.ofZ MIN_SPAN_MS /' JS.ofZ 2)
    = Some tS
    /\ JS.newDate ((+' Some s +' +' Some e) /' JS.ofZ 2 +' JS.ofZ MIN_SPAN_MS /' JS.ofZ 2)
       = Some tE
    /\ (s + e - MIN_SPAN_MS - 2 < 2 * tS < s + e - MIN_SPAN_MS + 2)%Z
    /\ (s + e + MIN_SPAN_MS - 2 < 2 * tE < s + e + MIN_SPAN_MS + 2)%Z
    /\ (MIN_SPAN_MS - 1 <= tE - tS)%Z.
Proof.
  assert (VS : Nval ((+' Some s +' +' Some e) /' JS.ofZ 2 -' JS.ofZ MIN_SPAN_MS /' JS.ofZ 2)
                    ((inject_Z s + inject_Z e) / 2 - inject_Z MIN_SPAN_MS / 2)) by nval.
  assert (VE : Nval ((+' Some s +' +' Some e) /' JS.ofZ 2 +' JS.ofZ MIN_SPAN_MS /' JS.ofZ 2)
                    ((inject_Z s + inject_Z e) / 2 + inject_Z MIN_SPAN_MS / 2)) by nval.
  rewrite (newDate_Nval _ _ VS), (newDate_Nval _ _ VE).
  pose proof (truncate_lower ((inject_Z s + inject_Z e) / 2 - inject_Z MIN_SPAN_MS / 2)) as S1.
  pose proof (truncate_upper ((inject_Z s + inject_Z e) / 2 - inject_Z MIN_SPAN_MS / 2)) as S2.
  pose proof (truncate_lower ((inject_Z s + inject_Z e) / 2 + inject_Z MIN_SPAN_MS / 2)) as E1.
  pose proof (truncate_upper ((inject_Z s + inject_Z e) / 2 + inject_Z MIN_SPAN_MS / 2)) as E2.
  set (tS := JS.truncate _) in S1, S2 |- *.
  set (tE := JS.truncate _) in E1, E2 |- *.
  clearbody tS tE.
  assert (HS : (s + e - MIN_SPAN_MS - 2 < 2 * tS < s + e - MIN_SPAN_MS + 2)%Z).
  { split; rewrite Zlt_Qlt;
      rewrite ?inject_Z_sub, ?inject_Z_plus, ?inject_Z_mult, ?inject_Z_sub, ?inject_Z_plus;
      change (inject_Z 2) with 2; lraq. }
  assert (HE : (s + e + MIN_SPAN_MS - 2 < 2 * tE < s + e + MIN_SPAN_MS + 2)%Z).
  { split; rewrite Zlt_Qlt;
      rewrite ?inject_Z_sub, ?inject_Z_plus, ?inject_Z_mult, ?inject_Z_sub, ?inject_Z_plus;
      change (inject_Z 2) with 2; lraq. }
  exists tS, tE. repeat split; try tauto; try lia.
Qed.

(** The minimum-window block on a window that lies inside the bounds. *)
Lemma enforceMinSpan_numeric_bounds (s e lo hi : Z) :
  (lo <= s)%Z -> (s <= e)%Z -> (e <= hi)%Z -> (MIN_SPAN_MS <= hi - lo)%Z ->
  exists a b,
    enforceMinSpan numericBounds (Some lo) (Some hi) (Some s, Some e) = (Some a, Some b)
    /\ (lo <= a)%Z /\ (a <= b)%Z /\ (b <= hi)%Z
    /\ (MIN_SPAN_MS - 1 <= b - a)%Z.
Proof.
  intros Hlo Hord Hhi HM.
  assert (Hpos : (0 < MIN_SPAN_MS)%Z) by reflexivity.
  pose proof (Nval_valueOf hi) as Vhi.
  unfold enforceMinSpan. autorewrite with jseval.
  destruct (e - s <? MIN_SPAN_MS)%Z eqn:Emin.
  - destruct (recentred_ends s e) as (tS & tE & -> & -> & HS & HE & Hwidth).
    unfold JS.copyDate. autorewrite with jseval.
    rewrite (numericBounds_Z lo _ _ (Nval_ofZ MIN_SPAN_MS)).
    rewrite (newDate_Z _ _ (Nval_Zsub _ _ _ _ Vhi (Nval_ofZ MIN_SPAN_MS))).
    destruct (tS <? lo)%Z eqn:E1; autorewrite with jseval.
    + replace (hi <? lo + MIN_SPAN_MS)%Z with false by (symmetry; apply Z.ltb_ge; lia).
      exists lo, (lo + MIN_SPAN_MS)%Z. repeat split; lia.
    + apply Z.ltb_ge in E1. destruct (hi <? tE)%Z eqn:E2.
      * exists (hi - MIN_SPAN_MS)%Z, hi. repeat split; lia.
      * apply Z.ltb_ge in E2. exists tS, tE. repeat split; lia.
  - apply Z.ltb_ge in Emin. exists s, e. repeat split; lia.
Qed.

(** With the bounds given as time values, on a data set at least
    [MIN_SPAN_MS] wide, an ordered window comes back inside the bounds, in
    order, at most one millisecond narrower than [MIN_SPAN_MS], and as the
    full extent when it was at least that wide. *)
Lemma clampDomain_numeric_bounds (s e lo hi : Z) :
  (s <= e)%Z -> (MIN_SPAN_MS <= hi - lo)%Z ->
  exists a b,
    clampDomain numericBounds (Some s, Some e) (Some lo, Some hi) = (Some a, Some b)
    /\ (lo <= a)%Z /\ (a <= b)%Z /\ (b <= hi)%Z
    /\ (MIN_SPAN_MS - 1 <= b - a)%Z
    /\ ((hi - lo <= e - s)%Z -> a = lo /\ b = hi).
Proof.
  intros Hord HM.
  assert (Hpos : (0 < MIN_SPAN_MS)%Z) by reflexivity.
  destruct (Z.leb_spec (hi - lo) (e - s)) as [Hwide|Hnarrow].
  { exists lo, hi. rewrite clampDomain_full_extent by exact Hwide.
    repeat split; lia. }
  assert (Hkeep : forall s' e',
             (lo <= s')%Z -> (s' <= e')%Z -> (e' <= hi)%Z ->
             exists a b,
               enforceMinSpan numericBounds (Some lo) (Some hi) (Some s', Some e')
               = (Some a, Some b)
               /\ (lo <= a)%Z /\ (a <= b)%Z /\ (b <= hi)%Z
               /\ (MIN_SPAN_MS - 1 <= b - a)%Z
               /\ ((hi - lo <= e - s)%Z -> a = lo /\ b = hi)).
  { intros s' e' H1 H2 H3.
    destruct (enforceMinSpan_numeric_bounds s' e' lo hi H1 H2 H3 HM)
      as (a & b & Ha & Hb).
    exists a, b. repeat split; try tauto; lia. }
  unfold clampDomain.
  pose proof (Nval_valueOf s) as Vs. pose proof (Nval_valueOf e) as Ve.
  pose proof (Nval_valueOf lo) as Vlo. pose proof (Nval_valueOf hi) as Vhi.
  pose proof (Nval_Zsub _ _ _ _ Ve Vs) as Vspan.
  rewrite (Nval_ge _ _ _ _ Vspan (Nval_Zsub _ _ _ _ Vhi Vlo)), Qle_bool_Z.
  replace (hi - lo <=? e - s)%Z with false by (symmetry; apply Z.leb_gt; lia).
  rewrite (numericBounds_Z lo _ _ Vspan).
  rewrite (newDate_Z _ _ (Nval_Zsub _ _ _ _ Vhi Vspan)).
  unfold JS.copyDate. autorewrite with jseval.
  destruct (s <? lo)%Z eqn:E1; autorewrite with jseval.
  - apply Z.ltb_lt in E1.
    replace (hi <? lo + (e - s))%Z with false by (symmetry; apply Z.ltb_ge; lia).
    autorewrite with jseval.
    replace (lo + (e - s) <? lo)%Z with false by (symmetry; apply Z.ltb_ge; lia).
    apply Hkeep; lia.
  - apply Z.ltb_ge in E1. destruct (hi <? e)%Z eqn:E2; autorewrite with jseval.
    + apply Z.ltb_lt in E2.
      replace (hi <? hi - (e - s))%Z with false by (symmetry; apply Z.ltb_ge; lia).
      apply Hkeep; lia.
    + apply Z.ltb_ge in E2.
      replace (e <? s)%Z with false by (symmetry; apply Z.ltb_ge; lia).
      apply Hkeep; lia.
Qed.

(** C1, at a failing input.  On a data set that spans 20 days, a proposed
    window of two days near its end is answered with a 30-day window that
    starts 10 days before the data: the result is neither inside the bounds
    nor the full extent.  The path taken does not depend on the engine. *)
Theorem clampDomain_short_extent_escapes :
  forall parse,
    clampDomain parse (Some (17 * day), Some (19 * day))%Z (Some 0, Some (20 * day))%Z
    = (Some (- (10 * day)), Some (20 * day))%Z.
Proof. intros parse. vm_compute. reflexivity. Qed.

(** On a data set of 100 days, panning a 40-day window one day past the
    lower bound: an engine that rejects the concatenated text leaves an
    Invalid Date as the end of the domain, a lenient one a window of no
    width. *)
Example clampDomain_left_edge_rejecting :
  clampDomain rejectingEngine (Some (- day), Some (39 * day))%Z
              (Some 0, Some (100 * day))%Z
  = (Some 0%Z, None).
Proof. vm_compute. reflexivity. Qed.

Example clampDomain_left_edge_lenient :
  clampDomain lenientEngine (Some (- day), Some (39 * day))%Z
              (Some 0, Some (100 * day))%Z
  = (Some 0%Z, Some 0%Z).
Proof. vm_compute. reflexivity. Qed.

(** Near the epoch the recentred window is one millisecond short of
    [MIN_SPAN_MS], because both of its ends are truncated towards zero. *)
Example clampDomain_epoch_window :
  forall parse,
    clampDomain parse (Some 0, Some 1)%Z (Some (- (100 * day)), Some (100 * day))%Z
    = (Some (- 1295999999), Some 1296000000)%Z.
Proof. intros parse. vm_compute. reflexivity. Qed.

(** ** zoomBy *)

(** The clamping steps of [zoomBy] on valid Numbers. *)
Lemma zoom_steps_num (center span : JS.Number) (c sp : Q) (lo hi : Z) :
  Nval center c -> Nval span sp ->
  (let newStart := JS.newDate (center -' span /' JS.ofZ 2) in
   let newEnd := JS.newDate (center +' span /' JS.ofZ 2) in
   let min := +' Some lo in
   let max := +' Some hi in
   let maxSpan := max -' min in
   let '(newStart, newEnd) :=
     if (+' newEnd -' +' newStart) >' maxSpan
     then (JS.newDate min, JS.newDate max)
     else (newStart, newEnd) in
   let '(newStart, newEnd) :=
     if +' newStart <' min
     then (JS.newDate min, JS.newDate (min +' span))
     else (newStart, newEnd) in
   let '(newStart, newEnd) :=
     if +' newEnd >' max
     then (JS.newDate (max -' span), JS.newDate max)
     else (newStart, newEnd) in
   (newStart, newEnd))
  = let '(ns, ne) := zoomWindowNum c sp lo hi in (Some ns, Some ne).
Proof.
  intros Vc Vsp. unfold zoomWindowNum. cbv zeta.
  assert (Vh : Nval (span /' JS.ofZ 2) (sp / 2)) by nval.
  rewrite (newDate_Nval _ _ (Nval_sub _ _ _ _ Vc Vh)).
  rewrite (newDate_Nval _ _ (Nval_add _ _ _ _ Vc Vh)).
  rewrite (newDate_Nval _ _ (Nval_add _ _ _ _ (Nval_valueOf lo) Vsp)).
  rewrite (newDate_Nval _ _ (Nval_sub _ _ _ _ (Nval_valueOf hi) Vsp)).
  autorewrite with jseval.
  destruct (hi - lo <? _)%Z; autorewrite with jseval;
    repeat match goal with
           | |- context [if ?b then _ else _] =>
               destruct b; autorewrite with jseval
           end; reflexivity.
Qed.

Section ZoomByFacts.

Variable host : Host.

(** On valid dates [zoomByWindow] is [zoomWindowNum]. *)
Lemma zoomByWindow_num (st : State) (x : Scale) (d0 d1 lo hi : Z) (factor : Q)
      (anchorDate : option Z) :
  domain x = (Some d0, Some d1) ->
  clampBounds st = (Some lo, Some hi) ->
  ~ factor == 0 ->
  zoomByWindow st x factor (option_map Some anchorDate)
  = let '(ns, ne) :=
      zoomWindowNum (zoomCenter d0 d1 anchorDate)
                    ((inject_Z d1 - inject_Z d0) / factor) lo hi in
    (Some ns, Some ne).
Proof.
  intros Hdom Hb Hf. unfold zoomByWindow.
  rewrite Hdom, Hb. cbn [fst snd].
  apply zoom_steps_num.
  - unfold zoomCenter. destruct anchorDate; cbn [option_map]; nval.
  - nval.
Qed.

(** From the full extent, any proposal to zoom out about the midpoint
    comes back as the full extent. *)
Lemma zoomWindowNum_at_full_extent (lo hi : Z) (factor : Q) :
  (lo <= hi)%Z -> 0 < factor -> factor < 1 ->
  zoomWindowNum (zoomCenter lo hi None) ((inject_Z hi - inject_Z lo) / factor) lo hi
  = (lo, hi).
Proof.
  intros Hle Hf0 Hf1. unfold zoomWindowNum, zoomCenter.
  set (M := inject_Z hi - inject_Z lo).
  set (sp := M / factor).
  assert (HM : 0 <= M) by (unfold M; rewrite Zle_Qle in Hle; lra).
  assert (Hsp : M <= sp).
  { unfold sp. apply Qle_shift_div_l; [exact Hf0|]. nra. }
  assert (EM : M == inject_Z hi - inject_Z lo) by reflexivity.
  clearbody sp M.
  set (A := (inject_Z lo + inject_Z hi) / 2 - sp / 2).
  set (B := (inject_Z lo + inject_Z hi) / 2 + sp / 2).
  assert (HA : A <= inject_Z lo) by (unfold A; lraq).
  assert (HB : inject_Z hi <= B) by (unfold B; lraq).
  assert (Hns : (JS.truncate A <= lo)%Z).
  { rewrite <- (truncate_Z lo). now apply truncate_mono. }
  assert (Hne : (hi <= JS.truncate B)%Z).
  { rewrite <- (truncate_Z hi). now apply truncate_mono. }
  destruct (hi - lo <? JS.truncate B - JS.truncate A)%Z eqn:E.
  - now rewrite !Z.ltb_irrefl.
  - apply Z.ltb_ge in E.
    replace (JS.truncate A) with lo by lia.
    replace (JS.truncate B) with hi by lia.
    now rewrite !Z.ltb_irrefl.
Qed.

Lemma zoomBy_redraw_domain (st : State) (x : Scale) (factor : Q)
      (anchorDate : option JS.Date) (s e : JS.Date) (r : bool) :
  currentXScale st = Some x ->
  zoomByRequest st factor anchorDate = Redraw s e r ->
  currentDomain (zoomBy host st factor anchorDate) = Some (s, e).
Proof.
  intros Hx Hr. unfold currentDomain, zoomBy. rewrite Hx, Hr. reflexivity.
Qed.


End ZoomByFacts.

(** C9, at a failing input.  On a page whose domain is the full extent the
    zoom-out button does not return early: [zoomBy] has no test for being
    at the full extent and calls [setDomainAndRedraw] with the full extent
    again and a repack.  The wheel handler, on the same page, has that test
    and returns early. *)
Theorem zoomBy_out_at_full_extent_redraws :
  currentDomain twoRowsPage = Some (clampBounds twoRowsPage)
  /\ zoomByRequest twoRowsPage (4 # 5) None
     = Redraw (Some 0%Z) (Some (100 * day)%Z) true
  /\ zoomBy stillHost twoRowsPage (4 # 5) None
     = setDomainAndRedraw stillHost twoRowsPage
         (mkScale (Some 0%Z, Some (100 * day)%Z) (40, 1040))
         (filteredData twoRowsPage) (Some 0%Z) (Some (100 * day)%Z) true
  /\ wheelRequest stillHost twoRowsPage
                  (mkScale (Some 0%Z, Some (100 * day)%Z) (40, 1040)) 100 540
     = Ignored.
Proof.
  split; [|split; [|split]].
  - vm_compute. reflexivity.
  - vm_compute. reflexivity.
  - vm_compute. reflexivity.
  - vm_compute. reflexivity.
Qed.

(** At the full extent, an anchor at the upper bound and a factor within a
    hair of 1 make [zoomBy] apply a window that starts one millisecond
    below the full extent. *)
Example zoomBy_anchored_out_moves_start :
  currentDomain oddPage = Some (Some 1000%Z, Some (1000 + MIN_SPAN_MS + 1)%Z)
  /\ clampBounds oddPage = (Some 1000%Z, Some (1000 + MIN_SPAN_MS + 1)%Z)
  /\ zoomByRequest oddPage (5184000002 # 5184000003)
                   (Some (Some (1000 + MIN_SPAN_MS + 1)%Z))
     = Redraw (Some 999%Z) (Some (1000 + MIN_SPAN_MS + 1)%Z) true.
Proof. repeat split; vm_compute; reflexivity. Qed.



(** A window that passes the test is applied as it is. *)
Lemma zoomBy_accepts_from_min_span (st : State) (x : Scale) (factor : Q)
      (anchorDate : option JS.Date) (ns ne : Z) :
  currentXScale st = Some x ->
  filteredData st <> [] ->
  zoomByWindow st x factor anchorDate = (Some ns, Some ne) ->
  (MIN_SPAN_MS <= ne - ns)%Z ->
  zoomByRequest st factor anchorDate = Redraw (Some ns) (Some ne) true.
Proof.
  intros Hx Hd Hw Hge. unfold zoomByRequest. rewrite Hx.
  destruct (filteredData st); [congruence|].
  rewrite Hw. autorewrite with jseval.
  apply Z.ltb_ge in Hge. now rewrite Hge.
Qed.

(** ** The filter pipeline *)

Lemma arr_includes_In (arr : list string) (v : string) :
  arr_includes arr v = true <-> In v arr.
Proof.
  unfold arr_includes. rewrite existsb_exists. split.
  - intros [y [Hy E]]. apply String.eqb_eq in E. now subst.
  - intros H. exists v. split; [exact H|apply String.eqb_refl].
Qed.

(** C7.  With none of the three categories active and key events switched
    off in the legend, [updateChart] assigns the empty array to
    [filteredData] and to [keyEvents] and draws no dot, whatever the topic
    and source dropdowns, the key-only checkbox and the search box hold. *)
Theorem no_category_no_key_shows_nothing :
  forall (host : Host) (st : State),
    activeCats (selectedCats st) = [] ->
    has (selectedCats st) "key"%string = false ->
    filterRecords host (rawData st) (selectedCats st) (topicDropdown st)
                  (sourceDropdown st) (keyEventFilter st) (searchValue st) = []
    /\ filteredData (updateChart host st) = []
    /\ keyEvents (updateChart host st) = []
    /\ dots (updateChart host st) = [].
Proof.
  intros host st Hcats Hkey.
  assert (H : filterRecords host (rawData st) (selectedCats st) (topicDropdown st)
                (sourceDropdown st) (keyEventFilter st) (searchValue st) = []).
  { unfold filterRecords. now rewrite Hcats, Hkey. }
  split; [exact H|].
  unfold updateChart. rewrite H. cbn. repeat split.
Qed.

(** *** Dropdowns *)

Lemma toggleAt_app (pre : list (string * bool)) (v : string) (on : bool)
      (rest : list (string * bool)) :
  toggleAt (List.length pre) (pre ++ (v, on) :: rest) = pre ++ (v, negb on) :: rest.
Proof.
  induction pre as [|[w b] pre IH]; cbn.
  - reflexivity.
  - now rewrite IH.
Qed.

Lemma selectEach_from (lookup : option StrMap) (opts pre : list (string * bool)) :
  fold_left (fun d i => toggleOption i d) (offIndices (List.length pre) opts)
            (mkDropdown (pre ++ opts) lookup)
  = mkDropdown (pre ++ map (fun o => (fst o, true)) opts) lookup.
Proof.
  revert pre. induction opts as [|[v on] opts IH]; intros pre.
  - reflexivity.
  - assert (Hshift : forall b, (pre ++ (v, b) :: opts = (pre ++ [(v, b)]) ++ opts)%list)
      by (intros b; now rewrite <- app_assoc).
    assert (Hlen : forall b, S (List.length pre) = List.length (pre ++ [(v, b)]))
      by (intros b; rewrite length_app; cbn; lia).
    cbn [offIndices map fst]. destruct on.
    + rewrite (Hlen true), (Hshift true), IH. now rewrite <- app_assoc.
    + cbn [fold_left]. unfold toggleOption at 2. cbn [options valueLookup].
      rewrite toggleAt_app. cbn [negb].
      rewrite (Hlen true), (Hshift true), IH. now rewrite <- app_assoc.
Qed.

(** Clicking every option that is off leaves the dropdown as the
    "Select all" button does. *)
Lemma selectEach_setAll (dd : Dropdown) : selectEach dd = setAll true dd.
Proof.
  destruct dd as [opts lookup]. unfold selectEach, setAll. cbn [options valueLookup].
  exact (selectEach_from lookup opts []).
Qed.

(** *** Arrays of strings *)

Lemma insertSorted_perm (s : string) (l : list string) :
  Permutation (insertSorted s l) (s :: l).
Proof.
  induction l as [|t l IH]; cbn.
  - apply Permutation_refl.
  - destruct (String.ltb s t).
    + apply Permutation_refl.
    + eapply perm_trans; [apply perm_skip, IH|apply perm_swap].
Qed.

Lemma sortStrings_perm (l : list string) : Permutation (sortStrings l) l.
Proof.
  unfold sortStrings.
  assert (H : forall acc, Permutation (fold_left (fun a s => insertSorted s a) l acc)
                                      (acc ++ l)).
  { induction l as [|s l IH]; intros acc; cbn.
    - rewrite app_nil_r. apply Permutation_refl.
    - eapply perm_trans; [apply IH|].
      eapply perm_trans; [apply Permutation_app_tail, insertSorted_perm|].
      cbn. apply Permutation_cons_app. apply Permutation_refl. }
  exact (H []).
Qed.

Lemma dedupe_from_spec (l seen : list string) :
  NoDup (dedupe_from seen l)
  /\ forall v, In v (dedupe_from seen l) <-> In v l /\ ~ In v seen.
Proof.
  revert seen. induction l as [|a l IH]; intros seen; cbn.
  - split; [constructor|]. intros v. tauto.
  - destruct (arr_includes seen a) eqn:E.
    + apply arr_includes_In in E. destruct (IH seen) as [Hnd Hin].
      split; [exact Hnd|]. intros v. rewrite Hin. split.
      * tauto.
      * intros [[->|H] Hn]; [contradiction|tauto].
    + assert (Hna : ~ In a seen).
      { intros H. apply arr_includes_In in H. congruence. }
      destruct (IH (a :: seen)) as [Hnd Hin]. split.
      * constructor; [|exact Hnd]. rewrite Hin. cbn. tauto.
      * intros v. cbn. rewrite Hin. cbn. split.
        -- intros [->|[H Hn]]; tauto.
        -- intros [[->|H] Hn]; [tauto|].
           destruct (String.eqb_spec a v) as [->|Hne]; tauto.
Qed.

Lemma dedupe_NoDup (l : list string) : NoDup (dedupe l).
Proof. apply dedupe_from_spec. Qed.

Lemma dedupe_In (l : list string) (v : string) : In v (dedupe l) <-> In v l.
Proof.
  unfold dedupe. rewrite (proj2 (dedupe_from_spec l [])). cbn. tauto.
Qed.

Lemma dedupe_from_id (l seen : list string) :
  NoDup l -> (forall v, In v l -> ~ In v seen) -> dedupe_from seen l = l.
Proof.
  revert seen. induction l as [|a l IH]; intros seen Hnd Hs; cbn.
  - reflexivity.
  - inversion Hnd as [|? ? Hna Hnd']; subst.
    destruct (arr_includes seen a) eqn:E.
    + apply arr_includes_In in E. exfalso. apply (Hs a); cbn; tauto.
    + f_equal. apply IH; [exact Hnd'|].
      intros v Hv [->|H]; [contradiction|]. apply (Hs v); cbn; tauto.
Qed.

Lemma dedupe_id (l : list string) : NoDup l -> dedupe l = l.
Proof. intros H. apply dedupe_from_id; [exact H|]. intros v _ []. Qed.

Lemma filter_all {A : Type} (f : A -> bool) (l : list A) :
  (forall a, In a l -> f a = true) -> filter f l = l.
Proof.
  induction l as [|a l IH]; intros H; cbn.
  - reflexivity.
  - rewrite (H a) by (cbn; tauto). f_equal. apply IH. intros b Hb. apply H. cbn; tauto.
Qed.

(** *** The label lookup *)

Lemma Map_get_fold_absent (m : StrMap) (k : string) (acc : option string) :
  ~ In k (map fst m) ->
  fold_left (fun acc kv => if (fst kv =? k)%string then Some (snd kv) else acc) m acc = acc.
Proof.
  revert acc. induction m as [|[k0 v0] m IH]; intros acc Hn; cbn.
  - reflexivity.
  - cbn in Hn. destruct (String.eqb_spec k0 k) as [->|Hne]; [tauto|].
    apply IH. tauto.
Qed.

Lemma Map_get_combine (ks vs : list string) :
  NoDup ks -> List.length ks = List.length vs ->
  map (fun label =>
         match Map_get (combine ks vs) label with
         | Some v => v
         | None => label
         end) ks = vs.
Proof.
  revert vs. induction ks as [|k ks IH]; intros [|v vs] Hnd Hlen; cbn in *;
    try discriminate; [reflexivity|].
  inversion Hnd as [|? ? Hnk Hnd']; subst. injection Hlen as Hlen.
  rewrite String.eqb_refl.
  rewrite Map_get_fold_absent.
  2:{ intros H. apply Hnk. clear - H. revert vs H.
      induction ks as [|k' ks IH]; intros [|v' vs] H; cbn in *; try tauto.
      destruct H as [->|H]; [tauto|]. right. now apply (IH vs). }
  f_equal. etransitivity; [|exact (IH vs Hnd' Hlen)].
  apply map_ext_in. intros label Hl.
  destruct (String.eqb_spec k label) as [->|Hne]; [contradiction|reflexivity].
Qed.

(** *** Select all *)

Lemma getSelectedValues_setAll (dd : Dropdown) :
  getSelectedValues (Some (setAll true dd)) = map fst (options dd).
Proof.
  unfold getSelectedValues, setAll. cbn [options].
  induction (options dd) as [|[v on] opts IH]; cbn.
  - reflexivity.
  - now rewrite IH.
Qed.

Lemma optionCount_setAll (on : bool) (dd : Dropdown) :
  optionCount (Some (setAll on dd)) = List.length (options dd).
Proof. unfold optionCount, setAll. cbn [options]. apply length_map. Qed.

Section SelectAll.

Variable host : Host.
Variable rawData : list Event.

Lemma topics_NoDup : NoDup (topicTokens rawData).
Proof.
  unfold topicTokens. eapply Permutation_NoDup.
  - apply Permutation_sym, sortStrings_perm.
  - apply dedupe_NoDup.
Qed.

Lemma topics_truthy (t : string) : In t (topicTokens rawData) -> truthy t = true.
Proof.
  unfold topicTokens. intros H.
  apply (Permutation_in _ (sortStrings_perm _)) in H.
  apply -> dedupe_In in H. apply filter_In in H. tauto.
Qed.

(** The labels are pairwise different as soon as title-casing tells the
    topics of the data apart. *)
Lemma topicItems_NoDup :
  (forall a b, In a (topicTokens rawData) -> In b (topicTokens rawData) ->
               toTitleCase host a = toTitleCase host b -> a = b) ->
  NoDup (topicItems host rawData).
Proof.
  intros Hinj. unfold topicItems.
  apply NoDup_map_NoDup_ForallPairs; [exact Hinj|apply topics_NoDup].
Qed.

(** With every option on, and the labels pairwise different, the tokens
    [updateChart] reads back are the topics themselves. *)
Lemma selectedTopics0_all (dd : Dropdown) :
  NoDup (topicItems host rawData) -> builtFrom host rawData dd ->
  selectedTopics0 (Some (setAll true dd)) = topicTokens rawData.
Proof.
  intros Hnd [Hopts Hlookup]. unfold selectedTopics0, topicLabels.
  rewrite getSelectedValues_setAll, Hopts.
  unfold setAll. cbn [valueLookup]. rewrite Hlookup.
  rewrite Map_get_combine; [|exact Hnd|apply length_map].
  rewrite filter_all by apply topics_truthy.
  apply dedupe_id, topics_NoDup.
Qed.

Lemma topicMatch_all (dd : Dropdown) (d : Event) :
  NoDup (topicItems host rawData) -> builtFrom host rawData dd ->
  topicMatch rawData (Some (setAll true dd)) d = true.
Proof.
  intros Hnd Hb. unfold topicMatch, isAllTopicsSelected, selectedTopics.
  destruct (useTopicFilter (Some (setAll true dd))) eqn:Euse; [|reflexivity].
  rewrite selectedTopics0_all by assumption.
  unfold topicListCount. rewrite optionCount_setAll.
  unfold useTopicFilter, topicListCount in Euse. rewrite optionCount_setAll in Euse.
  destruct Hb as [Hopts _].
  assert (Hlen : List.length (options dd) = List.length (topicTokens rawData)).
  { rewrite <- (length_map fst), Hopts. apply length_map. }
  rewrite Hlen in *. rewrite Nat.eqb_refl. cbn [negb].
  apply Nat.ltb_lt in Euse.
  destruct (List.length (topicTokens rawData) =? 0)%nat eqn:E0; [|reflexivity].
  apply Nat.eqb_eq in E0. lia.
Qed.

End SelectAll.

(** What holds of C8.  Turning every topic option on one click at a time
    gives the same filtered array as the "Select all" button.  With the
    dropdown as [setupFilters] built it and its labels pairwise different,
    that array holds every event without topics that passes the category,
    key, source, key-only and search tests. *)
Theorem select_each_topic_is_select_all :
  forall (host : Host) (rawData : list Event) (cats : StrSet) (dd : Dropdown)
         (sourceDd : option Dropdown) (onlyKey : bool) (searchText : string),
    filterRecords host rawData cats (Some (selectEach dd)) sourceDd onlyKey searchText
    = filterRecords host rawData cats (Some (setAll true dd)) sourceDd onlyKey searchText
    /\ (NoDup (topicItems host rawData) ->
        builtFrom host rawData dd ->
        forall d : Event,
          validTopics d = [] ->
          (In d (filterRecords host rawData cats (Some (setAll true dd)) sourceDd
                               onlyKey searchText)
           <-> In d rawData
               /\ catMatch cats d && keyOk cats d && sourceMatch rawData sourceDd d
                  && keyMatch onlyKey d && searchMatch host searchText d = true)).
Proof.
  intros host rawData cats dd sourceDd onlyKey searchText. split.
  - now rewrite selectEach_setAll.
  - intros Hnd Hb d _. unfold filterRecords.
    destruct ((List.length (activeCats cats) =? 0)%nat && negb (has cats "key"%string))
      eqn:Eshort.
    + apply andb_true_iff in Eshort. destruct Eshort as [E0 _].
      unfold catMatch. apply Nat.eqb_eq in E0. rewrite E0. cbn. split; [tauto|].
      intros [_ H]. discriminate H.
    + rewrite filter_In. unfold passes.
      rewrite (topicMatch_all host rawData dd d Hnd Hb).
      rewrite andb_true_r. reflexivity.
Qed.

Lemma select_each_topic_is_select_all_witness :
  In secondRow
     (filterRecords stillHost twoRows allCats (Some (setAll true sarinDropdown))
                    None false "").
Proof.
  apply (proj2 (select_each_topic_is_select_all
                  stillHost twoRows allCats sarinDropdown None false "")).
  - vm_compute. repeat constructor. simpl. tauto.
  - vm_compute. split; reflexivity.
  - reflexivity.
  - vm_compute. split; [right; left; reflexivity|reflexivity].
Defined.

(** C8, at a failing input: title-casing gives two topics one label, as it
    does for a topic typed once with the micro sign and once with the Greek
    letter mu.  The lookup then answers both options with the later topic,
    the de-duplicated selection is shorter than the list of options, and
    with every option on (as built, after "Select all", and after turning
    each option on by hand) the chart shows the rows of that topic only:
    the row without topic is hidden, and so is the row of the other topic.
    The filter of [scripts/app.js], which counts the selection without
    removing duplicates, shows all three rows. *)
Theorem merged_labels_hide_untagged :
  let page := load mergingHost blankPage taggedRows in
  option_map options (topicDropdown page)
  = Some [(muLabel, true); (muLabel, true)]
  /\ map event (filteredData page) = ["second"%string]
  /\ map event (filteredData (control mergingHost page (TopicSetAll true)))
     = ["second"%string]
  /\ map event
         (filterRecords mergingHost taggedRows allCats
                        (option_map selectEach
                                    (option_map (setAll false) (topicDropdown page)))
                        (sourceDropdown page) false "")
     = ["second"%string]
  /\ map event
         (Legacy.filterRecords mergingHost taggedRows allCats (topicDropdown page)
                               (sourceDropdown page) false "")
     = ["first"%string; "second"%string; "third"%string].
Proof.
  cbv zeta. do 4 (split; [vm_compute; reflexivity|]). vm_compute. reflexivity.
Qed.

Lemma no_category_no_key_shows_nothing_witness :
  filteredData
    (updateChart stillHost
                 (with_controls twoRowsPage [] (topicDropdown twoRowsPage)
                                (sourceDropdown twoRowsPage) false ""))
  = [].
Proof.
  refine (proj1 (proj2 (no_category_no_key_shows_nothing stillHost _ _ _))).
  - reflexivity.
  - reflexivity.
Defined.

(** ** The wheel handler *)

Lemma scale_invert_date (x : Scale) (d0 d1 : Z) (px : Q) :
  domain x = (Some d0, Some d1) -> exists a, scale_invert x (qnum px) = Some a.
Proof.
  intros Hdom. unfold scale_invert. rewrite Hdom. destruct (range x) as [r0 r1].
  unfold normalize, qnum. cbn [JS.sub JS.lift2].
  destruct (Qeq_bool (r1 - r0) 0) eqn:E.
  - cbn. eauto.
  - unfold JS.div. rewrite E. cbn. eauto.
Qed.

Lemma wheelK_out (deltaY : Q) : 0 < deltaY -> wheelK deltaY = 11 # 10.
Proof.
  intros H. unfold wheelK, wheelFactor. apply Qltb_lt in H. now rewrite H.
Qed.

Lemma wheelK_in (deltaY : Q) : deltaY <= 0 -> wheelK deltaY = 9 # 10.
Proof.
  intros H. unfold wheelK, wheelFactor. apply Qltb_ge in H. now rewrite H.
Qed.

Lemma Nval_inv (n : JS.Number) (q : Q) : Nval n q -> exists q0, n = Some q0 /\ q0 == q.
Proof. intros [q0 q1 H]. eauto. Qed.

(** [Math.abs(newSpan - oldSpan) > 5] on whole numbers of milliseconds. *)
Lemma spanChanged_Z (a b : JS.Number) (m n : Z) :
  Nval a (inject_Z m) -> Nval b (inject_Z n) ->
  spanChanged a b = (5 <? Z.abs (m - n))%Z.
Proof.
  intros Va Vb. unfold spanChanged.
  destruct (Nval_inv _ _ (Nval_sub _ _ _ _ Va Vb)) as (q & -> & Hq).
  assert (Habs : Qabs q == inject_Z (Z.abs (m - n))).
  { transitivity (Qabs (inject_Z (m - n))).
    - apply Qabs_wd. rewrite Hq. symmetry. apply inject_Z_sub.
    - unfold inject_Z. symmetry. apply Zabs_Qabs. }
  destruct (5 <? Z.abs (m - n))%Z eqn:E.
  - apply Qltb_lt. rewrite Habs. change 5 with (inject_Z 5).
    rewrite <- Zlt_Qlt. now apply Z.ltb_lt.
  - apply Qltb_ge. rewrite Habs. change 5 with (inject_Z 5).
    rewrite <- Zle_Qle. now apply Z.ltb_ge.
Qed.

(** The handler on valid dates: it asks the scale for the date under the
    pointer, rounds the two ends it computes about that date to whole
    milliseconds, clamps the window and decides on the clamped one. *)
Lemma wheelRequest_proposal (host : Host) (st : State) (x : Scale)
      (d0 d1 lo hi : Z) (deltaY mouseX : Q) :
  domain x = (Some d0, Some d1) ->
  clampBounds st = (Some lo, Some hi) ->
  exists a ps pe : Z,
    scale_invert x (qnum mouseX) = Some a
    /\ ps = JS.truncate (inject_Z a - (inject_Z a - inject_Z d0) * wheelK deltaY)
    /\ pe = JS.truncate (inject_Z a + (inject_Z d1 - inject_Z a) * wheelK deltaY)
    /\ wheelRequest host st x deltaY mouseX
       = let '(start2, end2) :=
           clampDomain (dateOfConcat host) (Some ps, Some pe) (Some lo, Some hi) in
         if (+' end2 -' +' start2) <=' JS.ofZ MIN_SPAN_MS then Ignored
         else if (JS.eq (+' Some d0) (+' Some lo) && JS.eq (+' Some d1) (+' Some hi))
                 && (JS.eq (+' start2) (+' Some lo) && JS.eq (+' end2) (+' Some hi))
                 && JS.Qltb 0 deltaY
              then Ignored
              else Redraw start2 end2
                          (spanChanged (+' end2 -' +' start2)
                                       (+' Some d1 -' +' Some d0)).
Proof.
  intros Hdom Hb.
  destruct (scale_invert_date x d0 d1 mouseX Hdom) as [a Ha].
  exists a. eexists. eexists. split; [exact Ha|]. split; [reflexivity|].
  split; [reflexivity|].
  unfold wheelRequest. rewrite Hdom, Hb, Ha. cbn [fst snd]. unfold wheelProposal.
  set (k := wheelK deltaY).
  assert (VS : Nval (+' Some a -' (+' Some a -' +' Some d0) *' qnum k)
                    (inject_Z a - (inject_Z a - inject_Z d0) * k)) by nval.
  assert (VE : Nval (+' Some a +' (+' Some d1 -' +' Some a) *' qnum k)
                    (inject_Z a + (inject_Z d1 - inject_Z a) * k)) by nval.
  rewrite (newDate_Nval _ _ VS), (newDate_Nval _ _ VE). reflexivity.
Qed.

(** A window the handler does not have to clamp is applied as it is. *)
Lemma wheelRequest_fits (host : Host) (st : State) (x : Scale)
      (d0 d1 lo hi : Z) (deltaY mouseX : Q) :
  domain x = (Some d0, Some d1) ->
  clampBounds st = (Some lo, Some hi) ->
  exists a ps pe : Z,
    scale_invert x (qnum mouseX) = Some a
    /\ ps = JS.truncate (inject_Z a - (inject_Z a - inject_Z d0) * wheelK deltaY)
    /\ pe = JS.truncate (inject_Z a + (inject_Z d1 - inject_Z a) * wheelK deltaY)
    /\ (forall s e r,
           wheelRequest host st x deltaY mouseX = Redraw s e r ->
           (s, e) = clampDomain (dateOfConcat host) (Some ps, Some pe)
                                (Some lo, Some hi))
    /\ ((lo <= ps)%Z -> (pe <= hi)%Z -> (pe - ps < hi - lo)%Z ->
        (MIN_SPAN_MS < pe - ps)%Z ->
        wheelRequest host st x deltaY mouseX
        = Redraw (Some ps) (Some pe) (5 <? Z.abs (pe - ps - (d1 - d0)))%Z).
Proof.
  intros Hdom Hb.
  destruct (wheelRequest_proposal host st x d0 d1 lo hi deltaY mouseX Hdom Hb)
    as (a & ps & pe & Ha & Hps & Hpe & Hreq).
  exists a, ps, pe. split; [exact Ha|]. split; [exact Hps|]. split; [exact Hpe|].
  split.
  - intros s e r. rewrite Hreq.
    destruct (clampDomain _ _ _) as [start2 end2].
    destruct ((+' end2 -' +' start2) <=' JS.ofZ MIN_SPAN_MS); [discriminate|].
    destruct (_ && _ && JS.Qltb 0 deltaY); [discriminate|].
    intros E. injection E as <- <- _. reflexivity.
  - intros Hlo Hhi Hnarrow Hmin. rewrite Hreq.
    rewrite (clampDomain_inside _ _ _ _ _ Hlo Hhi Hnarrow) by lia.
    rewrite span_le_ofZ.
    replace (pe - ps <=? MIN_SPAN_MS)%Z with false by (symmetry; apply Z.leb_gt; lia).
    rewrite !(Nval_eqb _ _ _ _ (Nval_valueOf _) (Nval_valueOf _)).
    assert (Hwant : Qeq_bool (inject_Z ps) (inject_Z lo)
                    && Qeq_bool (inject_Z pe) (inject_Z hi) = false).
    { destruct (Qeq_bool (inject_Z ps) (inject_Z lo)) eqn:E1; [|reflexivity].
      destruct (Qeq_bool (inject_Z pe) (inject_Z hi)) eqn:E2; [|reflexivity].
      apply Qeq_bool_iff in E1. apply Qeq_bool_iff in E2.
      rewrite inject_Z_injective in E1, E2. exfalso. lia. }
    rewrite Hwant, andb_false_r. cbn [andb]. f_equal.
    apply spanChanged_Z; apply Nval_Zsub; apply Nval_valueOf.
Qed.



(** ** The scale and the offset cache *)

(** The position of the instant [t] on a scale with domain [[s0, e0]] and
    range [[r0, r1]]. *)
Lemma scale_apply_Nval (x : Scale) (s0 e0 t : Z) (r0 r1 : Q) :
  domain x = (Some s0, Some e0) -> range x = (r0, r1) -> s0 <> e0 ->
  Nval (scale_apply x (Some t))
       (r0 * (1 - (inject_Z t - inject_Z s0) / (inject_Z e0 - inject_Z s0))
        + r1 * ((inject_Z t - inject_Z s0) / (inject_Z e0 - inject_Z s0))).
Proof.
  intros Hdom Hrng Hne. unfold scale_apply. rewrite Hdom, Hrng.
  assert (Hw : ~ inject_Z e0 - inject_Z s0 == 0).
  { intros E. apply Hne. symmetry. apply inject_Z_injective. lra. }
  assert (Vu : Nval (normalize (+' Some s0) (+' Some e0) (+' Some t))
                    ((inject_Z t - inject_Z s0) / (inject_Z e0 - inject_Z s0))).
  { unfold normalize. cbn [JS.valueOf option_map JS.sub JS.lift2].
    destruct (Qeq_bool (inject_Z e0 - inject_Z s0) 0) eqn:E.
    - apply Qeq_bool_iff in E. contradiction.
    - apply Nval_div; [nval|apply Nval_qnum|exact Hw]. }
  unfold interpolate. nval.
Qed.

(** What [cacheOffsets] leaves on a node. *)
Lemma cacheOffsets_spec (x : Scale) (data : list Event) (d' : Event) :
  In d' (cacheOffsets x data) ->
  exists d, In d data
            /\ date d' = date d /\ nodeX d' = nodeX d /\ nodeY d' = nodeY d
            /\ ySim d' = Some (nodeY d)
            /\ xOffset d' = Some (orZero (nodeX d -' scale_apply x (Some (date d)))).
Proof.
  unfold cacheOffsets. rewrite in_map_iff. intros [d [<- Hd]].
  exists d. cbn. tauto.
Qed.

Lemma panRequest_no_repack (host : Host) (bounds : Domain) (x : Scale) (dxPx : Q) :
  exists start end_, panRequest host bounds x dxPx = Redraw start end_ false.
Proof.
  unfold panRequest. destruct (clampDomain _ _ _) as [s e]. eauto.
Qed.

(** What a pan asks for, on a domain that [clampDomain] does not have to
    widen or to snap. *)
Lemma panRequest_span_kept :
  forall (host : Host) (x : Scale) (s0 e0 lo hi : Z) (dxPx : Q),
    domain x = (Some s0, Some e0) ->
    (MIN_SPAN_MS <= e0 - s0)%Z -> (e0 - s0 < hi - lo)%Z ->
    exists a0 a1 start end_,
      scale_invert x (qnum 0) = Some a0
      /\ scale_invert x (qnum dxPx) = Some a1
      /\ panRequest host (Some lo, Some hi) x dxPx = Redraw start end_ false
      /\ ((lo <= s0 + (a0 - a1))%Z ->
          exists s' e',
            start = Some s' /\ end_ = Some e'
            /\ (e' - s' = e0 - s0)%Z /\ (lo <= s')%Z /\ (e' <= hi)%Z
            /\ ((e0 + (a0 - a1) <= hi)%Z -> s' = (s0 + (a0 - a1))%Z)).
Proof.
  intros host x s0 e0 lo hi dxPx Hdom Hmin Hspan.
  destruct (scale_invert_date x s0 e0 0 Hdom) as [a0 Ha0].
  destruct (scale_invert_date x s0 e0 dxPx Hdom) as [a1 Ha1].
  exists a0, a1. unfold panRequest. rewrite Ha0, Ha1, Hdom. cbn [fst snd].
  pose proof (Nval_Zsub _ _ _ _ (Nval_valueOf a0) (Nval_valueOf a1)) as Vdt.
  rewrite (newDate_Z _ _ (Nval_Zadd _ _ _ _ (Nval_valueOf s0) Vdt)).
  rewrite (newDate_Z _ _ (Nval_Zadd _ _ _ _ (Nval_valueOf e0) Vdt)).
  destruct (clampDomain _ _ _) as [start end_] eqn:Eclamp.
  exists start, end_. split; [reflexivity|]. split; [reflexivity|].
  split; [reflexivity|]. intros Hlo.
  destruct (clampDomain_span_kept (dateOfConcat host) (s0 + (a0 - a1)) (e0 + (a0 - a1))
                                  lo hi Hlo ltac:(lia) ltac:(lia))
    as (s' & e' & Hc & Hkeep & Hs' & He' & Hfit & _).
  assert (E : (start, end_) = (Some s', Some e')) by (rewrite <- Eclamp; exact Hc).
  injection E as -> ->.
  exists s', e'. repeat split; lia.
Qed.


(** What holds of C5.  A drag and a one-finger pan on a chart that shows
    dots leave the data array, and so every cached [xOffset], [ySim] and
    [y], as it was, keep the range of the scale, and put each circle at its
    position on the new scale plus its cached offset, at its cached
    height. *)
Lemma pan_reprojects_cached_offsets (host : Host) (st : State) (x : Scale)
      (bounds : Domain) (dxPx : Q) :
  dots st <> [] ->
  let st' := perform host st x (boundData st) (panRequest host bounds x dxPx) in
  boundData st' = boundData st
  /\ exists x',
       currentXScale st' = Some x' /\ range x' = range x
       /\ panRequest host bounds x dxPx = Redraw (fst (domain x')) (snd (domain x')) false
       /\ dots st'
          = map (fun d =>
                   (scale_apply x' (Some (date d))
                    +' match xOffset d with
                       | Some off => orZero off
                       | None => qnum 0
                       end,
                    match ySim d with
                    | Some v => v
                    | None => nodeY d
                    end))
                (boundData st).
Proof.
  intros Hdots st'. subst st'.
  destruct (panRequest_no_repack host bounds x dxPx) as (start & end_ & ->).
  cbn [perform]. unfold setDomainAndRedraw. cbn [boundData with_chart currentXScale dots].
  split; [reflexivity|].
  exists (set_domain x start end_). split; [reflexivity|]. split; [reflexivity|].
  split; [reflexivity|].
  destruct (dots st); [congruence|]. reflexivity.
Qed.

Lemma drag_is_pan (host : Host) (st : State) (x : Scale) (dxPx : Q) :
  currentXScale st = Some x ->
  drag host st dxPx
  = perform host st x (boundData st) (panRequest host (clampBounds st) x dxPx)
  /\ touchPan host st dxPx
     = perform host st x (boundData st) (panRequest host (touchBounds st) x dxPx).
Proof.
  intros Hx. unfold drag, touchPan, onHandlers, dragRequest, touchPanRequest.
  rewrite Hx. split; reflexivity.
Qed.

(** On a domain at least [MIN_SPAN_MS] wide and narrower than the bounds,
    a pan that does not push the window below the lower bound keeps the
    width of the domain, and every position on the scale moves by the same
    amount: the image of the shift of the domain. *)
Lemma pan_shifts_every_position (host : Host) (x : Scale) (s0 e0 lo hi : Z)
      (r0 r1 dxPx : Q) :
  domain x = (Some s0, Some e0) -> range x = (r0, r1) ->
  (MIN_SPAN_MS <= e0 - s0)%Z -> (e0 - s0 < hi - lo)%Z ->
  exists a0 a1 s1 e1,
    scale_invert x (qnum 0) = Some a0
    /\ scale_invert x (qnum dxPx) = Some a1
    /\ ((lo <= s0 + (a0 - a1))%Z ->
        panRequest host (Some lo, Some hi) x dxPx = Redraw (Some s1) (Some e1) false
        /\ (e1 - s1 = e0 - s0)%Z
        /\ forall t : Z,
             exists c c',
               Nval (scale_apply x (Some t)) c
               /\ Nval (scale_apply (set_domain x (Some s1) (Some e1)) (Some t)) c'
               /\ c' - c == (inject_Z s0 - inject_Z s1)
                            / (inject_Z e0 - inject_Z s0) * (r1 - r0)).
Proof.
  intros Hdom Hrng Hmin Hspan.
  destruct (panRequest_span_kept host x s0 e0 lo hi dxPx Hdom Hmin Hspan)
    as (a0 & a1 & start & end_ & Ha0 & Ha1 & Hreq & Hkept).
  destruct (Z_le_gt_dec lo (s0 + (a0 - a1))) as [Hlo|Hlo].
  - destruct (Hkept Hlo) as (s1 & e1 & -> & -> & Hw & _).
    exists a0, a1, s1, e1. split; [exact Ha0|]. split; [exact Ha1|].
    intros _. split; [exact Hreq|]. split; [exact Hw|].
    intros t.
    assert (Hpos : (0 < e0 - s0)%Z) by (unfold MIN_SPAN_MS in Hmin; lia).
    pose proof (scale_apply_Nval x s0 e0 t r0 r1 Hdom Hrng ltac:(lia)) as V.
    pose proof (scale_apply_Nval (set_domain x (Some s1) (Some e1)) s1 e1 t r0 r1
                                 eq_refl Hrng ltac:(lia)) as V'.
    eexists _, _. split; [exact V|]. split; [exact V'|].
    assert (Hwq : inject_Z e1 - inject_Z s1 == inject_Z e0 - inject_Z s0).
    { rewrite <- !inject_Z_sub. now rewrite Hw. }
    assert (Hnz : ~ inject_Z e0 - inject_Z s0 == 0).
    { intros E. rewrite <- inject_Z_sub in E.
      change 0 with (inject_Z 0) in E. rewrite inject_Z_injective in E. lia. }
    rewrite Hwq. field. exact Hnz.
  - exists a0, a1, 0%Z, 0%Z. split; [exact Ha0|]. split; [exact Ha1|].
    intros H. exfalso. lia.
Qed.

(** [setDomainAndRedraw] moves circles and creates none: on a chart
    without dots, which is what a filter that lets no row pass leaves, no
    gesture makes one appear. *)
Lemma gesture_shows_no_new_dot (host : Host) (st : State) (g : Gesture) :
  dots st = [] -> dots (gesture host st g) = [].
Proof.
  intros Hdots.
  assert (Hperform : forall x data r, dots (perform host st x data r) = []).
  { intros x data [|start end_ repack]; cbn [perform]; [exact Hdots|].
    unfold setDomainAndRedraw. cbn [dots with_chart]. now rewrite Hdots. }
  destruct g; cbn [gesture]; unfold wheel, drag, touchPan, pinch, zoomBy, onHandlers;
    destruct (currentXScale st); auto.
Qed.

(** C5, at a failing input: a chart whose domain is narrower than
    [MIN_SPAN_MS], which is what [drawChart] leaves after a filter has kept
    two rows five days apart.  A drag by 10 pixels there makes
    [clampDomain] widen the window to 30 days, and the drag handler redraws
    with it without repacking: the cached offsets stay 5 and the heights
    170, each circle is at its new position on the scale plus 5, but the
    left circle moves right by 418 1/3 pixels and the right one left by
    415, not both by the 10 pixels of the drag.  The one-finger pan does
    the same. *)
Theorem pan_on_narrow_domain_rescales :
  currentDomain nudgedPage = Some (Some (50 * day)%Z, Some (55 * day)%Z)
  /\ clampBounds nudgedPage = (Some 0%Z, Some (100 * day)%Z)
  /\ shownCircles nudgedPage = [(Some 45, Some 170); (Some 1045, Some 170)]
  /\ cachedOffsets (boundData nudgedPage) = [Some (Some 5); Some (Some 5)]
  /\ dragRequest nudgingHost nudgedPage
                 (mkScale (Some (50 * day)%Z, Some (55 * day)%Z) (40, 1040)) 10
     = Redraw (Some 3235680000%Z) (Some 5827680000%Z) false
  /\ boundData (drag nudgingHost nudgedPage 10) = boundData nudgedPage
  /\ shownCircles (drag nudgingHost nudgedPage 10)
     = [(Some (1390 # 3), Some 170); (Some 630, Some 170)]
  /\ shownCircles (touchPan nudgingHost nudgedPage 10)
     = [(Some (1390 # 3), Some 170); (Some 630, Some 170)].
Proof.
  do 7 (split; [vm_compute; reflexivity|]). vm_compute. reflexivity.
Qed.

(** ** Label stacking *)

Section Stacking.

Variable placedLabels : list Placed.
Variables labelX1 labelX2 : Q.

Lemma collides_level (lvl : nat) (l : Placed) :
  collides labelX1 labelX2 lvl l = true -> level l = lvl.
Proof.
  unfold collides. rewrite negb_true_iff, !orb_false_iff, negb_false_iff.
  intros [_ H]. apply Nat.eqb_eq in H. now symmetry.
Qed.

Lemma occupied_step (lvl : nat) :
  existsb (collides labelX1 labelX2 lvl) placedLabels = true ->
  (occupied placedLabels (S lvl) < occupied placedLabels lvl)%nat.
Proof.
  unfold occupied.
  induction placedLabels as [|l ls IH]; cbn [existsb filter Datatypes.length];
    [discriminate|].
  intros H. apply orb_true_iff in H.
  assert (Hmono : (List.length (filter (fun l => (S lvl <=? level l)%nat) ls)
                   <= List.length (filter (fun l => (lvl <=? level l)%nat) ls))%nat).
  { clear. induction ls as [|a ls IH]; cbn [filter Datatypes.length]; [lia|].
    destruct (S lvl <=? level a)%nat eqn:E1, (lvl <=? level a)%nat eqn:E2;
      cbn [Datatypes.length]; try lia.
    apply Nat.leb_le in E1. apply Nat.leb_gt in E2. lia. }
  destruct (collides labelX1 labelX2 lvl l) eqn:Ec.
  - apply collides_level in Ec. rewrite Ec.
    replace (S lvl <=? lvl)%nat with false by (symmetry; apply Nat.leb_gt; lia).
    rewrite Nat.leb_refl. cbn [Datatypes.length]. lia.
  - destruct H as [H|H]; [discriminate|]. specialize (IH H).
    destruct (S lvl <=? level l)%nat eqn:E1, (lvl <=? level l)%nat eqn:E2;
      cbn [Datatypes.length]; try lia.
    apply Nat.leb_le in E1. apply Nat.leb_gt in E2. lia.
Qed.

(** The loop stops within the fuel whenever the fuel covers the rows that
    are occupied from [lvl] up, and stops at a free row. *)
Lemma findLevel_total (fuel lvl : nat) :
  (occupied placedLabels lvl <= fuel)%nat ->
  exists found,
    findLevel fuel placedLabels labelX1 labelX2 lvl = Some found
    /\ existsb (collides labelX1 labelX2 found) placedLabels = false.
Proof.
  revert lvl. induction fuel as [|fuel IH]; intros lvl Hocc; cbn;
    destruct (existsb (collides labelX1 labelX2 lvl) placedLabels) eqn:E;
    try (exists lvl; split; [reflexivity|exact E]).
  - apply occupied_step in E. lia.
  - apply IH. apply occupied_step in E. lia.
Qed.

(** [levelFor] is the level the loop of the source ends with. *)
Lemma levelFor_spec :
  findLevel (List.length placedLabels) placedLabels labelX1 labelX2 0
  = Some (levelFor placedLabels labelX1 labelX2)
  /\ existsb (collides labelX1 labelX2 (levelFor placedLabels labelX1 labelX2))
             placedLabels = false.
Proof.
  destruct (findLevel_total (List.length placedLabels) 0) as [found [Hf Hc]].
  - unfold occupied. apply filter_length_le.
  - unfold levelFor. rewrite Hf. split; [reflexivity|exact Hc].
Qed.

End Stacking.

Lemma ForallOrdPairs_snoc {A : Type} (R : A -> A -> Prop) (l : list A) (a : A) :
  ForallOrdPairs R l -> Forall (fun p => R p a) l -> ForallOrdPairs R (l ++ [a]).
Proof.
  induction 1 as [|b l Hb Hl IH]; intros Ha; cbn.
  - constructor; constructor.
  - inversion Ha as [|? ? Hba Ha']; subst. constructor.
    + apply Forall_app. split; [exact Hb|]. constructor; [exact Hba|constructor].
    + now apply IH.
Qed.

Section StackingInvariant.

Variable x : Scale.
Variable data : list Event.
Variables width DOT_CENTER_Y : Q.

Lemma placeOne_clear (acc : list Placed * list Annotation) (d : Event) :
  ForallOrdPairs clearOf (fst acc) ->
  ForallOrdPairs clearOf (fst (placeOne x data width DOT_CENTER_Y acc d)).
Proof.
  destruct acc as [placed drawn]. unfold placeOne. intros Hinv.
  destruct (scale_apply x (Some (date d))) as [xPos|]; [|exact Hinv].
  cbn [fst]. apply ForallOrdPairs_snoc; [exact Hinv|].
  set (X1 := xPos - _ / 2). set (X2 := xPos + _ / 2).
  destruct (levelFor_spec placed X1 X2) as [_ Hfree].
  apply Forall_forall. intros p Hp.
  assert (Hc : collides X1 X2 (levelFor placed X1 X2) p = false).
  { destruct (collides X1 X2 (levelFor placed X1 X2) p) eqn:E; [|reflexivity].
    assert (existsb (collides X1 X2 (levelFor placed X1 X2)) placed = true)
      by (apply existsb_exists; eauto).
    congruence. }
  unfold collides in Hc. rewrite negb_false_iff, !orb_true_iff in Hc.
  unfold clearOf, labelPadding. cbn [level x1 x2]. intros Hlvl.
  destruct Hc as [[Hc|Hc]|Hc].
  - apply Qltb_lt in Hc. left. lra.
  - apply Qltb_lt in Hc. right. lra.
  - rewrite negb_true_iff in Hc. apply Nat.eqb_neq in Hc. congruence.
Qed.

Lemma placeLabels_clear (events : list Event) (acc : list Placed * list Annotation) :
  ForallOrdPairs clearOf (fst acc) ->
  ForallOrdPairs clearOf (fst (fold_left (placeOne x data width DOT_CENTER_Y) events acc)).
Proof.
  revert acc. induction events as [|d events IH]; intros acc Hinv; cbn.
  - exact Hinv.
  - apply IH. now apply placeOne_clear.
Qed.

End StackingInvariant.

(** *** Sorting by date *)

Lemma insertByDate_last (d : Event) (sorted : list Event) :
  Forall (fun e => (date e <= date d)%Z) sorted ->
  insertByDate d sorted = sorted ++ [d].
Proof.
  induction 1 as [|e sorted He _ IH]; cbn.
  - reflexivity.
  - replace (date d <? date e)%Z with false by (symmetry; apply Z.ltb_ge; lia).
    now rewrite IH.
Qed.

Lemma sortByDate_sorted_from (events acc : list Event) :
  dateSorted events ->
  Forall (fun a => Forall (fun e => (date a <= date e)%Z) events) acc ->
  fold_left (fun acc d => insertByDate d acc) events acc = acc ++ events.
Proof.
  revert acc. induction events as [|d events IH]; intros acc Hs Hacc; cbn.
  - now rewrite app_nil_r.
  - destruct Hs as [Hd Hs]. rewrite insertByDate_last.
    + rewrite IH; [now rewrite <- app_assoc|exact Hs|].
      apply Forall_app. split.
      * eapply Forall_impl; [|exact Hacc]. intros a Ha. now inversion Ha.
      * constructor; [exact Hd|constructor].
    + eapply Forall_impl; [|exact Hacc]. intros a Ha. now inversion Ha.
Qed.

(** Sorting an array that is already in date order leaves it as it is. *)
Lemma sortByDate_sorted (events : list Event) :
  dateSorted events -> sortByDate events = events.
Proof.
  intros H. unfold sortByDate. now rewrite sortByDate_sorted_from.
Qed.

(** C6, as amended.  On one row the unpadded extent of a later label lies
    strictly outside the padded extent of every earlier one, so the labels
    themselves are more than [labelPadding] apart; the padded extents may
    meet.  The loop that looks for the row always ends, and the placements
    are a function of the key events in date order: an array already in
    that order is placed as it stands. *)
Theorem labels_on_a_row_keep_clear :
  forall (x : Scale) (data : list Event) (width centerY : Q) (keyEvents : list Event),
    ForallOrdPairs clearOf (fst (placeLabels x data width centerY keyEvents))
    /\ (forall placed labelX1 labelX2,
           findLevel (List.length placed) placed labelX1 labelX2 0
           = Some (levelFor placed labelX1 labelX2))
    /\ (dateSorted keyEvents ->
        placeLabels x data width centerY keyEvents
        = fold_left (placeOne x data width centerY) keyEvents ([], [])).
Proof.
  intros x data width centerY keyEvents. split; [|split].
  - unfold placeLabels. apply placeLabels_clear. constructor.
  - intros placed a b. apply levelFor_spec.
  - intros Hs. unfold placeLabels. now rewrite sortByDate_sorted.
Qed.

Lemma labels_on_a_row_keep_clear_witness :
  placeLabels thousandDays [] 1080 168 closeKeyEvents
  = fold_left (placeOne thousandDays [] 1080 168) closeKeyEvents ([], []).
Proof.
  refine (proj2 (proj2 (labels_on_a_row_keep_clear
                          thousandDays [] 1080 168 closeKeyEvents)) _).
  simpl. repeat constructor; vm_compute; discriminate.
Defined.

(** C6, as stated, fails: two labels placed on row 0 whose padded extents
    overlap. *)
Lemma labels_padded_extents_overlap :
  exists p q,
    fst (placeLabels thousandDays [] 1080 168 closeKeyEvents) = [p; q]
    /\ level p = level q
    /\ paddedOverlap p q.
Proof.
  eexists _, _. split; [vm_compute; reflexivity|].
  split; [reflexivity|].
  split; vm_compute; discriminate.
Qed.

(** ** The clamp bounds *)

Section Bounds.

Variable host : Host.

Lemma sameData_refl (st : State) : sameData st st.
Proof. split; reflexivity. Qed.

Lemma sameData_trans (a b c : State) : sameData a b -> sameData b c -> sameData a c.
Proof. intros [H1 H2] [H3 H4]. split; congruence. Qed.

Lemma setDomainAndRedraw_sameData st x data start end_ repack :
  sameData st (setDomainAndRedraw host st x data start end_ repack).
Proof. split; reflexivity. Qed.

Lemma drawChart_sameData st data : sameData st (drawChart host st data).
Proof.
  unfold drawChart. destruct data as [|d data]; [split; reflexivity|].
  cbn [didInitialFit FULL_EXTENT with_chart].
  destruct (didInitialFit st); [split; reflexivity|].
  destruct (FULL_EXTENT st) as [[lo hi]|] eqn:E; split; cbn; congruence.
Qed.

Lemma updateChart_sameData st : sameData st (updateChart host st).
Proof.
  unfold updateChart.
  eapply sameData_trans; [|apply drawChart_sameData]. split; reflexivity.
Qed.

Lemma control_sameData st c : sameData st (control host st c).
Proof.
  unfold control. eapply sameData_trans; [|apply updateChart_sameData].
  destruct c; split; reflexivity.
Qed.

Lemma perform_sameData st x data r : sameData st (perform host st x data r).
Proof.
  destruct r; [apply sameData_refl|apply setDomainAndRedraw_sameData].
Qed.

Lemma gesture_sameData st g : sameData st (gesture host st g).
Proof.
  destruct g; cbn [gesture]; unfold wheel, drag, touchPan, pinch, zoomBy, onHandlers;
    destruct (currentXScale st);
    first [apply sameData_refl | apply perform_sameData].
Qed.

Lemma load_data st0 rows :
  rawData (load host st0 rows) = rows
  /\ FULL_EXTENT (load host st0 rows) = Some (d3_extent rows).
Proof.
  unfold load.
  destruct (updateChart_sameData
              (setupFilters host (with_rawData st0 rows (Some (d3_extent rows)))))
    as [H1 H2].
  rewrite H1, H2. split; reflexivity.
Qed.

(** Once the CSV has loaded, [rawData] and [FULL_EXTENT] stay what the
    load made them. *)
Lemma reachable_data st0 rows st :
  reachable host st0 rows st ->
  rawData st = rows /\ FULL_EXTENT st = Some (d3_extent rows).
Proof.
  induction 1 as [|st c _ [IH1 IH2]|st g _ [IH1 IH2]].
  - apply load_data.
  - destruct (control_sameData st c) as [H1 H2]. split; congruence.
  - destruct (gesture_sameData st g) as [H1 H2]. split; congruence.
Qed.

End Bounds.

(** ** Zooming out with the button *)

(** The window the zoom-out button computes from a domain [D] wide is the
    full extent or is wider than [D]; it is the full extent as soon as [D]
    is not below the width of the full extent. *)
Lemma zoomWindowNum_out (c sp : Q) (D lo hi : Z) :
  sp == inject_Z D * (5 # 4) -> (8 <= D)%Z ->
  let '(ns, ne) := zoomWindowNum c sp lo hi in
  ((ns, ne) = (lo, hi) \/ (D < ne - ns)%Z)
  /\ ((hi - lo <= D)%Z -> (ns, ne) = (lo, hi)).
Proof.
  intros Hsp HD. unfold zoomWindowNum.
  pose proof (truncate_lower (c - sp / 2)) as A1.
  pose proof (truncate_upper (c - sp / 2)) as A2.
  pose proof (truncate_lower (c + sp / 2)) as B1.
  pose proof (truncate_upper (c + sp / 2)) as B2.
  pose proof (truncate_lower (inject_Z lo + sp)) as L1.
  pose proof (truncate_upper (inject_Z lo + sp)) as L2.
  pose proof (truncate_lower (inject_Z hi - sp)) as H1.
  pose proof (truncate_upper (inject_Z hi - sp)) as H2.
  set (tA := JS.truncate (c - sp / 2)) in *.
  set (tB := JS.truncate (c + sp / 2)) in *.
  set (tL := JS.truncate (inject_Z lo + sp)) in *.
  set (tH := JS.truncate (inject_Z hi - sp)) in *.
  clearbody tA tB tL tH.
  toQ HD. change (inject_Z 8) with 8 in HD.
  destruct (hi - lo <? tB - tA)%Z eqn:E1.
  - rewrite !Z.ltb_irrefl. split; auto.
  - toQ E1.
    assert (Hnarrow : inject_Z D < inject_Z hi - inject_Z lo) by lraq.
    destruct (tA <? lo)%Z eqn:E2.
    + destruct (hi <? tL)%Z eqn:E3.
      * split.
        -- right. rewrite Zlt_Qlt, inject_Z_sub. lraq.
        -- intros H. toQ H. lra.
      * split.
        -- right. rewrite Zlt_Qlt, inject_Z_sub. lraq.
        -- intros H. toQ H. lra.
    + destruct (hi <? tB)%Z eqn:E3.
      * split.
        -- right. rewrite Zlt_Qlt, inject_Z_sub. lraq.
        -- intros H. toQ H. lra.
      * split.
        -- right. rewrite Zlt_Qlt, inject_Z_sub. lraq.
        -- intros H. toQ H. lra.
Qed.

Section ZoomOut.

Variable host : Host.

Lemma set_positions_length (data : list Event) (pos : list (JS.Number * JS.Number)) :
  List.length (set_positions data pos) = List.length data.
Proof.
  revert pos. induction data as [|d data IH]; intros [|[px py] pos]; cbn;
    try reflexivity.
  now rewrite IH.
Qed.

Lemma repack_nonempty (x : Scale) (centerY : Q) (data : list Event) :
  data <> [] -> cacheOffsets x (packDots host x centerY data) <> [].
Proof.
  intros Hd Hnil. apply (f_equal (@List.length Event)) in Hnil.
  unfold cacheOffsets, packDots in Hnil.
  rewrite length_map, set_positions_length in Hnil.
  destruct data; [congruence|discriminate].
Qed.

(** One press of the zoom-out button on a domain at least [MIN_SPAN_MS]
    wide: the new domain is the full extent or a strictly wider one. *)
Lemma zoomOut_step (st : State) (x : Scale) (d0 d1 lo hi : Z) :
  currentXScale st = Some x -> domain x = (Some d0, Some d1) ->
  filteredData st <> [] ->
  FULL_EXTENT st = Some (Some lo, Some hi) ->
  (MIN_SPAN_MS <= d1 - d0)%Z -> (MIN_SPAN_MS <= hi - lo)%Z ->
  exists x' ns ne,
    currentXScale (zoomOut host st) = Some x'
    /\ domain x' = (Some ns, Some ne)
    /\ filteredData (zoomOut host st) <> []
    /\ FULL_EXTENT (zoomOut host st) = Some (Some lo, Some hi)
    /\ ((ns, ne) = (lo, hi) \/ (d1 - d0 < ne - ns)%Z)
    /\ ((hi - lo <= d1 - d0)%Z -> (ns, ne) = (lo, hi)).
Proof.
  intros Hx Hdom Hdata Hfull HD HM.
  assert (Hb : clampBounds st = (Some lo, Some hi))
    by (unfold clampBounds; now rewrite Hfull).
  assert (Hw := zoomByWindow_num st x d0 d1 lo hi (4 # 5) None Hdom Hb
                                 ltac:(intros E; vm_compute in E; discriminate E)).
  cbn [option_map] in Hw.
  assert (Hsp : (inject_Z d1 - inject_Z d0) / (4 # 5) == inject_Z (d1 - d0) * (5 # 4)).
  { rewrite inject_Z_sub. field. }
  assert (H8 : (8 <= d1 - d0)%Z) by (unfold MIN_SPAN_MS in HD; lia).
  pose proof (zoomWindowNum_out (zoomCenter d0 d1 None) _ (d1 - d0) lo hi Hsp H8)
    as Hout.
  destruct (zoomWindowNum (zoomCenter d0 d1 None)
                          ((inject_Z d1 - inject_Z d0) / (4 # 5)) lo hi)
    as [ns ne].
  destruct Hout as [Hgrow Hfullw].
  assert (Hmin : (MIN_SPAN_MS <= ne - ns)%Z).
  { destruct Hgrow as [E|E]; [inversion E; subst; exact HM|lia]. }
  pose proof (zoomBy_accepts_from_min_span st x (4 # 5) None ns ne Hx Hdata Hw Hmin)
    as Hreq.
  exists (set_domain x (Some ns) (Some ne)), ns, ne.
  unfold zoomOut, zoomBy. rewrite Hx, Hreq. cbn [perform].
  split; [reflexivity|]. split; [reflexivity|]. split.
  - unfold setDomainAndRedraw. cbn [filteredData with_chart].
    destruct (filteredData st) as [|d ds] eqn:E; [congruence|].
    apply repack_nonempty. discriminate.
  - split; [exact Hfull|]. split; assumption.
Qed.

(** Pressing the zoom-out button often enough brings the domain to the
    full extent. *)
Lemma zoomOut_reaches_full_extent (lo hi : Z) (n : nat) :
  (MIN_SPAN_MS <= hi - lo)%Z ->
  forall (st : State) (x : Scale) (d0 d1 : Z),
    currentXScale st = Some x -> domain x = (Some d0, Some d1) ->
    filteredData st <> [] ->
    FULL_EXTENT st = Some (Some lo, Some hi) ->
    (MIN_SPAN_MS <= d1 - d0)%Z ->
    (hi - lo - (d1 - d0) < Z.of_nat n)%Z ->
    exists k, currentDomain (Nat.iter k (zoomOut host) st) = Some (Some lo, Some hi).
Proof.
  intros HM. induction n as [|n IH]; intros st x d0 d1 Hx Hdom Hdata Hfull HD Hn;
    destruct (zoomOut_step st x d0 d1 lo hi Hx Hdom Hdata Hfull HD HM)
      as (x' & ns & ne & Hx' & Hdom' & Hdata' & Hfull' & Hgrow & Hdone).
  - exists 1%nat. cbn [Nat.iter nat_rect]. unfold currentDomain.
    rewrite Hx'. cbn [option_map]. rewrite Hdom'.
    specialize (Hdone ltac:(lia)). inversion Hdone. reflexivity.
  - destruct Hgrow as [E|E].
    + exists 1%nat. cbn [Nat.iter nat_rect]. unfold currentDomain.
      rewrite Hx'. cbn [option_map]. rewrite Hdom'. inversion E. reflexivity.
    + destruct (IH (zoomOut host st) x' ns ne Hx' Hdom' Hdata' Hfull'
                   ltac:(lia) ltac:(lia)) as [k Hk].
      exists (S k). rewrite Nat.iter_succ_r. exact Hk.
Qed.

End ZoomOut.

(** What holds of C2.  In every state the page reaches once the CSV has
    loaded, each gesture clamps to the extent of all rows as it was computed
    at the load: what a handler asks for is the same in any two such states,
    whatever the filters have left in [filteredData].  A proposed window at
    least as wide as that extent is answered by [clampDomain] with the
    extent itself, and from a domain at least [MIN_SPAN_MS] wide on a chart
    with data the zoom-out button reaches that extent after finitely many
    presses. *)
Theorem gestures_clamp_to_full_extent :
  forall (host : Host) (st0 : State) (rows : list Event) (st : State),
    reachable host st0 rows st ->
    (clampBounds st = d3_extent rows /\ touchBounds st = d3_extent rows)
    /\ (forall st2 x,
           reachable host st0 rows st2 ->
           (forall deltaY mouseX,
               wheelRequest host st2 x deltaY mouseX = wheelRequest host st x deltaY mouseX)
           /\ (forall dxPx, dragRequest host st2 x dxPx = dragRequest host st x dxPx)
           /\ (forall dxPx,
                  touchPanRequest host st2 x dxPx = touchPanRequest host st x dxPx)
           /\ (forall baseDomain k localX,
                  pinchRequest host st2 x baseDomain k localX
                  = pinchRequest host st x baseDomain k localX)
           /\ (forall factor anchorDate,
                  zoomByWindow st2 x factor anchorDate
                  = zoomByWindow st x factor anchorDate))
    /\ (forall lo hi s e,
           d3_extent rows = (Some lo, Some hi) -> (hi - lo <= e - s)%Z ->
           clampDomain (dateOfConcat host) (Some s, Some e) (clampBounds st)
           = (Some lo, Some hi))
    /\ (forall lo hi x d0 d1,
           d3_extent rows = (Some lo, Some hi) ->
           currentXScale st = Some x -> domain x = (Some d0, Some d1) ->
           filteredData st <> [] ->
           (MIN_SPAN_MS <= d1 - d0)%Z -> (MIN_SPAN_MS <= hi - lo)%Z ->
           exists k,
             currentDomain (Nat.iter k (zoomOut host) st) = Some (Some lo, Some hi)).
Proof.
  intros host st0 rows st Hreach.
  destruct (reachable_data host st0 rows st Hreach) as [Hraw Hfull].
  assert (Hb : clampBounds st = d3_extent rows)
    by (unfold clampBounds; now rewrite Hfull).
  assert (Ht : touchBounds st = d3_extent rows)
    by (unfold touchBounds; now rewrite Hfull).
  split; [split; assumption|]. split; [|split].
  - intros st2 x Hreach2.
    destruct (reachable_data host st0 rows st2 Hreach2) as [Hraw2 Hfull2].
    assert (Hb2 : clampBounds st2 = clampBounds st)
      by (unfold clampBounds; now rewrite Hfull, Hfull2).
    assert (Ht2 : touchBounds st2 = touchBounds st)
      by (unfold touchBounds; now rewrite Hfull, Hfull2).
    split; [|split; [|split; [|split]]].
    + intros deltaY mouseX. unfold wheelRequest. now rewrite Hb2.
    + intros dxPx. unfold dragRequest. now rewrite Hb2.
    + intros dxPx. unfold touchPanRequest. now rewrite Ht2.
    + intros baseDomain k localX. unfold pinchRequest. now rewrite Ht2.
    + intros factor anchorDate. unfold zoomByWindow. now rewrite Hb2.
  - intros lo hi s e Hext Hwide. rewrite Hb, Hext.
    now apply clampDomain_full_extent.
  - intros lo hi x d0 d1 Hext Hx Hdom Hdata HD HM.
    rewrite Hext in Hfull.
    apply (zoomOut_reaches_full_extent host lo hi
             (S (Z.to_nat (hi - lo - (d1 - d0)))) HM st x d0 d1 Hx Hdom Hdata Hfull HD).
    lia.
Qed.

Lemma gestures_clamp_to_full_extent_witness :
  clampBounds chemicalSpreadPage = (Some 0%Z, Some (100 * day)%Z)
  /\ exists k,
       currentDomain (Nat.iter k (zoomOut stillHost) chemicalSpreadPage)
       = Some (Some 0%Z, Some (100 * day)%Z).
Proof.
  pose proof (gestures_clamp_to_full_extent
                stillHost blankPage spreadRows chemicalSpreadPage
                (reach_control _ _ _ _ (LegendClick "biological")
                               (reach_load _ _ _))) as [[Hbounds _] [_ [_ Hreach]]].
  split.
  - exact Hbounds.
  - refine (Hreach 0%Z (100 * day)%Z _ (20 * day)%Z (70 * day)%Z _ _ _ _ _ _).
    + vm_compute. reflexivity.
    + vm_compute. reflexivity.
    + vm_compute. reflexivity.
    + vm_compute. discriminate.
    + vm_compute. discriminate.
    + vm_compute. discriminate.
Defined.

(** C2, at a failing input.  After a filter has left two rows five days
    apart [drawChart] makes their extent the domain, narrower than
    [MIN_SPAN_MS], and neither the zoom-out button nor the wheel widens it:
    the window [zoomBy] arrives at is below [MIN_SPAN_MS] and is rejected,
    and the one the wheel handler gets back from [clampDomain] is no wider
    than [MIN_SPAN_MS] and is rejected too.  The domain stays the span of
    the filtered rows while the full extent is a hundred days. *)
Theorem zoomOut_stuck_on_filtered_span :
  reachable stillHost blankPage fourRows chemicalOnlyPage
  /\ d3_extent fourRows = (Some 0%Z, Some (100 * day)%Z)
  /\ wheel stillHost chemicalOnlyPage 100 540 = chemicalOnlyPage
  /\ forall k,
       currentDomain (Nat.iter k (zoomOut stillHost) chemicalOnlyPage)
       = Some (Some (50 * day)%Z, Some (55 * day)%Z).
Proof.
  split; [apply reach_control, reach_load|].
  split; [vm_compute; reflexivity|].
  split; [vm_compute; reflexivity|].
  assert (Hfix : zoomOut stillHost chemicalOnlyPage = chemicalOnlyPage)
    by (vm_compute; reflexivity).
  intros k. induction k as [|k IH].
  - vm_compute. reflexivity.
  - rewrite Nat.iter_succ_r, Hfix. exact IH.
Qed.

(** ** The older handlers *)

(** In [scripts/app.js] the wheel handler divides the span by the factor: a
    positive delta narrows the window. *)
Example legacy_wheel_positive_delta_narrows :
  Legacy.wheelRequest hundredDays twoRows 100 540
  = Redraw (Some 392727272%Z) (Some 8247272727%Z) true
  /\ (8247272727 - 392727272 < 100 * day)%Z.
Proof. split; vm_compute; reflexivity. Qed.

(** Its [zoomBy] clamps to the extent of the filtered rows: zooming out of a
    hundred-day domain with two rows twenty days apart lands on those twenty
    days. *)
Example legacy_zoomBy_clamps_to_filtered :
  Legacy.zoomByRequest (Some hundredDays) midRows (4 # 5) None
  = Redraw (Some (40 * day)%Z) (Some (60 * day)%Z) true.
Proof. vm_compute. reflexivity. Qed.

(** And it lets the window shrink to one day: a ten-day window is applied. *)
Example legacy_zoomBy_accepts_ten_days :
  Legacy.zoomByRequest (Some hundredDays) twoRows 10 None
  = Redraw (Some (45 * day)%Z) (Some (55 * day)%Z) true.
Proof. vm_compute. reflexivity. Qed.


(** The early exit of [updateChart] is the same in [scripts/app.js]. *)
Lemma legacy_no_category_no_key_shows_nothing
      (host : Host) (rawData : list Event) (cats : StrSet)
      (topicDd sourceDd : option Dropdown) (onlyKey : bool) (searchText : string) :
  activeCats cats = [] -> has cats "key"%string = false ->
  Legacy.filterRecords host rawData cats topicDd sourceDd onlyKey searchText = [].
Proof.
  intros Hcats Hkey. unfold Legacy.filterRecords. now rewrite Hcats, Hkey.
Qed.

(** There the selected topics are not de-duplicated, so with every option of
    a non-empty dropdown on, every event passes the topic test. *)
Lemma legacy_topicMatch_all (dd : Dropdown) (d : Event) :
  options dd <> [] ->
  Legacy.topicMatch (Some (setAll true dd)) d = true.
Proof.
  intros Hne.
  assert (Hlen : List.length (Legacy.selectedTopics (Some (setAll true dd)))
                 = List.length (options dd)).
  { unfold Legacy.selectedTopics. unfold setAll at 1. cbn [valueLookup].
    destruct (valueLookup dd); rewrite ?length_map, getSelectedValues_setAll;
      apply length_map. }
  assert (Hpos : (0 < List.length (options dd))%nat).
  { destruct (options dd); [congruence|cbn; lia]. }
  unfold Legacy.topicMatch, Legacy.isAllTopicsSelected, Legacy.totalTopics.
  rewrite Hlen, optionCount_setAll, Nat.eqb_refl.
  replace (0 <? List.length (options dd))%nat with true
    by (symmetry; now apply Nat.ltb_lt).
  replace (List.length (options dd) =? 0)%nat with false
    by (symmetry; apply Nat.eqb_neq; lia).
  reflexivity.
Qed.

Lemma legacy_select_each_topic_is_select_all
      (host : Host) (rawData : list Event) (cats : StrSet) (dd : Dropdown)
      (sourceDd : option Dropdown) (onlyKey : bool) (searchText : string) :
  Legacy.filterRecords host rawData cats (Some (selectEach dd)) sourceDd onlyKey
                       searchText
  = Legacy.filterRecords host rawData cats (Some (setAll true dd)) sourceDd onlyKey
                         searchText.
Proof. now rewrite selectEach_setAll. Qed.

(** * Further facts *)

(** ** escapeHtml *)

Lemma append_assoc (a b c : string) : ((a ++ b) ++ c = a ++ (b ++ c))%string.
Proof. induction a as [|x a IH]; cbn; [reflexivity|now rewrite IH]. Qed.

Lemma replaceAll_app (c : ascii) (r s1 s2 : string) :
  (replaceAll c r (s1 ++ s2) = replaceAll c r s1 ++ replaceAll c r s2)%string.
Proof.
  induction s1 as [|a s1 IH]; cbn; [reflexivity|].
  destruct (Ascii.eqb a c); rewrite IH; [now rewrite append_assoc|reflexivity].
Qed.

(** The five passes amount to one pass that replaces each character by its
    entity. *)
Lemma escapeHtml_cons (a : ascii) (s : string) :
  (escapeHtml (String a s) = entityOf a ++ escapeHtml s)%string.
Proof.
  unfold escapeHtml, entityOf. cbn [replaceAll].
  destruct (Ascii.eqb a "&") eqn:E1.
  { rewrite !replaceAll_app. reflexivity. }
  cbn [replaceAll]. destruct (Ascii.eqb a "<") eqn:E2.
  { rewrite !replaceAll_app. reflexivity. }
  cbn [replaceAll]. destruct (Ascii.eqb a ">") eqn:E3.
  { rewrite !replaceAll_app. reflexivity. }
  cbn [replaceAll]. destruct (Ascii.eqb a dquote) eqn:E4.
  { rewrite !replaceAll_app. reflexivity. }
  cbn [replaceAll]. destruct (Ascii.eqb a "'") eqn:E5; reflexivity.
Qed.

Lemma unescapeHtml_entity (a : ascii) (s : string) :
  unescapeHtml (entityOf a ++ s) = String a (unescapeHtml s).
Proof.
  unfold entityOf.
  destruct (Ascii.eqb a "&") eqn:E1; [apply Ascii.eqb_eq in E1; now subst|].
  destruct (Ascii.eqb a "<") eqn:E2; [apply Ascii.eqb_eq in E2; now subst|].
  destruct (Ascii.eqb a ">") eqn:E3; [apply Ascii.eqb_eq in E3; now subst|].
  destruct (Ascii.eqb a dquote) eqn:E4; [apply Ascii.eqb_eq in E4; now subst|].
  destruct (Ascii.eqb a "'") eqn:E5; [apply Ascii.eqb_eq in E5; now subst|].
  cbn [append]. apply Ascii.eqb_neq in E1.
  destruct a as [[] [] [] [] [] [] [] []]; try reflexivity; congruence.
Qed.

Lemma unescapeHtml_escapeHtml (s : string) : unescapeHtml (escapeHtml s) = s.
Proof.
  induction s as [|a s IH]; [reflexivity|].
  now rewrite escapeHtml_cons, unescapeHtml_entity, IH.
Qed.

Lemma In_append (a : ascii) (s1 s2 : string) :
  In a (list_ascii_of_string (s1 ++ s2))
  <-> In a (list_ascii_of_string s1) \/ In a (list_ascii_of_string s2).
Proof.
  induction s1 as [|x s1 IH]; cbn; [tauto|]. rewrite IH. tauto.
Qed.

(** X1.  Whatever the item, the text [escapeHtml] returns holds none of the
    characters that open or close a tag or an attribute value: [<], [>],
    the double quote and the single quote. *)
Theorem escapeHtml_leaves_no_markup_character :
  forall (s : string) (a : ascii),
    In a (list_ascii_of_string (escapeHtml s)) ->
    a <> "<"%char /\ a <> ">"%char /\ a <> dquote /\ a <> "'"%char.
Proof.
  induction s as [|x s IH]; intros a Ha; [destruct Ha|].
  rewrite escapeHtml_cons in Ha. apply In_append in Ha.
  destruct Ha as [Ha|Ha]; [|now apply IH].
  unfold entityOf in Ha.
  destruct (Ascii.eqb x "&") eqn:E1;
    [cbn in Ha; repeat (destruct Ha as [<-|Ha]; [repeat split; discriminate|]);
     destruct Ha|].
  destruct (Ascii.eqb x "<") eqn:E2;
    [cbn in Ha; repeat (destruct Ha as [<-|Ha]; [repeat split; discriminate|]);
     destruct Ha|].
  destruct (Ascii.eqb x ">") eqn:E3;
    [cbn in Ha; repeat (destruct Ha as [<-|Ha]; [repeat split; discriminate|]);
     destruct Ha|].
  destruct (Ascii.eqb x dquote) eqn:E4;
    [cbn in Ha; repeat (destruct Ha as [<-|Ha]; [repeat split; discriminate|]);
     destruct Ha|].
  destruct (Ascii.eqb x "'") eqn:E5;
    [cbn in Ha; repeat (destruct Ha as [<-|Ha]; [repeat split; discriminate|]);
     destruct Ha|].
  cbn in Ha. destruct Ha as [<-|[]].
  apply Ascii.eqb_neq in E2, E3, E4, E5. tauto.
Qed.

(** X2.  Escaping loses nothing: two items with the same escaped text are
    the same item, so different items never get the same option markup. *)
Theorem escapeHtml_is_injective :
  forall s t : string, escapeHtml s = escapeHtml t -> s = t.
Proof.
  intros s t H. apply (f_equal unescapeHtml) in H.
  now rewrite !unescapeHtml_escapeHtml in H.
Qed.

Lemma escapeHtml_is_injective_witness :
  "a<b"%string = "a<b"%string.
Proof. apply escapeHtml_is_injective. reflexivity. Defined.

(** ** The menus and the rows they are built from *)

Lemma truthy_iff (s : string) : truthy s = true <-> s <> ""%string.
Proof.
  unfold truthy. rewrite negb_true_iff. split.
  - intros H E. subst. discriminate.
  - intros H. destruct (String.eqb_spec s ""); congruence.
Qed.

Lemma topicTokens_In (rawData : list Event) (t : string) :
  In t (topicTokens rawData)
  <-> t <> ""%string /\ exists d, In d rawData /\ In t (validTopics d).
Proof.
  unfold topicTokens. split.
  - intros H. apply (Permutation_in _ (sortStrings_perm _)) in H.
    apply -> dedupe_In in H. apply filter_In in H. destruct H as [H Ht].
    apply in_flat_map in H. split; [now apply truthy_iff|exact H].
  - intros [Ht H].
    apply (Permutation_in _ (Permutation_sym (sortStrings_perm _))).
    apply dedupe_In. apply filter_In. split; [|now apply truthy_iff].
    now apply in_flat_map.
Qed.

Lemma sourceItems_In (rawData : list Event) (s : string) :
  In s (sourceItems rawData)
  <-> s <> ""%string /\ exists d, In d rawData /\ displaySource d = s.
Proof.
  unfold sourceItems. split.
  - intros H. apply (Permutation_in _ (sortStrings_perm _)) in H.
    apply -> dedupe_In in H. apply filter_In in H. destruct H as [H Hs].
    apply in_map_iff in H. destruct H as [d [E Hd]].
    split; [now apply truthy_iff|eauto].
  - intros [Hs [d [Hd E]]].
    apply (Permutation_in _ (Permutation_sym (sortStrings_perm _))).
    apply dedupe_In. apply filter_In. split; [|now apply truthy_iff].
    apply in_map_iff. eauto.
Qed.

Lemma sourceItems_NoDup (rawData : list Event) : NoDup (sourceItems rawData).
Proof.
  unfold sourceItems. eapply Permutation_NoDup.
  - apply Permutation_sym, sortStrings_perm.
  - apply dedupe_NoDup.
Qed.

(** X3.  [setupFilters] fills each menu that is on the page with one option
    per value, all of them on: the topic menu with the title-cased label of
    every non-empty valid topic that some row carries, the source menu with
    every non-empty source of some row; no value is listed twice.  A menu
    that is not on the page stays missing. *)
Theorem menus_list_each_value_once :
  forall (host : Host) (st : State),
    let st' := setupFilters host st in
    let topics := topicTokens (rawData st) in
    let sources := sourceItems (rawData st) in
    (topicDropdown st' =
       match topicDropdown st with
       | Some _ =>
           Some (mkDropdown (map (fun t => (toTitleCase host t, true)) topics)
                            (Some (combine (map (toTitleCase host) topics) topics)))
       | None => None
       end)
    /\ (sourceDropdown st' =
          match sourceDropdown st with
          | Some _ => Some (mkDropdown (map (fun s => (s, true)) sources) None)
          | None => None
          end)
    /\ NoDup topics /\ NoDup sources
    /\ (forall t, In t topics
                  <-> t <> ""%string
                      /\ exists d, In d (rawData st) /\ In t (validTopics d))
    /\ (forall s, In s sources
                  <-> s <> ""%string
                      /\ exists d, In d (rawData st) /\ displaySource d = s).
Proof.
  intros host st st' topics sources.
  split; [|split; [|split; [|split; [|split]]]].
  - unfold st', setupFilters, buildSelectableList. cbn [topicDropdown with_controls].
    destruct (topicDropdown st); [|reflexivity].
    now rewrite map_map.
  - unfold st', setupFilters, buildSelectableList. cbn [sourceDropdown with_controls].
    destruct (sourceDropdown st); reflexivity.
  - apply topics_NoDup.
  - apply sourceItems_NoDup.
  - apply topicTokens_In.
  - apply sourceItems_In.
Qed.

Lemma parseRows_validTopics (host : Host) (parseDate : option string -> JS.Date)
      (rows : list CsvRow) (d : Event) (t : string) :
  In d (parseRows host parseDate rows) -> In t (validTopics d) ->
  has BAD_TOPICS t = false /\ In t (topics d).
Proof.
  unfold parseRows. intros Hd Ht. apply in_flat_map in Hd.
  destruct Hd as [r [_ Hd]]. unfold parseRow in Hd.
  destruct (parseDate (col_Date r)); [|destruct Hd].
  destruct Hd as [<-|[]]. cbn [validTopics topics] in *.
  apply filter_In in Ht. destruct Ht as [Hin Hbad].
  apply negb_true_iff in Hbad. tauto.
Qed.

(** X4.  No topic option stands for a placeholder: on the rows the CSV load
    produces, whatever the sheet holds, the tokens behind the topic menu are
    none of "na", "n/a", "none", "unspecified", "-", "null" or the empty
    string. *)
Theorem topic_menu_lists_no_placeholder :
  forall (host : Host) (parseDate : option string -> JS.Date)
         (rows : list CsvRow) (t : string),
    In t (topicTokens (parseRows host parseDate rows)) ->
    ~ In t ["na"; "n/a"; "none"; ""; "unspecified"; "-"; "null"]%string.
Proof.
  intros host parseDate rows t Ht Hbad.
  apply topicTokens_In in Ht. destruct Ht as [_ [d [Hd Hv]]].
  destruct (parseRows_validTopics host parseDate rows d t Hd Hv) as [H _].
  assert (has BAD_TOPICS t = true) by (apply arr_includes_In; exact Hbad).
  congruence.
Qed.

Lemma topic_menu_lists_no_placeholder_witness :
  topicTokens (parseRows stillHost sampleDates sampleSheet) = ["sarin"%string]
  /\ ~ In "sarin"%string ["na"; "n/a"; "none"; ""; "unspecified"; "-"; "null"]%string.
Proof.
  split; [vm_compute; reflexivity|].
  apply (topic_menu_lists_no_placeholder stillHost sampleDates sampleSheet).
  vm_compute. left. reflexivity.
Defined.

Lemma escapeHtml_leaves_no_markup_character_witness :
  "&"%char <> "<"%char /\ "&"%char <> ">"%char /\ "&"%char <> dquote
  /\ "&"%char <> "'"%char.
Proof.
  apply (escapeHtml_leaves_no_markup_character "<a href='x'>"%string "&"%char).
  vm_compute. left. reflexivity.
Defined.

(** ** What a filter change does to the view *)

Lemma set_positions_date (data : list Event) (pos : list (JS.Number * JS.Number)) :
  map date (set_positions data pos) = map date data.
Proof.
  revert pos. induction data as [|d data IH]; intros [|[px py] pos]; cbn;
    try reflexivity.
  now rewrite IH.
Qed.

Lemma packDots_date (host : Host) (x : Scale) (centerY : Q) (data : list Event) :
  map date (packDots host x centerY data) = map date data.
Proof. unfold packDots. apply set_positions_date. Qed.

Lemma setViewed_date (data : list Event) : map date (setViewed data) = map date data.
Proof. unfold setViewed. rewrite map_map. reflexivity. Qed.

Lemma cacheOffsets_date (x : Scale) (data : list Event) :
  map date (cacheOffsets x data) = map date data.
Proof. unfold cacheOffsets. rewrite map_map. reflexivity. Qed.

Lemma d3_extent_dates (data data' : list Event) :
  map date data' = map date data -> d3_extent data' = d3_extent data.
Proof. unfold d3_extent. now intros ->. Qed.

Lemma fold_min_le (ts : list Z) (t : Z) :
  (fold_left Z.min ts t <= t)%Z
  /\ forall u, In u ts -> (fold_left Z.min ts t <= u)%Z.
Proof.
  revert t. induction ts as [|a ts IH]; intros t; cbn.
  - split; [lia|intros u []].
  - destruct (IH (Z.min t a)) as [H1 H2]. split; [lia|].
    intros u [<-|Hu]; [lia|now apply H2].
Qed.

Lemma fold_max_ge (ts : list Z) (t : Z) :
  (t <= fold_left Z.max ts t)%Z
  /\ forall u, In u ts -> (u <= fold_left Z.max ts t)%Z.
Proof.
  revert t. induction ts as [|a ts IH]; intros t; cbn.
  - split; [lia|intros u []].
  - destruct (IH (Z.max t a)) as [H1 H2]. split; [lia|].
    intros u [<-|Hu]; [lia|now apply H2].
Qed.

(** The extent of a non-empty array is a pair of dates that encloses every
    date of the array. *)
Lemma d3_extent_encloses (data : list Event) :
  data <> [] ->
  exists lo hi, d3_extent data = (Some lo, Some hi)
                /\ forall d, In d data -> (lo <= date d <= hi)%Z.
Proof.
  intros Hne. unfold d3_extent. destruct data as [|d0 data]; [congruence|].
  cbn [map]. eexists _, _. split; [reflexivity|].
  destruct (fold_min_le (map date data) (date d0)) as [A1 A2].
  destruct (fold_max_ge (map date data) (date d0)) as [B1 B2].
  intros d [<-|Hd]; [lia|].
  assert (In (date d) (map date data)) by now apply in_map.
  split; [now apply A2|now apply B2].
Qed.

Section UpdateChartFacts.

Variable host : Host.

(** The chart [updateChart] leaves when some row passes the filter. *)
Lemma updateChart_view (st : State) :
  let data :=
    filterRecords host (rawData st) (selectedCats st) (topicDropdown st)
                  (sourceDropdown st) (keyEventFilter st) (searchValue st) in
  data <> [] ->
  exists x,
    currentXScale (updateChart host st) = Some x
    /\ map date (filteredData (updateChart host st)) = map date data
    /\ domain x = match didInitialFit st, FULL_EXTENT st with
                  | false, Some extent => extent
                  | _, _ => d3_extent data
                  end
    /\ range x = (40, width st - 40).
Proof.
  intros data Hne. unfold updateChart. fold data.
  unfold drawChart. destruct data as [|d ds] eqn:Edata; [congruence|].
  cbn [filteredData with_chart didInitialFit FULL_EXTENT DOT_CENTER_Y width keyEvents].
  set (x := mkScale _ _).
  set (data' := cacheOffsets x _).
  assert (Hdates : map date data' = map date (d :: ds)).
  { unfold data'. now rewrite cacheOffsets_date, setViewed_date, packDots_date. }
  assert (Hne' : data' <> []).
  { intros E. rewrite E in Hdates. discriminate Hdates. }
  assert (Hdom : domain x = d3_extent (d :: ds)) by reflexivity.
  assert (Hrng : range x = (40, width st - 40)) by reflexivity.
  clearbody data'. clearbody x.
  destruct (didInitialFit st) eqn:Efit.
  - exists x. cbn. auto.
  - destruct (FULL_EXTENT st) as [[lo hi]|] eqn:Efull.
    + exists (set_domain x lo hi). cbn.
      destruct data' as [|d' ds'] eqn:Ed'; [congruence|]. auto.
    + exists x. cbn. auto.
Qed.

End UpdateChartFacts.

Lemma filter_none {A : Type} (f : A -> bool) (l : list A) :
  (forall a, In a l -> f a = false) -> filter f l = [].
Proof.
  induction l as [|a l IH]; intros H; cbn; [reflexivity|].
  rewrite (H a) by (cbn; tauto). apply IH. intros b Hb. apply H. cbn; tauto.
Qed.

Lemma filterRecords_incl (host : Host) (rawData : list Event) (cats : StrSet)
      (td sd : option Dropdown) (onlyKey : bool) (sv : string) (d : Event) :
  In d (filterRecords host rawData cats td sd onlyKey sv) -> In d rawData.
Proof.
  unfold filterRecords. destruct (_ && _); [intros []|].
  intros H. now apply filter_In in H.
Qed.

Section ViewFacts.

Variable host : Host.

Lemma updateChart_width (st : State) : width (updateChart host st) = width st.
Proof.
  unfold updateChart, drawChart.
  destruct (filterRecords _ _ _ _ _ _ _) as [|d ds]; [reflexivity|].
  cbn [didInitialFit FULL_EXTENT with_chart].
  destruct (didInitialFit st); [reflexivity|].
  destruct (FULL_EXTENT st) as [[lo hi]|]; reflexivity.
Qed.

Lemma updateChart_empty (st : State) :
  filterRecords host (rawData st) (selectedCats st) (topicDropdown st)
                (sourceDropdown st) (keyEventFilter st) (searchValue st) = [] ->
  currentXScale (updateChart host st) = currentXScale st
  /\ filteredData (updateChart host st) = []
  /\ dots (updateChart host st) = []
  /\ annotations (updateChart host st) = [].
Proof. intros H. unfold updateChart. rewrite H. cbn. auto. Qed.

(** After [updateChart] every row that passed the filter lies inside the
    domain, provided the full extent, where set, is that of all rows. *)
Lemma updateChart_clips_nothing (st : State) (out : list Event) :
  FULL_EXTENT st = None \/ FULL_EXTENT st = Some (d3_extent (rawData st)) ->
  auditZoomClipping (updateChart host st) = Some out -> out = [].
Proof.
  intros Hfull. unfold auditZoomClipping.
  pose proof (updateChart_empty st) as Hempty.
  pose proof (updateChart_view host st) as Hview. cbv zeta in Hview.
  pose proof (filterRecords_incl host (rawData st) (selectedCats st)
                (topicDropdown st) (sourceDropdown st) (keyEventFilter st)
                (searchValue st)) as Hincl.
  destruct (filterRecords host (rawData st) (selectedCats st) (topicDropdown st)
                          (sourceDropdown st) (keyEventFilter st) (searchValue st))
    as [|d0 ds] eqn:Edata.
  - destruct (Hempty eq_refl) as (_ & -> & _).
    destruct (currentXScale _) as [x|]; [|discriminate].
    destruct (domain x). cbn. congruence.
  - set (data := d0 :: ds) in *.
    assert (Hne : data <> []) by discriminate.
    destruct (Hview Hne) as (x & -> & Hdates & Hdom & _).
    assert (Hraw : rawData st <> []).
    { intros E. specialize (Hincl d0). rewrite E in Hincl.
      apply Hincl. now left. }
    destruct (d3_extent_encloses data Hne) as (lo & hi & Eext & Hin).
    destruct (d3_extent_encloses (rawData st) Hraw) as (lo' & hi' & Eext' & Hin').
    assert (Hbox : exists a b, domain x = (Some a, Some b)
                               /\ forall d, In d data -> (a <= date d <= b)%Z).
    { rewrite Hdom. destruct (didInitialFit st).
      - exists lo, hi. auto.
      - destruct Hfull as [->| ->].
        + exists lo, hi. auto.
        + exists lo', hi'. split; [exact Eext'|]. intros d Hd. now apply Hin', Hincl. }
    destruct Hbox as (a & b & -> & Hab).
    intros [= <-]. apply filter_none. intros d' Hd'.
    assert (Hdate : In (date d') (map date data)).
    { rewrite <- Hdates. now apply in_map. }
    apply in_map_iff in Hdate. destruct Hdate as (d & Ed & Hd).
    specialize (Hab d Hd). rewrite Ed in Hab.
    rewrite ?lt_valueOf, ?gt_valueOf, ?Qltb_Z.
    replace (date d' <? a)%Z with false by (symmetry; apply Z.ltb_ge; lia).
    replace (b <? date d')%Z with false by (symmetry; apply Z.ltb_ge; lia).
    reflexivity.
Qed.

End ViewFacts.

(** X5.  [updateChart] throws the zoom away.  When some row passes the
    filter, the new scale runs over the extent of the rows that passed (on
    the first draw with a full extent: over the full extent) and over the
    pixels from 40 to [width - 40]; when no row passes, the scale is left as
    it was and no dot and no annotation is drawn. *)
Theorem filter_change_refits_domain :
  forall (host : Host) (st : State),
    let data :=
      filterRecords host (rawData st) (selectedCats st) (topicDropdown st)
                    (sourceDropdown st) (keyEventFilter st) (searchValue st) in
    match data with
    | [] =>
        currentXScale (updateChart host st) = currentXScale st
        /\ dots (updateChart host st) = []
        /\ annotations (updateChart host st) = []
    | _ :: _ =>
        currentXScale (updateChart host st)
        = Some (mkScale match didInitialFit st, FULL_EXTENT st with
                        | false, Some extent => extent
                        | _, _ => d3_extent data
                        end
                        (40, width st - 40))
    end.
Proof.
  intros host st data. destruct data as [|d ds] eqn:Edata.
  - destruct (updateChart_empty host st Edata) as (H1 & _ & H2 & H3). auto.
  - assert (Hne : data <> []) by (rewrite Edata; discriminate).
    destruct (updateChart_view host st Hne) as (x & -> & _ & Hdom & Hrng).
    destruct x as [dom rng]. cbn in Hdom, Hrng. subst dom rng.
    now rewrite <- Edata.
Qed.

(** X6.  A filter change clips nothing: in every state the page reaches
    once the CSV has loaded, right after any use of a filter control (a
    legend entry, an option or a button of a menu, the key-only box, the
    search box) the zoom audit finds no filtered row outside the domain. *)
Theorem filter_change_clips_no_row :
  forall (host : Host) (st0 : State) (rows : list Event) (st : State)
         (c : Control) (out : list Event),
    reachable host st0 rows st ->
    auditZoomClipping (control host st c) = Some out ->
    out = [].
Proof.
  intros host st0 rows st c out Hreach.
  destruct (reachable_data host st0 rows st Hreach) as [Hraw Hfull].
  unfold control. apply updateChart_clips_nothing.
  right. destruct c; cbn [FULL_EXTENT rawData with_controls]; now rewrite Hfull, Hraw.
Qed.

Lemma filter_change_clips_no_row_witness :
  auditZoomClipping
    (control stillHost (load stillHost blankPage fourRows) (LegendClick "biological"))
  = Some [].
Proof.
  assert (H : exists out,
             auditZoomClipping
               (control stillHost (load stillHost blankPage fourRows)
                        (LegendClick "biological")) = Some out).
  { vm_compute. eexists. reflexivity. }
  destruct H as [out H]. rewrite H. f_equal.
  apply (filter_change_clips_no_row stillHost blankPage fourRows
           (load stillHost blankPage fourRows) (LegendClick "biological") out).
  - apply reach_load.
  - exact H.
Defined.

Lemma Qmax_ge_l (a b : Q) : a <= Qmax a b.
Proof.
  unfold Qmax. destruct (Qle_bool a b) eqn:E.
  - now apply Qle_bool_iff.
  - apply Qle_refl.
Qed.

(** X7.  A resize sets the width to the width of the container less 40, but
    never below 320, and redraws through [updateChart]: when some row passes
    the filter the scale then runs over the pixels from 40 to the new width
    less 40, at least 240 of them, so the scale never collapses; without the
    container element nothing happens. *)
Theorem resize_keeps_scale_wide :
  forall (host : Host) (st : State) (clientWidth : Z),
    let st' := resizeChart host st (Some clientWidth) in
    resizeChart host st None = st
    /\ width st' == Qmax 320 (inject_Z clientWidth - 40)
    /\ 320 <= width st'
    /\ (filterRecords host (rawData st) (selectedCats st) (topicDropdown st)
                      (sourceDropdown st) (keyEventFilter st) (searchValue st) <> [] ->
        exists x, currentXScale st' = Some x
                  /\ range x = (40, width st' - 40)
                  /\ 240 <= snd (range x) - fst (range x)).
Proof.
  intros host st cw st'.
  assert (Hw : width st' = chartWidth cw).
  { unfold st', resizeChart. now rewrite updateChart_width. }
  assert (H320 : 320 <= width st').
  { rewrite Hw. apply Qmax_ge_l. }
  split; [reflexivity|]. split; [now rewrite Hw|]. split; [exact H320|].
  intros Hne.
  destruct (updateChart_view host (with_width st (chartWidth cw)) Hne)
    as (x & Hx & _ & _ & Hrng).
  exists x. split; [exact Hx|]. cbn [width with_width] in Hrng.
  rewrite Hw. split; [exact Hrng|]. rewrite Hrng. cbn [fst snd].
  rewrite Hw in H320. lra.
Qed.

(** ** What the filter shows *)

Section FilterFacts.

Variable host : Host.
Variable rawData : list Event.
Variables td sd : option Dropdown.
Variable onlyKey : bool.
Variable sv : string.

Lemma activeCats_In (cats : StrSet) (c : string) :
  In c (activeCats cats)
  <-> In c ["biological"; "chemical"; "multi"]%string /\ has cats c = true.
Proof. unfold activeCats, categoryKeys. apply filter_In. Qed.

Lemma filterRecords_passes (cats : StrSet) (d : Event) :
  In d (filterRecords host rawData cats td sd onlyKey sv) ->
  In d rawData /\ passes host rawData cats td sd onlyKey sv d = true.
Proof.
  unfold filterRecords. destruct (_ && _); [intros []|]. apply filter_In.
Qed.

Lemma catMatch_true (cats : StrSet) (d : Event) :
  catMatch cats d = true ->
  match categories d with
  | [] => False
  | [c] => In c ["biological"; "chemical"; "multi"]%string /\ has cats c = true
  | _ :: _ :: _ => has cats "multi"%string = true
  end.
Proof.
  unfold catMatch, isMulti.
  destruct (0 <? List.length (activeCats cats))%nat; [|discriminate].
  destruct (categories d) as [|c [|c' cs]]; cbn [Datatypes.length Nat.ltb Nat.leb existsb].
  - discriminate.
  - rewrite orb_false_r. intros H. apply arr_includes_In in H.
    now apply activeCats_In.
  - intros H. apply arr_includes_In in H. now apply activeCats_In in H.
Qed.

End FilterFacts.

(** X8.  A row is shown only through the legend: a row with one category
    needs that category to be "biological", "chemical" or "multi" and
    switched on, a row with several categories needs "multi" switched on,
    and a row without a category is never shown; a key event needs the
    legend's key entry switched on as well. *)
Theorem shown_row_has_an_active_category :
  forall (host : Host) (rawData : list Event) (cats : StrSet)
         (td sd : option Dropdown) (onlyKey : bool) (sv : string) (d : Event),
    In d (filterRecords host rawData cats td sd onlyKey sv) ->
    In d rawData
    /\ (keyEvent d = true -> has cats "key"%string = true)
    /\ match categories d with
       | [] => False
       | [c] => In c ["biological"; "chemical"; "multi"]%string /\ has cats c = true
       | _ :: _ :: _ => has cats "multi"%string = true
       end.
Proof.
  intros host rawData cats td sd onlyKey sv d H.
  apply filterRecords_passes in H. destruct H as [Hin Hp].
  unfold passes in Hp. rewrite !andb_true_iff in Hp.
  destruct Hp as [[[[[Hcat Hkey] _] _] _] _].
  split; [exact Hin|]. split; [|now apply catMatch_true].
  intros Hk. unfold keyOk in Hkey. rewrite Hk in Hkey.
  now rewrite orb_false_r in Hkey.
Qed.

Lemma shown_row_has_an_active_category_witness :
  has allCats "key"%string = true.
Proof.
  refine (proj1 (proj2 (shown_row_has_an_active_category
                          stillHost twoRows allCats None None false ""%string
                          secondRow _)) _).
  - vm_compute. right. left. reflexivity.
  - reflexivity.
Defined.

(** X9.  The legend's key entry shows nothing by itself: with none of
    "biological", "chemical" and "multi" switched on the filtered array is
    empty, whether the key entry is on or off. *)
Theorem no_active_category_shows_nothing :
  forall (host : Host) (rawData : list Event) (cats : StrSet)
         (td sd : option Dropdown) (onlyKey : bool) (sv : string),
    activeCats cats = [] ->
    filterRecords host rawData cats td sd onlyKey sv = [].
Proof.
  intros host rawData cats td sd onlyKey sv Hcats.
  unfold filterRecords. destruct (_ && _); [reflexivity|].
  apply filter_none. intros d _. unfold passes, catMatch. now rewrite Hcats.
Qed.

Lemma no_active_category_shows_nothing_witness :
  filterRecords stillHost twoRows ["key"%string] None None false ""%string = [].
Proof. apply no_active_category_shows_nothing. reflexivity. Defined.

Lemma getSelectedValues_none (dd : Dropdown) :
  getSelectedValues (Some (setAll false dd)) = [].
Proof.
  unfold getSelectedValues, setAll. cbn [options].
  induction (options dd) as [|[v on] opts IH]; cbn; [reflexivity|exact IH].
Qed.

(** X10.  "Deselect all" empties the chart: with every option of a topic
    menu, or of a source menu, switched off, and at least one option in
    that menu, no row is shown. *)
Theorem deselect_all_shows_nothing :
  forall (host : Host) (rawData : list Event) (cats : StrSet)
         (td sd : option Dropdown) (onlyKey : bool) (sv : string) (dd : Dropdown),
    options dd <> [] ->
    filterRecords host rawData cats (Some (setAll false dd)) sd onlyKey sv = []
    /\ filterRecords host rawData cats td (Some (setAll false dd)) onlyKey sv = [].
Proof.
  intros host rawData cats td sd onlyKey sv dd Hne.
  assert (Hcount : (0 <? optionCount (Some (setAll false dd)))%nat = true).
  { rewrite optionCount_setAll. apply Nat.ltb_lt.
    destruct (options dd); [congruence|cbn; lia]. }
  split; unfold filterRecords; destruct (_ && _); try reflexivity;
    apply filter_none; intros d _; unfold passes.
  - assert (Ht : topicMatch rawData (Some (setAll false dd)) d = false).
    { unfold topicMatch, useTopicFilter, topicListCount, selectedTopics,
        useTopicFilter, topicListCount, selectedTopics0, topicLabels.
      rewrite Hcount, getSelectedValues_none.
      unfold setAll. cbn [valueLookup]. now destruct (valueLookup dd). }
    rewrite Ht. now rewrite !andb_false_r.
  - assert (Hs : sourceMatch rawData (Some (setAll false dd)) d = false).
    { unfold sourceMatch, useSourceFilter, sourceListCount, selectedSources,
        useSourceFilter, sourceListCount, selectedSources0.
      now rewrite Hcount, getSelectedValues_none. }
    rewrite Hs. now rewrite !andb_false_r.
Qed.

Lemma deselect_all_shows_nothing_witness :
  filterRecords stillHost twoRows allCats (Some (setAll false sarinDropdown)) None
                false ""%string = [].
Proof.
  refine (proj1 (deselect_all_shows_nothing stillHost twoRows allCats None None
                                            false ""%string sarinDropdown _)).
  discriminate.
Defined.

Lemma has_toggled_on (cats : StrSet) (key k : string) :
  has cats k = true -> has (cats ++ [key])%list k = true.
Proof.
  unfold has, arr_includes. rewrite existsb_app. intros ->. reflexivity.
Qed.

(** X11.  Switching a legend entry on hides nothing: every row shown before
    the click is shown after it. *)
Theorem legend_entry_on_hides_nothing :
  forall (host : Host) (rawData : list Event) (cats : StrSet)
         (td sd : option Dropdown) (onlyKey : bool) (sv : string)
         (key : string) (d : Event),
    has cats key = false ->
    In d (filterRecords host rawData cats td sd onlyKey sv) ->
    In d (filterRecords host rawData (toggleCat cats key) td sd onlyKey sv).
Proof.
  intros host rawData cats td sd onlyKey sv key d Hoff Hd.
  unfold toggleCat. rewrite Hoff.
  set (cats' := (cats ++ [key])%list).
  assert (Hact : forall c, In c (activeCats cats) -> In c (activeCats cats')).
  { intros c Hc. apply activeCats_In in Hc. apply activeCats_In.
    split; [tauto|]. now apply has_toggled_on. }
  apply filterRecords_passes in Hd. destruct Hd as [Hin Hp].
  unfold passes in Hp. rewrite !andb_true_iff in Hp.
  destruct Hp as [[[[[Hcat Hkey] Ht] Hs] Hk] Hsearch].
  assert (Hcat' : catMatch cats' d = true).
  { unfold catMatch in *.
    destruct (0 <? List.length (activeCats cats))%nat eqn:E; [|discriminate].
    assert (Hpos : (0 <? List.length (activeCats cats'))%nat = true).
    { apply Nat.ltb_lt in E. apply Nat.ltb_lt.
      destruct (activeCats cats) as [|c cs] eqn:Ec; [cbn in E; lia|].
      specialize (Hact c (or_introl eq_refl)).
      destruct (activeCats cats'); [destruct Hact|cbn; lia]. }
    rewrite Hpos. destruct (isMulti d).
    - apply arr_includes_In. apply Hact. now apply arr_includes_In.
    - apply existsb_exists in Hcat. destruct Hcat as [c [Hc Hc']].
      apply existsb_exists. exists c. split; [exact Hc|].
      apply arr_includes_In. apply Hact. now apply arr_includes_In. }
  assert (Hkey' : keyOk cats' d = true).
  { unfold keyOk in *. apply orb_true_iff in Hkey. apply orb_true_iff.
    destruct Hkey as [Hkey|Hkey]; [left; now apply has_toggled_on|now right]. }
  unfold filterRecords.
  destruct ((List.length (activeCats cats') =? 0)%nat && negb (has cats' "key"%string))
    eqn:Eexit.
  - apply andb_true_iff in Eexit. destruct Eexit as [E0 _].
    apply Nat.eqb_eq in E0. unfold catMatch in Hcat'. rewrite E0 in Hcat'.
    discriminate Hcat'.
  - apply filter_In. split; [exact Hin|]. unfold passes.
    now rewrite Hcat', Hkey', Ht, Hs, Hk, Hsearch.
Qed.

Lemma legend_entry_on_hides_nothing_witness :
  In secondRow
     (filterRecords stillHost twoRows (toggleCat ["biological"; "key"]%string "chemical")
                    None None false ""%string).
Proof.
  apply legend_entry_on_hides_nothing.
  - reflexivity.
  - vm_compute. left. reflexivity.
Defined.

(** ** The label stacker *)

Section FirstFit.

Variable placed : list Placed.
Variables X1 X2 : Q.

Lemma findLevel_least (fuel lvl found : nat) :
  findLevel fuel placed X1 X2 lvl = Some found ->
  (lvl <= found)%nat
  /\ forall l, (lvl <= l < found)%nat -> existsb (collides X1 X2 l) placed = true.
Proof.
  revert lvl. induction fuel as [|fuel IH]; intros lvl; cbn;
    destruct (existsb (collides X1 X2 lvl) placed) eqn:E; try discriminate.
  - intros [= <-]. split; [lia|]. intros l Hl. lia.
  - intros H. destruct (IH _ H) as [H1 H2]. split; [lia|].
    intros l Hl. destruct (Nat.eq_dec l lvl) as [->|Hne]; [exact E|].
    apply H2. lia.
  - intros [= <-]. split; [lia|]. intros l Hl. lia.
Qed.

Lemma occupied_below (n : nat) :
  (forall l, (l < n)%nat -> existsb (collides X1 X2 l) placed = true) ->
  (n + occupied placed n <= occupied placed 0)%nat.
Proof.
  induction n as [|n IH]; intros H; [lia|].
  assert (Hn : existsb (collides X1 X2 n) placed = true) by (apply H; lia).
  apply (occupied_step placed X1 X2) in Hn.
  specialize (IH ltac:(intros l Hl; apply H; lia)). lia.
Qed.

End FirstFit.

(** X12.  A label goes on the first free row: the row [drawAnnotations]
    gives a label is free of placed labels that meet its extent, every row
    above it holds one that does, and so the row number is at most the
    number of labels placed before. *)
Theorem label_goes_on_first_free_row :
  forall (placed : list Placed) (labelX1 labelX2 : Q),
    let lvl := levelFor placed labelX1 labelX2 in
    existsb (collides labelX1 labelX2 lvl) placed = false
    /\ (forall l, (l < lvl)%nat -> existsb (collides labelX1 labelX2 l) placed = true)
    /\ (lvl <= List.length placed)%nat.
Proof.
  intros placed X1 X2 lvl.
  destruct (levelFor_spec placed X1 X2) as [Hf Hfree]. fold lvl in Hf, Hfree.
  destruct (findLevel_least placed X1 X2 _ _ _ Hf) as [_ Hleast].
  assert (Hall : forall l, (l < lvl)%nat -> existsb (collides X1 X2 l) placed = true).
  { intros l Hl. apply Hleast. lia. }
  split; [exact Hfree|]. split; [exact Hall|].
  pose proof (occupied_below placed X1 X2 lvl Hall) as Hocc.
  assert (occupied placed 0 <= List.length placed)%nat
    by (unfold occupied; apply filter_length_le).
  lia.
Qed.

(** *** Sorting the key events *)

Lemma insertByDate_perm (d : Event) (sorted : list Event) :
  Permutation (insertByDate d sorted) (d :: sorted).
Proof.
  induction sorted as [|e sorted IH]; cbn.
  - apply Permutation_refl.
  - destruct (date d <? date e)%Z.
    + apply Permutation_refl.
    + eapply perm_trans; [apply perm_skip, IH|apply perm_swap].
Qed.

Lemma insertByDate_sorted (d : Event) (sorted : list Event) :
  dateSorted sorted -> dateSorted (insertByDate d sorted).
Proof.
  induction sorted as [|e sorted IH]; cbn; intros Hs.
  - split; [constructor|exact I].
  - destruct Hs as [He Hs]. destruct (date d <? date e)%Z eqn:E.
    + apply Z.ltb_lt in E. cbn. split; [|split; assumption].
      constructor; [lia|]. eapply Forall_impl; [|exact He]. cbn. intros a Ha. lia.
    + apply Z.ltb_ge in E. cbn. split; [|now apply IH].
      apply Forall_forall. intros a Ha.
      apply (Permutation_in _ (insertByDate_perm d sorted)) in Ha.
      destruct Ha as [<-|Ha]; [exact E|].
      rewrite Forall_forall in He. now apply He.
Qed.

Lemma insertByDate_same_date (t : Z) (d : Event) (sorted : list Event) :
  dateSorted sorted ->
  filter (fun e => (date e =? t)%Z) (insertByDate d sorted)
  = (filter (fun e => (date e =? t)%Z) sorted
     ++ if (date d =? t)%Z then [d] else [])%list.
Proof.
  induction sorted as [|e sorted IH]; cbn [insertByDate dateSorted]; intros Hs.
  - cbn. now destruct (date d =? t)%Z.
  - destruct Hs as [He Hs]. destruct (date d <? date e)%Z eqn:E.
    + apply Z.ltb_lt in E. cbn [filter].
      destruct (date d =? t)%Z eqn:Ed; [|now rewrite app_nil_r].
      apply Z.eqb_eq in Ed.
      replace (date e =? t)%Z with false by (symmetry; apply Z.eqb_neq; lia).
      rewrite (filter_none _ sorted); [reflexivity|].
      intros a Ha. rewrite Forall_forall in He. specialize (He a Ha).
      apply Z.eqb_neq. lia.
    + cbn [filter]. rewrite (IH Hs). now destruct (date e =? t)%Z.
Qed.

Lemma sortByDate_from (events acc : list Event) :
  dateSorted acc ->
  let sorted := fold_left (fun acc d => insertByDate d acc) events acc in
  Permutation sorted (acc ++ events)
  /\ dateSorted sorted
  /\ forall t, filter (fun e => (date e =? t)%Z) sorted
               = filter (fun e => (date e =? t)%Z) (acc ++ events).
Proof.
  revert acc. induction events as [|d events IH]; intros acc Hs; cbn.
  - rewrite app_nil_r. auto.
  - destruct (IH (insertByDate d acc) (insertByDate_sorted d acc Hs))
      as (Hp & Hsorted & Hstable).
    split; [|split; [exact Hsorted|]].
    + eapply perm_trans; [exact Hp|].
      eapply perm_trans; [apply Permutation_app_tail, insertByDate_perm|].
      cbn. apply Permutation_cons_app. apply Permutation_refl.
    + intros t. rewrite Hstable, !filter_app, insertByDate_same_date by exact Hs.
      cbn [filter]. rewrite <- app_assoc. now destruct (date d =? t)%Z.
Qed.

(** X13.  [drawAnnotations] sorts the key events by date, and stably: the
    sorted array holds the same events, no date comes before an earlier
    one, and the events of one date keep the order they had. *)
Theorem key_events_are_sorted_stably :
  forall events : list Event,
    Permutation (sortByDate events) events
    /\ dateSorted (sortByDate events)
    /\ forall t, filter (fun e => (date e =? t)%Z) (sortByDate events)
                 = filter (fun e => (date e =? t)%Z) events.
Proof. intros events. exact (sortByDate_from events [] I). Qed.

(** *** One annotation per key event *)

Lemma scale_apply_number (x : Scale) (d0 d1 t : Z) :
  domain x = (Some d0, Some d1) -> exists q, scale_apply x (Some t) = Some q.
Proof.
  intros Hdom. unfold scale_apply. rewrite Hdom. destruct (range x) as [r0 r1].
  unfold normalize. cbn [JS.valueOf option_map JS.sub JS.lift2].
  destruct (Qeq_bool (inject_Z d1 - inject_Z d0) 0) eqn:E.
  - cbn. eauto.
  - unfold JS.div. rewrite E. cbn. eauto.
Qed.

Lemma scale_apply_invalid (x : Scale) (d : JS.Date) :
  fst (domain x) = None \/ snd (domain x) = None -> scale_apply x d = None.
Proof.
  unfold scale_apply. destruct (domain x) as [[d0|] [d1|]], (range x) as [r0 r1];
    cbn [fst snd]; intros [H|H]; try discriminate; reflexivity.
Qed.

Section AnnotationFacts.

Variable x : Scale.
Variable data : list Event.
Variables width centerY : Q.

Lemma placeOne_step (placed : list Placed) (drawn : list Annotation) (d : Event) :
  (exists d0 d1, domain x = (Some d0, Some d1)) ->
  exists p a,
    placeOne x data width centerY (placed, drawn) d
    = ((placed ++ [p])%list, (drawn ++ [a])%list)
    /\ anno_event a = d /\ level p = anno_level a.
Proof.
  intros (d0 & d1 & Hdom).
  destruct (scale_apply_number x d0 d1 (date d) Hdom) as [q Hq].
  unfold placeOne. rewrite Hq. eexists _, _. split; [reflexivity|]. split; reflexivity.
Qed.

Lemma placeLabels_from (events : list Event) (acc : list Placed * list Annotation) :
  (exists d0 d1, domain x = (Some d0, Some d1)) ->
  map level (fst acc) = map anno_level (snd acc) ->
  map anno_event (snd (fold_left (placeOne x data width centerY) events acc))
  = (map anno_event (snd acc) ++ events)%list
  /\ map level (fst (fold_left (placeOne x data width centerY) events acc))
     = map anno_level (snd (fold_left (placeOne x data width centerY) events acc)).
Proof.
  intros Hdom. revert acc.
  induction events as [|d events IH]; intros [placed drawn] Hlv; cbn [fold_left].
  - rewrite app_nil_r. auto.
  - destruct (placeOne_step placed drawn d Hdom) as (p & a & -> & Ha & Hp).
    destruct (IH ((placed ++ [p])%list, (drawn ++ [a])%list)) as [H1 H2].
    + cbn [fst snd] in *. rewrite !map_app. cbn. now rewrite Hlv, Hp.
    + split; [|exact H2]. rewrite H1. cbn [fst snd]. rewrite map_app.
      cbn. now rewrite <- app_assoc, Ha.
Qed.

Lemma placeLabels_invalid (events : list Event) (acc : list Placed * list Annotation) :
  fst (domain x) = None \/ snd (domain x) = None ->
  fold_left (placeOne x data width centerY) events acc = acc.
Proof.
  intros Hbad. induction events as [|d events IH]; cbn [fold_left]; [reflexivity|].
  destruct acc as [placed drawn]. unfold placeOne at 2.
  now rewrite (scale_apply_invalid x _ Hbad).
Qed.

End AnnotationFacts.

(** X14.  On a scale whose domain is a pair of valid dates every key event
    gets exactly one annotation, in date order, on the row reserved for it;
    on a domain that holds an Invalid Date no annotation is drawn and no
    extent is reserved. *)
Theorem each_key_event_is_annotated_once :
  forall (x : Scale) (data : list Event) (width centerY : Q) (keyEvents : list Event),
    let placed := fst (placeLabels x data width centerY keyEvents) in
    let drawn := snd (placeLabels x data width centerY keyEvents) in
    match domain x with
    | (Some _, Some _) =>
        map anno_event drawn = sortByDate keyEvents
        /\ map level placed = map anno_level drawn
    | _ => placed = [] /\ drawn = []
    end.
Proof.
  intros x data width centerY keyEvents placed drawn.
  unfold placed, drawn, placeLabels.
  destruct (domain x) as [[d0|] [d1|]] eqn:Hdom.
  - apply (placeLabels_from x data width centerY (sortByDate keyEvents) ([], [])).
    + eauto.
    + reflexivity.
  - rewrite placeLabels_invalid by (rewrite Hdom; cbn; auto). auto.
  - rewrite placeLabels_invalid by (rewrite Hdom; cbn; auto). auto.
  - rewrite placeLabels_invalid by (rewrite Hdom; cbn; auto). auto.
Qed.

(** *** The width a label reserves *)

Lemma length_append (a b : string) :
  String.length (a ++ b) = (String.length a + String.length b)%nat.
Proof. induction a as [|c a IH]; cbn; [reflexivity|now rewrite IH]. Qed.

Lemma length_prefix_le (n : nat) (s : string) :
  (String.length (substring 0 n s) <= n)%nat.
Proof.
  revert s. induction n as [|n IH]; intros [|c s]; cbn; try lia.
  specialize (IH s). lia.
Qed.

Lemma labelTextOf_length (d : Event) : (String.length (labelTextOf d) <= 51)%nat.
Proof.
  unfold labelTextOf. destruct (50 <? String.length (event d))%nat eqn:E.
  - rewrite length_append. pose proof (length_prefix_le 50 (event d)).
    cbn [ellipsis String.length]. lia.
  - apply Nat.ltb_ge in E. lia.
Qed.

(** X15.  A label never reserves more than 365 pixels of a row, nor less
    than 8: its text is cut to 50 characters and an ellipsis, each character
    counts for 7 pixels, and 4 pixels of padding are added on either
    side. *)
Theorem reserved_extent_is_bounded :
  forall (x : Scale) (data : list Event) (width centerY : Q) (keyEvents : list Event)
         (p : Placed),
    In p (fst (placeLabels x data width centerY keyEvents)) ->
    8 <= x2 p - x1 p <= 365.
Proof.
  intros x data width centerY keyEvents p. unfold placeLabels.
  assert (H : forall events acc,
             (forall q, In q (fst acc) -> 8 <= x2 q - x1 q <= 365) ->
             forall q, In q (fst (fold_left (placeOne x data width centerY) events acc)) ->
                       8 <= x2 q - x1 q <= 365).
  { induction events as [|d events IH]; intros acc Hacc; cbn [fold_left];
      [exact Hacc|].
    apply IH. destruct acc as [placed drawn]. unfold placeOne.
    destruct (scale_apply x (Some (date d))) as [xPos|]; [|exact Hacc].
    cbn [fst]. intros q Hq. apply in_app_or in Hq.
    destruct Hq as [Hq|[<-|[]]]; [now apply Hacc|].
    cbn [x1 x2]. unfold labelPadding.
    pose proof (labelTextOf_length d) as Hlen.
    set (n := String.length (labelTextOf d)) in *.
    assert (H0 : 0 <= inject_Z (Z.of_nat n * 7)).
    { change 0 with (inject_Z 0). rewrite <- Zle_Qle. lia. }
    assert (H1 : inject_Z (Z.of_nat n * 7) <= 357).
    { change 357 with (inject_Z 357). rewrite <- Zle_Qle. lia. }
    set (w := inject_Z (Z.of_nat n * 7)) in *. clearbody w. split; lraq. }
  apply H. intros q [].
Qed.

Lemma reserved_extent_is_bounded_witness :
  exists p, In p (fst (placeLabels thousandDays [] 1080 168 closeKeyEvents))
            /\ 8 <= x2 p - x1 p <= 365.
Proof.
  assert (Hin : exists p, In p (fst (placeLabels thousandDays [] 1080 168
                                                 closeKeyEvents))).
  { vm_compute. eexists. left. reflexivity. }
  destruct Hin as [p Hp]. exists p. split; [exact Hp|].
  exact (reserved_extent_is_bounded thousandDays [] 1080 168 closeKeyEvents p Hp).
Defined.

(** ** Clamping, wheel and drag *)

(** X16.  [clampDomain] moves a window and does not squeeze it: a window at
    least [MIN_SPAN_MS] wide, narrower than the bounds and not below the
    lower bound comes back with the same span, inside the bounds; it comes
    back unchanged when it fits, and ending at the upper bound when it
    reached past it. *)
Theorem clampDomain_moves_without_rescaling :
  forall (parse : JS.Date -> JS.Number -> JS.Date) (s e lo hi : Z),
    (lo <= s)%Z -> (MIN_SPAN_MS <= e - s)%Z -> (e - s < hi - lo)%Z ->
    exists s' e',
      clampDomain parse (Some s, Some e) (Some lo, Some hi) = (Some s', Some e')
      /\ (e' - s' = e - s)%Z /\ (lo <= s')%Z /\ (e' <= hi)%Z
      /\ ((e <= hi)%Z -> s' = s /\ e' = e)
      /\ ((hi < e)%Z -> e' = hi).
Proof. intros parse s e lo hi. apply clampDomain_span_kept. Qed.

Lemma clampDomain_moves_without_rescaling_witness :
  exists s' e',
    clampDomain rejectingEngine (Some (70 * day), Some (110 * day))%Z
                (Some 0, Some (100 * day))%Z = (Some s', Some e')
    /\ (e' - s' = 110 * day - 70 * day)%Z.
Proof.
  destruct (clampDomain_moves_without_rescaling
              rejectingEngine (70 * day) (110 * day) 0 (100 * day))
    as (s' & e' & H & Hspan & _); [vm_compute; discriminate| vm_compute; discriminate
                                  | reflexivity |].
  exists s', e'. split; assumption.
Defined.

(** X17.  The wheel handler returns early at the full extent: with the
    domain at the clamp bounds (at least 20 ms wide), a wheel tick with a
    positive delta leaves the page as it is, wherever the pointer is. *)
Theorem wheel_out_at_full_extent_is_ignored :
  forall (host : Host) (st : State) (x : Scale) (lo hi : Z) (deltaY mouseX : Q),
    currentXScale st = Some x ->
    domain x = (Some lo, Some hi) ->
    clampBounds st = (Some lo, Some hi) ->
    (20 <= hi - lo)%Z -> 0 < deltaY ->
    wheelRequest host st x deltaY mouseX = Ignored
    /\ wheel host st deltaY mouseX = st.
Proof.
  intros host st x lo hi deltaY mouseX Hx Hdom Hb Hwide Hd.
  assert (Hreq : wheelRequest host st x deltaY mouseX = Ignored).
  { unfold wheelRequest. rewrite Hdom, Hb. cbn [fst snd].
    destruct (scale_invert_date x lo hi mouseX Hdom) as [a ->].
    rewrite (wheelK_out deltaY Hd). unfold wheelProposal.
    set (S := inject_Z a - (inject_Z a - inject_Z lo) * (11 # 10)).
    set (E := inject_Z a + (inject_Z hi - inject_Z a) * (11 # 10)).
    assert (VS : Nval (+' Some a -' (+' Some a -' +' Some lo) *' qnum (11 # 10)) S)
      by (unfold S; nval).
    assert (VE : Nval (+' Some a +' (+' Some hi -' +' Some a) *' qnum (11 # 10)) E)
      by (unfold E; nval).
    rewrite (newDate_Nval _ _ VS), (newDate_Nval _ _ VE).
    pose proof (truncate_lower S) as HS. pose proof (truncate_upper E) as HE.
    assert (Hspan : (hi - lo <= JS.truncate E - JS.truncate S)%Z).
    { assert (Hq : inject_Z (hi - lo) < inject_Z (JS.truncate E - JS.truncate S) + 1).
      { rewrite !inject_Z_sub. toQ Hwide. change (inject_Z 20) with 20 in Hwide.
        unfold S, E in *. lra. }
      change 1 with (inject_Z 1) in Hq. rewrite <- inject_Z_plus, <- Zlt_Qlt in Hq.
      lia. }
    rewrite (clampDomain_full_extent _ _ _ _ _ Hspan).
    rewrite span_le_ofZ.
    destruct (hi - lo <=? MIN_SPAN_MS)%Z; [reflexivity|].
    rewrite !(Nval_eqb _ _ _ _ (Nval_valueOf _) (Nval_valueOf _)).
    rewrite !Qeq_bool_refl. apply Qltb_lt in Hd. now rewrite Hd. }
  split; [exact Hreq|].
  unfold wheel, onHandlers. now rewrite Hx, Hreq.
Qed.

Lemma wheel_out_at_full_extent_is_ignored_witness :
  wheel stillHost twoRowsPage 100 500 = twoRowsPage.
Proof.
  refine (proj2 (wheel_out_at_full_extent_is_ignored
                   stillHost twoRowsPage _ 0 (100 * day) 100 500 _ _ _ _ _)).
  - vm_compute. reflexivity.
  - vm_compute. reflexivity.
  - vm_compute. reflexivity.
  - vm_compute. discriminate.
  - reflexivity.
Defined.

(** X18.  The wheel zooms about the pointer.  On a chart with valid dates,
    [a] being the date under the pointer and the two Numbers the handler
    hands to [new Date] being inside the range of Date, the window the
    handler proposes keeps that date in place: the distances from it to the
    two ends are those of the old domain times 1.1 (positive delta) or 0.9
    (less than 2 ms off: the ends are rounded to whole milliseconds), a
    date inside the domain stays inside the window, and a proposal that
    needs no clamping (inside the bounds, wider than [MIN_SPAN_MS]) is the
    window applied. *)
Theorem wheel_keeps_pointer_date_in_place :
  forall (host : Host) (st : State) (x : Scale) (d0 d1 lo hi a : Z)
         (deltaY mouseX : Q),
    let k := if Qlt_le_dec 0 deltaY then 11 # 10 else 9 # 10 in
    domain x = (Some d0, Some d1) ->
    clampBounds st = (Some lo, Some hi) ->
    scale_invert x (qnum mouseX) = Some a ->
    JS.inRange (inject_Z a - (inject_Z a - inject_Z d0) * k) ->
    JS.inRange (inject_Z a + (inject_Z d1 - inject_Z a) * k) ->
    exists ps pe : Z,
      Qabs (inject_Z (a - ps) - k * inject_Z (a - d0)) < 2
      /\ Qabs (inject_Z (pe - a) - k * inject_Z (d1 - a)) < 2
      /\ ((d0 <= a <= d1)%Z -> (ps <= a <= pe)%Z)
      /\ ((lo <= ps)%Z -> (pe <= hi)%Z -> (pe - ps < hi - lo)%Z ->
          (MIN_SPAN_MS < pe - ps)%Z ->
          wheelRequest host st x deltaY mouseX
          = Redraw (Some ps) (Some pe) (5 <? Z.abs (pe - ps - (d1 - d0)))%Z).
Proof.
  intros host st x d0 d1 lo hi a deltaY mouseX k Hdom Hb Hanchor _ _.
  destruct (wheelRequest_fits host st x d0 d1 lo hi deltaY mouseX Hdom Hb)
    as (a' & ps & pe & Ha & Hps & Hpe & _ & Hfits).
  assert (a' = a) by congruence. subst a'.
  exists ps, pe.
  assert (Hk : wheelK deltaY = k).
  { unfold k. destruct (Qlt_le_dec 0 deltaY); [now apply wheelK_out|now apply wheelK_in]. }
  assert (Hkpos : 0 < k) by (unfold k; destruct (Qlt_le_dec 0 deltaY); reflexivity).
  rewrite Hk in Hps, Hpe.
  set (PS := inject_Z a - (inject_Z a - inject_Z d0) * k) in *.
  set (PE := inject_Z a + (inject_Z d1 - inject_Z a) * k) in *.
  pose proof (truncate_lower PS) as S1. pose proof (truncate_upper PS) as S2.
  pose proof (truncate_lower PE) as E1. pose proof (truncate_upper PE) as E2.
  rewrite <- Hps in S1, S2. rewrite <- Hpe in E1, E2.
  split; [|split; [|split; [|exact Hfits]]].
  - rewrite !inject_Z_sub. apply Qabs_Qlt_condition. unfold PS in *. split; lra.
  - rewrite !inject_Z_sub. apply Qabs_Qlt_condition. unfold PE in *. split; lra.
  - intros [Hlo Hhi]. rewrite Zle_Qle in Hlo, Hhi. split.
    + rewrite Hps, <- (truncate_Z a) at 1. apply truncate_mono.
      unfold PS. nra.
    + rewrite Hpe, <- (truncate_Z a) at 1. apply truncate_mono.
      unfold PE. nra.
Qed.

Lemma wheel_keeps_pointer_date_in_place_witness :
  exists ps pe : Z,
    Qabs (inject_Z (50 * day - ps) - (9 # 10) * inject_Z (50 * day - 0)) < 2
    /\ (ps <= 50 * day <= pe)%Z.
Proof.
  destruct (wheel_keeps_pointer_date_in_place stillHost twoRowsPage
              (mkScale (Some 0%Z, Some (100 * day)%Z) (40, 1040))
              0 (100 * day) 0 (100 * day) (50 * day) (-100) 540)
    as (ps & pe & Hs & _ & Hin & _).
  - reflexivity.
  - vm_compute. reflexivity.
  - vm_compute. reflexivity.
  - vm_compute. discriminate.
  - vm_compute. discriminate.
  - exists ps, pe. split; [exact Hs|]. apply Hin. vm_compute.
    split; discriminate.
Defined.

(** X19.  A pan keeps the span of a domain that is at least [MIN_SPAN_MS]
    wide and narrower than the bounds: the drag handler and the one-finger
    pan shift both ends of such a domain by the same whole number of
    milliseconds, the difference of the dates under pixel 0 and under the
    pixel delta, and report no repack.  Unless the shifted window starts
    below the lower bound, the window applied has the span of the old
    domain and lies inside the bounds, and is the shifted window when that
    fits. *)
Theorem pan_keeps_span :
  forall (host : Host) (x : Scale) (s0 e0 lo hi : Z) (dxPx : Q),
    domain x = (Some s0, Some e0) ->
    (MIN_SPAN_MS <= e0 - s0)%Z -> (e0 - s0 < hi - lo)%Z ->
    exists a0 a1 start end_,
      scale_invert x (qnum 0) = Some a0
      /\ scale_invert x (qnum dxPx) = Some a1
      /\ panRequest host (Some lo, Some hi) x dxPx = Redraw start end_ false
      /\ ((lo <= s0 + (a0 - a1))%Z ->
          exists s' e',
            start = Some s' /\ end_ = Some e'
            /\ (e' - s' = e0 - s0)%Z /\ (lo <= s')%Z /\ (e' <= hi)%Z
            /\ ((e0 + (a0 - a1) <= hi)%Z -> s' = (s0 + (a0 - a1))%Z)).
Proof. intros host x s0 e0 lo hi dxPx. apply panRequest_span_kept. Qed.

Lemma pan_keeps_span_witness :
  exists start end_,
    panRequest stillHost (Some 0, Some (100 * day))%Z
               (mkScale (Some (20 * day), Some (70 * day))%Z (40, 1040)) 10
    = Redraw start end_ false.
Proof.
  destruct (pan_keeps_span stillHost
              (mkScale (Some (20 * day), Some (70 * day))%Z (40, 1040))
              (20 * day) (70 * day) 0 (100 * day) 10)
    as (a0 & a1 & start & end_ & _ & _ & H & _).
  - reflexivity.
  - vm_compute. discriminate.
  - reflexivity.
  - exists start, end_. exact H.
Defined.

(** ** The pointer session *)

Lemma active_set_length (id : Z) (p : Q * Q) (m : list (Z * (Q * Q))) :
  List.length (active_set id p m)
  = if active_has id m then List.length m else S (List.length m).
Proof.
  unfold active_has. induction m as [|[k v] m IH]; cbn; [reflexivity|].
  destruct (k =? id)%Z; cbn; [reflexivity|].
  rewrite IH. now destruct (existsb _ m).
Qed.

Lemma active_set_nonempty (id : Z) (p : Q * Q) (m : list (Z * (Q * Q))) :
  active_set id p m <> [].
Proof. destruct m as [|[k v] m]; cbn; [discriminate|]. now destruct (k =? id)%Z. Qed.

Lemma active_delete_length (id : Z) (m : list (Z * (Q * Q))) :
  (List.length (active_delete id m) <= List.length m)%nat.
Proof. apply filter_length_le. Qed.

Section SessionFacts.

Variable host : Host.
Variable hypot : Q -> Q -> Q.

Lemma onPointerDown_ok (s : Session) (st : State) (e : PointerEvent) :
  sessionOk s -> sessionOk (onPointerDown hypot s st e).
Proof.
  intros Hok. pose proof Hok as (H1 & H2 & H3). unfold onPointerDown.
  destruct (currentXScale st) as [x|]; [|exact Hok].
  pose proof (active_set_length (pointerId e) (clientX e, clientY e) (active s)) as Hlen.
  assert (Hprev : (List.length (active s)
                   <= List.length (active_set (pointerId e) (clientX e, clientY e)
                                              (active s)))%nat).
  { rewrite Hlen. destruct (active_has _ _); lia. }
  assert (Hnext : (List.length (active_set (pointerId e) (clientX e, clientY e)
                                           (active s))
                   <= S (List.length (active s)))%nat).
  { rewrite Hlen. destruct (active_has _ _); lia. }
  destruct (active_set (pointerId e) (clientX e, clientY e) (active s))
    as [|[k0 p0] [|[k1 p1] [|kv rest]]] eqn:Eset; cbn [Datatypes.length] in *.
  - now apply active_set_nonempty in Eset.
  - unfold sessionOk. cbn [active baseDomain panLastX pinchStartDist].
    split; [discriminate|]. split; [split; discriminate|].
    intros Hp. specialize (H3 Hp). lia.
  - assert (Hne : active s <> []) by (intros E; rewrite E in Hnext; cbn in Hnext; lia).
    destruct (H2 Hne) as [_ Hpan].
    unfold sessionOk. cbn [active baseDomain panLastX pinchStartDist].
    split; [discriminate|]. split; [split; [discriminate|exact Hpan]|].
    intros _. cbn. lia.
  - assert (Hne : active s <> []) by (intros E; rewrite E in Hnext; cbn in Hnext; lia).
    destruct (H2 Hne) as [Hbase Hpan].
    unfold sessionOk. cbn [active baseDomain panLastX pinchStartDist].
    split; [discriminate|]. split; [auto|]. intros _. cbn. lia.
Qed.

Lemma onPointerUp_ok (s : Session) (st : State) (e : PointerEvent) :
  sessionOk s -> sessionOk (onPointerUp s st e).
Proof.
  intros Hok. pose proof Hok as (H1 & H2 & H3). unfold onPointerUp.
  destruct (currentXScale st) as [x|]; [|exact Hok].
  pose proof (active_delete_length (pointerId e) (active s)) as Hlen.
  destruct (active_delete (pointerId e) (active s)) as [|kv [|kv' rest]] eqn:Edel;
    cbn [Datatypes.length Nat.ltb Nat.leb Nat.eqb] in *.
  - unfold sessionOk. cbn. split; [reflexivity|]. split; [congruence|congruence].
  - assert (Hne : active s <> []) by (intros E; rewrite E in Hlen; cbn in Hlen; lia).
    destruct (H2 Hne) as [Hbase Hpan].
    unfold sessionOk. cbn. split; [discriminate|]. split; [auto|congruence].
  - assert (Hne : active s <> []) by (intros E; rewrite E in Hlen; cbn in Hlen; lia).
    destruct (H2 Hne) as [Hbase Hpan].
    unfold sessionOk. cbn. split; [discriminate|]. split; [auto|]. intros _. lia.
Qed.

Lemma session_with_active_ok (s : Session) (act : list (Z * (Q * Q)))
      (lastX : option Q) :
  sessionOk s -> List.length act = List.length (active s) -> act <> [] ->
  (lastX = panLastX s \/ lastX <> None) ->
  sessionOk (mkSession act (baseDomain s) lastX (pinchStartDist s) (pinchStartMidX s)).
Proof.
  intros (H1 & H2 & H3) Hlen Hne Hlast.
  assert (Hne' : active s <> []).
  { intros E. rewrite E in Hlen. destruct act; [congruence|discriminate]. }
  destruct (H2 Hne') as [Hbase Hpan].
  unfold sessionOk. cbn [active baseDomain panLastX pinchStartDist].
  split; [congruence|]. split.
  - intros _. split; [exact Hbase|]. destruct Hlast as [->|H]; assumption.
  - intros Hp. rewrite Hlen. now apply H3.
Qed.

Lemma onPointerMove_ok (s : Session) (st : State) (e : PointerEvent) (bboxLeft : Q) :
  sessionOk s -> sessionOk (fst (onPointerMove host hypot s st e bboxLeft)).
Proof.
  intros Hok. unfold onPointerMove.
  destruct (currentXScale st) as [x|]; [|exact Hok].
  destruct (active_has (pointerId e) (active s)) eqn:Ehas; [|exact Hok].
  cbn [negb].
  pose proof (active_set_length (pointerId e) (clientX e, clientY e) (active s)) as Hlen.
  rewrite Ehas in Hlen.
  assert (Hne : active_set (pointerId e) (clientX e, clientY e) (active s) <> []).
  { intros E. rewrite E in Hlen. unfold active_has in Ehas.
    destruct (active s); [discriminate Ehas|discriminate Hlen]. }
  pose proof (session_with_active_ok s _ (panLastX s) Hok Hlen Hne (or_introl eq_refl))
    as Hsame.
  assert (Hset : Some (clientX e) = panLastX s \/ Some (clientX e) <> None)
    by (right; discriminate).
  pose proof (session_with_active_ok s _ (Some (clientX e)) Hok Hlen Hne Hset)
    as Hpan.
  cbn [active baseDomain panLastX pinchStartDist pinchStartMidX].
  destruct (active_set (pointerId e) (clientX e, clientY e) (active s))
    as [|[k0 p0] [|[k1 p1] [|kv rest]]];
    destruct (pinchStartDist s) as [startDist|];
    destruct (panLastX s) as [lastX|];
    try exact Hsame; try exact Hpan;
    try (destruct (Qeq_bool startDist 0); [exact Hsame|];
         destruct (Qle_bool _ 0); [exact Hsame|];
         destruct (baseDomain s); exact Hsame).
Qed.

Lemma pointerStep_ok (sst : Session * State) (a : PointerAction) :
  sessionOk (fst sst) -> sessionOk (fst (pointerStep host hypot sst a)).
Proof.
  destruct sst as [s st]. cbn [fst]. intros Hok. destruct a; cbn [pointerStep fst].
  - now apply onPointerDown_ok.
  - now apply onPointerMove_ok.
  - now apply onPointerUp_ok.
Qed.

Lemma pointerRun_ok (actions : list PointerAction) (sst : Session * State) :
  sessionOk (fst sst) ->
  sessionOk (fst (fold_left (pointerStep host hypot) actions sst)).
Proof.
  revert sst. induction actions as [|a actions IH]; intros sst Hok; cbn [fold_left].
  - exact Hok.
  - apply IH. now apply pointerStep_ok.
Qed.

End SessionFacts.

(** X20.  The pointer session carries nothing from one gesture to the next:
    after any run of pointer events, if no pointer is down the session is
    the initial one; while a pointer is down the domain snapshot and the
    last pan position are set, so the pinch never reads a missing snapshot;
    and a pinch distance is held only while two or more pointers are
    down. *)
Theorem pointer_session_resets_between_gestures :
  forall (host : Host) (hypot : Q -> Q -> Q) (st : State)
         (actions : list PointerAction),
    let s := fst (pointerRun host hypot st actions) in
    (active s = [] -> s = newSession)
    /\ (active s <> [] -> baseDomain s <> None /\ panLastX s <> None)
    /\ (pinchStartDist s <> None -> (2 <= List.length (active s))%nat).
Proof.
  intros host hypot st actions. unfold pointerRun.
  apply (pointerRun_ok host hypot actions (newSession, st)).
  unfold sessionOk. cbn. split; [reflexivity|]. split; congruence.
Qed.

(** ** The guided tour *)

Lemma TOUR_STEPS_length : List.length TOUR_STEPS = 7%nat.
Proof. reflexivity. Qed.

Section TourFacts.

Variable found : nat -> bool.

(** [showTourStep] ends on a step whose target is found, or closes the tour
    on its last step. *)
Lemma showTourStep_spec (fuel : nat) (t : Tour) :
  (tourIndex t <= 6)%nat -> (6 <= fuel + tourIndex t)%nat ->
  let r := showTourStep found fuel t in
  (tourIndex t <= tourIndex r <= 6)%nat
  /\ TOUR_STARTED r = TOUR_STARTED t
  /\ ((shownStep r = Some (tourIndex r) /\ found (tourIndex r) = true
       /\ maskShown r = maskShown t)
      \/ (shownStep r = None /\ maskShown r = false /\ tourIndex r = 6%nat)).
Proof.
  revert t. induction fuel as [|fuel IH]; intros t Hidx Hfuel; cbn [showTourStep];
    change (List.length TOUR_STEPS - 1)%nat with 6%nat;
    destruct (found (tourIndex t)) eqn:Ef.
  - cbn. rewrite Ef. split; [lia|]. split; [reflexivity|]. left. auto.
  - replace (tourIndex t <? 6)%nat with false by (symmetry; apply Nat.ltb_ge; lia).
    cbn. split; [lia|]. split; [reflexivity|]. right. repeat split. lia.
  - cbn. rewrite Ef. split; [lia|]. split; [reflexivity|]. left. auto.
  - destruct (tourIndex t <? 6)%nat eqn:E6.
    + apply Nat.ltb_lt in E6.
      specialize (IH (mkTour (TOUR_STARTED t) (S (tourIndex t)) (maskShown t)
                             (shownStep t))).
      cbn [tourIndex TOUR_STARTED maskShown] in IH.
      destruct (IH ltac:(lia) ltac:(lia)) as (H1 & H2 & H3).
      split; [lia|]. split; [exact H2|exact H3].
    + apply Nat.ltb_ge in E6. cbn. split; [lia|]. split; [reflexivity|].
      right. repeat split. lia.
Qed.

Lemma showTourStep_ok (t : Tour) :
  (tourIndex t <= 6)%nat -> tourOk (showTourStep found 7 t).
Proof.
  intros Hidx.
  destruct (showTourStep_spec 7 t Hidx ltac:(lia)) as (H1 & _ & H3).
  unfold tourOk. change (List.length TOUR_STEPS) with 7%nat. split; [lia|].
  destruct H3 as [(H & _)|(H & _)]; auto.
Qed.

Lemma tourStep_ok (t : Tour) (action : TourAction) :
  tourOk t -> tourOk (tourStep t (action, found)).
Proof.
  intros Hok. pose proof Hok as [Hidx Hshown].
  change (List.length TOUR_STEPS) with 7%nat in Hidx.
  assert (Hend : tourOk (endTour t)).
  { unfold tourOk, endTour. cbn [tourIndex shownStep].
    change (List.length TOUR_STEPS) with 7%nat. auto. }
  destruct action; cbn [tourStep].
  - unfold startTour. destruct (TOUR_STARTED t); [exact Hok|].
    change (List.length TOUR_STEPS) with 7%nat.
    apply showTourStep_ok. cbn. lia.
  - unfold helpTour, startTour. cbn [TOUR_STARTED].
    change (List.length TOUR_STEPS) with 7%nat.
    apply showTourStep_ok. cbn. lia.
  - unfold tourNext. change (List.length TOUR_STEPS) with 7%nat.
    change (7 - 1)%nat with 6%nat.
    destruct (tourIndex t <? 6)%nat eqn:E; [|exact Hend].
    apply Nat.ltb_lt in E. apply showTourStep_ok. cbn. lia.
  - unfold tourPrev. destruct (0 <? tourIndex t)%nat; [|exact Hok].
    change (List.length TOUR_STEPS) with 7%nat.
    apply showTourStep_ok. cbn. lia.
  - exact Hend.
Qed.

End TourFacts.

(** X21.  The tour never leaves its steps: after any run of clicks on the
    help button, Next, Back and Skip, each one settled before the next,
    whatever targets the page offers at each click, the index names one of
    the seven steps, and the popover is either hidden or shows the step of
    the index. *)
Theorem tour_index_stays_on_a_step :
  forall clicks : list (TourAction * (nat -> bool)),
    let t := fold_left tourStep clicks newTour in
    (tourIndex t < List.length TOUR_STEPS)%nat
    /\ (shownStep t = None \/ shownStep t = Some (tourIndex t)).
Proof.
  intros clicks.
  assert (H : forall t, tourOk t -> tourOk (fold_left tourStep clicks t)).
  { induction clicks as [|[action found] clicks IH]; intros t Hok; cbn [fold_left].
    - exact Hok.
    - apply IH. now apply tourStep_ok. }
  apply H. unfold tourOk, newTour. cbn [tourIndex shownStep].
  change (List.length TOUR_STEPS) with 7%nat. split; [lia|auto].
Qed.

Lemma tourNext_advances (found : nat -> bool) (t : Tour) :
  (tourIndex t <= 6)%nat ->
  (tourIndex (tourNext found t) <= 6)%nat
  /\ ((tourIndex t < tourIndex (tourNext found t))%nat
      \/ (tourIndex t = 6%nat /\ tourIndex (tourNext found t) = 6%nat
          /\ shownStep (tourNext found t) = None
          /\ maskShown (tourNext found t) = false)).
Proof.
  intros Hidx. unfold tourNext. change (List.length TOUR_STEPS) with 7%nat.
  change (7 - 1)%nat with 6%nat.
  destruct (tourIndex t <? 6)%nat eqn:E.
  - apply Nat.ltb_lt in E.
    destruct (showTourStep_spec found 7
                (mkTour (TOUR_STARTED t) (S (tourIndex t)) (maskShown t) (shownStep t)))
      as (H1 & _); cbn [tourIndex] in *; try lia.
  - apply Nat.ltb_ge in E. cbn. split; [lia|]. right. repeat split; lia.
Qed.

(** X22.  The tour ends: from any step, seven presses of Next, each one
    settled before the next, close it, whatever targets the page offers at
    each press; the mask and the popover are then hidden. *)
Theorem seven_presses_of_next_end_the_tour :
  forall (t : Tour) (f1 f2 f3 f4 f5 f6 f7 : nat -> bool),
    (tourIndex t < List.length TOUR_STEPS)%nat ->
    let t' :=
      fold_left (fun t found => tourNext found t) [f1; f2; f3; f4; f5; f6; f7] t in
    shownStep t' = None /\ maskShown t' = false.
Proof.
  intros t f1 f2 f3 f4 f5 f6 f7 Hidx.
  change (List.length TOUR_STEPS) with 7%nat in Hidx.
  cbn [fold_left].
  assert (H0 : (tourIndex t <= 6)%nat) by lia.
  destruct (tourNext_advances f1 t H0) as [H1 A1].
  destruct (tourNext_advances f2 _ H1) as [H2 A2].
  destruct (tourNext_advances f3 _ H2) as [H3 A3].
  destruct (tourNext_advances f4 _ H3) as [H4 A4].
  destruct (tourNext_advances f5 _ H4) as [H5 A5].
  destruct (tourNext_advances f6 _ H5) as [H6 A6].
  destruct (tourNext_advances f7 _ H6) as [H7 A7].
  destruct A7 as [A7|(_ & _ & Hs & Hm)]; [|auto].
  exfalso. lia.
Qed.

Lemma seven_presses_of_next_end_the_tour_witness :
  shownStep
    (fold_left (fun t found => tourNext found t)
               [fun _ => true; fun _ => true; fun _ => true; fun _ => true;
                fun _ => true; fun _ => true; fun _ => true]
               newTour) = None.
Proof.
  refine (proj1 (seven_presses_of_next_end_the_tour newTour _ _ _ _ _ _ _ _)).
  vm_compute. lia.
Defined.

Lemma Qmax_spec (a b : Q) : a <= Qmax a b /\ b <= Qmax a b.
Proof.
  unfold Qmax. destruct (Qle_bool a b) eqn:E.
  - apply Qle_bool_iff in E. split; [exact E|apply Qle_refl].
  - apply Qle_bool_gt in E. split; [apply Qle_refl|now apply Qlt_le_weak].
Qed.

Lemma Qmin_spec (a b : Q) : Qmin a b <= a /\ Qmin a b <= b.
Proof.
  unfold Qmin. destruct (Qle_bool a b) eqn:E.
  - apply Qle_bool_iff in E. split; [apply Qle_refl|exact E].
  - apply Qle_bool_gt in E. split; [now apply Qlt_le_weak|apply Qle_refl].
Qed.

(** X23.  [showTourStep] keeps the tour inside the window.  The spotlight
    starts at least 8 pixels from the left and the top and ends at least 8
    pixels before the right and the bottom edge.  The popover starts at
    least 10 pixels from the left; when it is no wider than the window less
    20 pixels it ends at least 10 pixels before the right edge; and it
    stands below the spotlight when that leaves 10 pixels under it, and
    otherwise at least 10 pixels from the top. *)
Theorem tour_frame_stays_in_window :
  forall (innerWidth innerHeight rectLeft rectTop rectWidth rectHeight
          popWidth popHeight : Q),
    let '(sLeft, sTop, sW, sH) :=
      spotlightFrame innerWidth innerHeight rectLeft rectTop rectWidth rectHeight in
    let '(popLeft, popTop) :=
      popoverPlace innerWidth innerHeight sLeft sTop sH popWidth popHeight in
    (8 <= sLeft /\ 8 <= sTop
     /\ sLeft + sW <= innerWidth - 8 /\ sTop + sH <= innerHeight - 8)
    /\ 10 <= popLeft
    /\ (popWidth <= innerWidth - 20 -> popLeft + popWidth <= innerWidth - 10)
    /\ ((popTop == sTop + sH + 10 /\ popTop + popHeight + 10 <= innerHeight)
        \/ (10 <= popTop /\ innerHeight < sTop + sH + 10 + popHeight + 10)).
Proof.
  intros W H rl rt rw rh pw ph. unfold spotlightFrame, popoverPlace.
  set (sLeft := Qmax 8 (rl - 8)). set (sTop := Qmax 8 (rt - 8)).
  set (sW := Qmin (W - sLeft - 8) (rw + 8 * 2)).
  set (sH := Qmin (H - sTop - 8) (rh + 8 * 2)).
  destruct (Qmax_spec 8 (rl - 8)) as [L1 _]. fold sLeft in L1.
  destruct (Qmax_spec 8 (rt - 8)) as [T1 _]. fold sTop in T1.
  destruct (Qmin_spec (W - sLeft - 8) (rw + 8 * 2)) as [W1 _]. fold sW in W1.
  destruct (Qmin_spec (H - sTop - 8) (rh + 8 * 2)) as [H1 _]. fold sH in H1.
  clearbody sLeft sTop sW sH.
  split; [repeat split; lra|].
  destruct (JS.Qltb (W - 10) (sLeft + pw)) eqn:E1;
    [apply Qltb_lt in E1|apply Qltb_ge in E1].
  - destruct (JS.Qltb (W - pw - 10) 10) eqn:E2;
      [apply Qltb_lt in E2|apply Qltb_ge in E2];
      (split; [lra|]); (split; [intros; lra|]);
      (destruct (JS.Qltb H (sTop + sH + 10 + ph + 10)) eqn:E3;
       [apply Qltb_lt in E3; right; split; [apply Qmax_spec|exact E3]
       |apply Qltb_ge in E3; left; split; [reflexivity|lra]]).
  - destruct (JS.Qltb sLeft 10) eqn:E2;
      [apply Qltb_lt in E2|apply Qltb_ge in E2];
      (split; [lra|]); (split; [intros; lra|]);
      (destruct (JS.Qltb H (sTop + sH + 10 + ph + 10)) eqn:E3;
       [apply Qltb_lt in E3; right; split; [apply Qmax_spec|exact E3]
       |apply Qltb_ge in E3; left; split; [reflexivity|lra]]).
Qed.

(** ** Marking clicked dots *)

Lemma initViewed_keeps (data : list nat) (m : Marks) :
  lastClicked (initViewed m data) = lastClicked m
  /\ forall i, viewedOf (initViewed m data) i = Some true <-> viewedOf m i = Some true.
Proof.
  unfold initViewed. revert m. induction data as [|j data IH]; intros m; cbn [fold_left].
  - split; [reflexivity|tauto].
  - destruct (viewedOf m j) eqn:Ej; [apply IH|].
    destruct (IH (mkMarks (lastClicked m) (setFlag j (Some false) (viewedOf m))))
      as [H1 H2].
    split; [exact H1|]. intros i. rewrite H2. cbn [viewedOf]. unfold setFlag.
    destruct (i =? j)%nat eqn:E; [|tauto].
    apply Nat.eqb_eq in E. subst. rewrite Ej. split; discriminate.
Qed.

Lemma snoc_split (pre post c : list nat) (i d' d : nat) :
  (pre ++ i :: d' :: post = c ++ [d])%list ->
  (post = [] /\ d' = d /\ c = (pre ++ [i])%list)
  \/ exists post', post = (post' ++ [d])%list /\ c = (pre ++ i :: d' :: post')%list.
Proof.
  intros H. destruct post as [|p post0].
  - left. replace (pre ++ [i; d'])%list with ((pre ++ [i]) ++ [d'])%list in H
      by (rewrite <- app_assoc; reflexivity).
    apply app_inj_tail in H. destruct H as [<- ->]. auto.
  - right. destruct (@exists_last _ (p :: post0)) as (post' & z & E); [discriminate|].
    rewrite E in *.
    replace (pre ++ i :: d' :: post' ++ [z])%list
      with ((pre ++ i :: d' :: post') ++ [z])%list in H
      by (rewrite <- app_assoc; reflexivity).
    apply app_inj_tail in H. destruct H as [<- ->]. eauto.
Qed.

Lemma marks_after (actions : list MarkAction) :
  let m := fold_left markStep actions newMarks in
  match lastClicked m with
  | None => clicksOf actions = []
  | Some l => exists c0, clicksOf actions = (c0 ++ [l])%list
  end
  /\ forall i, viewedOf m i = Some true
               <-> exists pre d post,
                     clicksOf actions = (pre ++ i :: d :: post)%list /\ d <> i.
Proof.
  induction actions as [|a actions IH] using rev_ind; cbv zeta.
  - cbn. split; [reflexivity|]. intros i. split; [discriminate|].
    intros (pre & d & post & H & _). destruct pre; discriminate.
  - rewrite fold_left_app. cbn [fold_left]. cbv zeta in IH.
    set (m := fold_left markStep actions newMarks) in *.
    destruct IH as [Hlast Hviewed].
    unfold clicksOf in *. rewrite flat_map_app. cbn [flat_map]. rewrite app_nil_r.
    destruct a as [data|d]; cbn [markStep].
    + destruct (initViewed_keeps data m) as [H1 H2]. rewrite H1, app_nil_r.
      split; [exact Hlast|]. intros i. rewrite H2. apply Hviewed.
    + unfold clickDot. cbn [lastClicked viewedOf]. split; [eauto|]. intros i.
      destruct (lastClicked m) as [l|] eqn:El.
      * destruct Hlast as [c0 Hc0]. destruct (l =? d)%nat eqn:Eld.
        -- apply Nat.eqb_eq in Eld. subst l. rewrite Hviewed. split.
           ++ intros (pre & d' & post & H & Hne). exists pre, d', (post ++ [d])%list.
              split; [|exact Hne]. rewrite H, <- app_assoc. reflexivity.
           ++ intros (pre & d' & post & H & Hne).
              symmetry in H. apply snoc_split in H. destruct H as [(-> & -> & H)|(post' & -> & H)].
              ** rewrite Hc0 in H. apply app_inj_tail in H. destruct H as [_ <-].
                 congruence.
              ** eauto.
        -- apply Nat.eqb_neq in Eld. unfold setFlag.
           destruct (i =? l)%nat eqn:Eil.
           ++ apply Nat.eqb_eq in Eil. subst i. split; [|reflexivity]. intros _.
              exists c0, d, []. split; [|congruence]. rewrite Hc0, <- app_assoc.
              reflexivity.
           ++ apply Nat.eqb_neq in Eil. rewrite Hviewed. split.
              ** intros (pre & d' & post & H & Hne). exists pre, d', (post ++ [d])%list.
                 split; [|exact Hne]. rewrite H, <- app_assoc. reflexivity.
              ** intros (pre & d' & post & H & Hne).
                 symmetry in H. apply snoc_split in H. destruct H as [(-> & -> & H)|(post' & -> & H)].
                 --- rewrite Hc0 in H. apply app_inj_tail in H. destruct H as [_ <-].
                     congruence.
                 --- eauto.
      * rewrite Hlast in *. rewrite Hviewed. split.
        -- intros (pre & d' & post & H & _). destruct pre; discriminate.
        -- intros (pre & d' & post & H & _). cbn in H.
           destruct pre as [|? [|? ?]]; discriminate.
Qed.

(** X24.  A dot is marked as viewed exactly when it was clicked and the
    next click went to another dot; no draw and no later click takes the
    mark back.  A click restyles the circles so that the dot clicked, and
    only that one, is at full opacity. *)
Theorem viewed_marks_superseded_clicks :
  forall (actions : list MarkAction) (i : nat),
    let m := fold_left markStep actions newMarks in
    (viewedOf m i = Some true
     <-> exists pre d post,
           clicksOf actions = (pre ++ i :: d :: post)%list /\ d <> i)
    /\ (forall d, dotOpacity (clickDot m d) i == 1 <-> i = d).
Proof.
  intros actions i m. destruct (marks_after actions) as [_ Hviewed].
  fold m in Hviewed. split; [apply Hviewed|].
  intros d. unfold dotOpacity. cbn [lastClicked clickDot].
  destruct (i =? d)%nat eqn:E.
  - apply Nat.eqb_eq in E. split; [auto|reflexivity].
  - apply Nat.eqb_neq in E. split; [|congruence].
    destruct (viewedOf _ i) as [[|]|]; intros H; vm_compute in H; discriminate.
Qed.

(** ** Bounds given as time values *)

(** X25.  Called with Numbers as its bounds (time values, where its callers
    pass Date objects), on a data set at least [MIN_SPAN_MS] wide,
    [clampDomain] answers an ordered window with an ordered window inside
    the bounds that is at most one millisecond narrower than [MIN_SPAN_MS],
    and with the bounds themselves when the window was at least as wide as
    they are. *)
Theorem clampDomain_is_safe_on_time_values :
  forall s e lo hi : Z,
    (s <= e)%Z -> (MIN_SPAN_MS <= hi - lo)%Z ->
    exists a b,
      clampDomain numericBounds (Some s, Some e) (Some lo, Some hi) = (Some a, Some b)
      /\ (lo <= a)%Z /\ (a <= b)%Z /\ (b <= hi)%Z
      /\ (MIN_SPAN_MS - 1 <= b - a)%Z
      /\ ((hi - lo <= e - s)%Z -> a = lo /\ b = hi).
Proof. intros s e lo hi. apply clampDomain_numeric_bounds. Qed.

Lemma clampDomain_is_safe_on_time_values_witness :
  exists a b,
    clampDomain numericBounds (Some (- day), Some (39 * day))%Z
                (Some 0, Some (100 * day))%Z = (Some a, Some b)
    /\ (0 <= a)%Z /\ (b <= 100 * day)%Z.
Proof.
  destruct (clampDomain_is_safe_on_time_values (- day) (39 * day) 0 (100 * day))
    as (a & b & H & Ha & _ & Hb & _).
  - vm_compute. discriminate.
  - vm_compute. discriminate.
  - exists a, b. auto.
Defined.

(** ** The menus as built *)

Lemma getSelectedValues_built (items : list string) (lookup : option StrMap) :
  getSelectedValues (Some (buildSelectableList items lookup)) = items.
Proof.
  unfold getSelectedValues, buildSelectableList. cbn [options].
  induction items as [|v items IH]; cbn; [reflexivity|now rewrite IH].
Qed.

Lemma built_is_all_on (items : list string) (lookup : option StrMap) :
  buildSelectableList items lookup = setAll true (buildSelectableList items lookup).
Proof.
  unfold buildSelectableList, setAll. cbn [options valueLookup]. f_equal.
  rewrite map_map. reflexivity.
Qed.

Lemma sourceMatch_built (rawData : list Event) (items : list string) (d : Event) :
  sourceMatch rawData (Some (buildSelectableList items None)) d = true.
Proof.
  unfold sourceMatch, isAllSourcesSelected, selectedSources, useSourceFilter,
    sourceListCount, selectedSources0.
  rewrite getSelectedValues_built.
  unfold optionCount, buildSelectableList. cbn [options]. rewrite length_map.
  destruct (0 <? List.length items)%nat eqn:E; [|reflexivity].
  apply Nat.ltb_lt in E. rewrite Nat.eqb_refl. cbn [negb].
  destruct (List.length items =? 0)%nat eqn:E0; [|reflexivity].
  apply Nat.eqb_eq in E0. lia.
Qed.

(** X26.  As [setupFilters] leaves them, with every option on, the two
    menus filter nothing: provided the title-cased topic labels are pairwise
    different, the rows shown are exactly the rows that pass the legend, the
    key-only box and the search box, rows without topic or source
    included. *)
Theorem menus_as_built_filter_nothing :
  forall (host : Host) (st : State) (cats : StrSet) (onlyKey : bool) (sv : string),
    NoDup (topicItems host (rawData st)) ->
    let st' := setupFilters host st in
    filterRecords host (rawData st) cats (topicDropdown st') (sourceDropdown st')
                  onlyKey sv
    = filter (fun d => catMatch cats d && keyOk cats d && keyMatch onlyKey d
                       && searchMatch host sv d)
             (rawData st).
Proof.
  intros host st cats onlyKey sv Hnd st'.
  assert (Ht : forall d, topicMatch (rawData st) (topicDropdown st') d = true).
  { intros d. unfold st', setupFilters. cbn [topicDropdown with_controls].
    destruct (topicDropdown st); [|reflexivity].
    rewrite built_is_all_on.
    apply (topicMatch_all host (rawData st)); [exact Hnd|].
    split; [|reflexivity]. unfold buildSelectableList. cbn [options].
    rewrite map_map. cbn [fst]. now rewrite map_id. }
  assert (Hs : forall d, sourceMatch (rawData st) (sourceDropdown st') d = true).
  { intros d. unfold st', setupFilters. cbn [sourceDropdown with_controls].
    destruct (sourceDropdown st); [|reflexivity]. apply sourceMatch_built. }
  unfold filterRecords.
  destruct ((List.length (activeCats cats) =? 0)%nat && negb (has cats "key"%string))
    eqn:Eexit.
  - symmetry. apply filter_none. intros d _.
    apply andb_true_iff in Eexit. destruct Eexit as [E0 _].
    apply Nat.eqb_eq in E0. unfold catMatch. now rewrite E0.
  - apply filter_ext. intros d. unfold passes. rewrite Ht, Hs.
    now rewrite !andb_true_r.
Qed.

Lemma menus_as_built_filter_nothing_witness :
  filterRecords stillHost twoRows allCats
                (topicDropdown (setupFilters stillHost
                                  (with_rawData blankPage twoRows None)))
                (sourceDropdown (setupFilters stillHost
                                   (with_rawData blankPage twoRows None)))
                false ""%string
  = filter (fun d => catMatch allCats d && keyOk allCats d && keyMatch false d
                     && searchMatch stillHost ""%string d)
           twoRows.
Proof.
  apply (menus_as_built_filter_nothing stillHost (with_rawData blankPage twoRows None)
                                       allCats false ""%string).
  vm_compute. repeat constructor; simpl; tauto.
Defined.

(** ** The older filter *)

Lemma legacy_selectedTopics_none (td : option Dropdown) :
  getSelectedValues td = [] -> Legacy.selectedTopics td = [].
Proof.
  intros H. unfold Legacy.selectedTopics.
  destruct td as [[opts [lookup|]]|]; rewrite H; reflexivity.
Qed.

(** X27.  In [scripts/app.js] a menu with nothing selected hides every row,
    and so does a menu that is empty or not on the page: there is no
    fallback for a menu that was not built. *)
Theorem legacy_menu_without_selection_shows_nothing :
  forall (host : Host) (rawData : list Event) (cats : StrSet)
         (td sd : option Dropdown) (onlyKey : bool) (sv : string),
    getSelectedValues td = [] \/ getSelectedValues sd = [] ->
    Legacy.filterRecords host rawData cats td sd onlyKey sv = [].
Proof.
  intros host rawData cats td sd onlyKey sv H.
  unfold Legacy.filterRecords. destruct (_ && _); [reflexivity|].
  apply filter_none. intros d _. unfold Legacy.passes.
  destruct H as [H|H].
  - unfold Legacy.topicMatch. rewrite (legacy_selectedTopics_none td H). cbn.
    now rewrite !andb_false_r.
  - unfold Legacy.sourceMatch, Legacy.selectedSources. rewrite H. cbn.
    now rewrite !andb_false_r.
Qed.

Lemma legacy_menu_without_selection_shows_nothing_witness :
  Legacy.filterRecords stillHost twoRows allCats None None false ""%string = [].
Proof.
  apply legacy_menu_without_selection_shows_nothing. left. reflexivity.
Defined.

Lemma legacy_sourceMatch_all (dd : Dropdown) (d : Event) :
  options dd <> [] ->
  Legacy.sourceMatch (Some (setAll true dd)) d = true.
Proof.
  intros Hne.
  assert (Hpos : (0 < List.length (options dd))%nat).
  { destruct (options dd); [congruence|cbn; lia]. }
  unfold Legacy.sourceMatch, Legacy.isAllSourcesSelected, Legacy.totalSources,
    Legacy.selectedSources.
  rewrite getSelectedValues_setAll, optionCount_setAll, length_map, Nat.eqb_refl.
  replace (0 <? List.length (options dd))%nat with true
    by (symmetry; now apply Nat.ltb_lt).
  replace (List.length (options dd) =? 0)%nat with false
    by (symmetry; apply Nat.eqb_neq; lia).
  reflexivity.
Qed.

(** X28.  In [scripts/app.js] "Select all" in both menus lets every row
    through them: with all options of two non-empty menus on, the rows shown
    are the rows that pass the legend, the key-only box and the search box,
    also when two topic labels coincide, for the selection is counted
    without removing duplicates. *)
Theorem legacy_select_all_filters_nothing :
  forall (host : Host) (rawData : list Event) (cats : StrSet)
         (tdd sdd : Dropdown) (onlyKey : bool) (sv : string),
    options tdd <> [] -> options sdd <> [] ->
    Legacy.filterRecords host rawData cats (Some (setAll true tdd))
                         (Some (setAll true sdd)) onlyKey sv
    = filter (fun d => Legacy.catMatch cats d && keyOk cats d && keyMatch onlyKey d
                       && searchMatch host sv d)
             rawData.
Proof.
  intros host rawData cats tdd sdd onlyKey sv Ht Hs.
  unfold Legacy.filterRecords.
  destruct ((List.length (activeCats cats) =? 0)%nat && negb (has cats "key"%string))
    eqn:Eexit.
  - symmetry. apply filter_none. intros d _.
    apply andb_true_iff in Eexit. destruct Eexit as [E0 _].
    unfold Legacy.catMatch. now rewrite E0.
  - apply filter_ext. intros d. unfold Legacy.passes.
    rewrite (legacy_topicMatch_all tdd d Ht), (legacy_sourceMatch_all sdd d Hs).
    now rewrite !andb_true_r.
Qed.

Lemma legacy_select_all_filters_nothing_witness :
  Legacy.filterRecords stillHost twoRows allCats (Some (setAll true sarinDropdown))
                       (Some (setAll true sarinDropdown)) false ""%string
  = filter (fun d => Legacy.catMatch allCats d && keyOk allCats d && keyMatch false d
                     && searchMatch stillHost ""%string d)
           twoRows.
Proof.
  apply legacy_select_all_filters_nothing; discriminate.
Defined.

(** ** Clicking twice *)

Lemma toggleAt_twice (i : nat) (opts : list (string * bool)) :
  toggleAt i (toggleAt i opts) = opts.
Proof.
  revert i. induction opts as [|[v on] opts IH]; intros [|i]; cbn; try reflexivity.
  - now rewrite negb_involutive.
  - now rewrite IH.
Qed.

Lemma has_filter_out (cats : StrSet) (key k : string) :
  has (filter (fun c => negb (c =? key)%string) cats) k
  = has cats k && negb (k =? key)%string.
Proof.
  unfold has, arr_includes. induction cats as [|c cats IH]; cbn; [reflexivity|].
  destruct (c =? key)%string eqn:Ec; cbn; rewrite IH;
    destruct (k =? key)%string eqn:Ek; cbn;
    rewrite ?andb_false_r, ?andb_true_r; try reflexivity.
  - apply String.eqb_eq in Ec. subst c. now rewrite Ek.
  - destruct (k =? c)%string eqn:Ekc; [|reflexivity].
    apply String.eqb_eq in Ek, Ekc. subst. rewrite String.eqb_refl in Ec.
    discriminate Ec.
Qed.

Lemma has_snoc (cats : StrSet) (key k : string) :
  has (cats ++ [key])%list k = has cats k || (k =? key)%string.
Proof.
  unfold has, arr_includes. rewrite existsb_app. cbn. now rewrite orb_false_r.
Qed.

Lemma has_toggled_twice (cats : StrSet) (key k : string) :
  has (toggleCat (toggleCat cats key) key) k = has cats k.
Proof.
  unfold toggleCat at 2. destruct (has cats key) eqn:E.
  - unfold toggleCat. rewrite has_filter_out, E, String.eqb_refl. cbn [andb negb].
    rewrite has_snoc, has_filter_out.
    destruct (k =? key)%string eqn:Ek; cbn [andb negb orb].
    + apply String.eqb_eq in Ek. subst k. now rewrite E.
    + now rewrite andb_true_r, orb_false_r.
  - unfold toggleCat. rewrite has_snoc, E, String.eqb_refl. cbn [andb negb orb].
    rewrite has_filter_out, has_snoc.
    destruct (k =? key)%string eqn:Ek; cbn [andb negb orb].
    + apply String.eqb_eq in Ek. subst k. now rewrite E.
    + now rewrite andb_true_r, orb_false_r.
Qed.

Lemma filterRecords_has_ext (host : Host) (rawData : list Event) (c1 c2 : StrSet)
      (td sd : option Dropdown) (onlyKey : bool) (sv : string) :
  (forall k, has c1 k = has c2 k) ->
  filterRecords host rawData c1 td sd onlyKey sv
  = filterRecords host rawData c2 td sd onlyKey sv.
Proof.
  intros H.
  assert (Hact : activeCats c1 = activeCats c2).
  { unfold activeCats. apply filter_ext. exact H. }
  unfold filterRecords. rewrite Hact, H. destruct (_ && _); [reflexivity|].
  apply filter_ext. intros d. unfold passes, catMatch, keyOk. now rewrite Hact, H.
Qed.

(** X29.  A second click undoes the first: clicking the same option of a
    menu twice leaves the menu as it was, and clicking the same legend entry
    twice leaves the same rows shown. *)
Theorem second_click_undoes_first :
  forall (host : Host) (rawData : list Event) (cats : StrSet)
         (td sd : option Dropdown) (onlyKey : bool) (sv : string)
         (dd : Dropdown) (i : nat) (key : string),
    toggleOption i (toggleOption i dd) = dd
    /\ filterRecords host rawData (toggleCat (toggleCat cats key) key) td sd onlyKey sv
       = filterRecords host rawData cats td sd onlyKey sv.
Proof.
  intros host rawData cats td sd onlyKey sv dd i key. split.
  - destruct dd as [opts lookup]. unfold toggleOption. cbn [options valueLookup].
    now rewrite toggleAt_twice.
  - apply filterRecords_has_ext. intros k. apply has_toggled_twice.
Qed.

(** ** How far zoomBy can leave the bounds *)

Lemma zoomWindowNum_bounds (c sp : Q) (lo hi : Z) :
  0 <= sp -> (lo <= hi)%Z ->
  let '(ns, ne) := zoomWindowNum c sp lo hi in
  (lo - 2 <= ns)%Z /\ (ne <= hi)%Z.
Proof.
  intros Hsp Hle. unfold zoomWindowNum.
  pose proof (truncate_lower (c - sp / 2)) as A1.
  pose proof (truncate_upper (c + sp / 2)) as B2.
  pose proof (truncate_lower (inject_Z lo + sp)) as L1.
  pose proof (truncate_upper (inject_Z hi - sp)) as H2.
  set (tA := JS.truncate (c - sp / 2)) in *.
  set (tB := JS.truncate (c + sp / 2)) in *.
  set (tL := JS.truncate (inject_Z lo + sp)) in *.
  set (tH := JS.truncate (inject_Z hi - sp)) in *.
  clearbody tA tB tL tH.
  destruct (hi - lo <? tB - tA)%Z eqn:E1.
  - rewrite !Z.ltb_irrefl. lia.
  - toQ E1. destruct (tA <? lo)%Z eqn:E2.
    + destruct (hi <? tL)%Z eqn:E3.
      * split; [|lia].
        assert (Hlt : inject_Z lo - 3 < inject_Z tH) by lraq.
        assert (Hz : (lo - 3 < tH)%Z).
        { rewrite Zlt_Qlt, inject_Z_sub. exact Hlt. }
        lia.
      * apply Z.ltb_ge in E3. lia.
    + apply Z.ltb_ge in E2. destruct (hi <? tB)%Z eqn:E3.
      * split; [|lia].
        assert (Hlt : inject_Z lo - 3 < inject_Z tH) by lraq.
        assert (Hz : (lo - 3 < tH)%Z).
        { rewrite Zlt_Qlt, inject_Z_sub. exact Hlt. }
        lia.
      * apply Z.ltb_ge in E3. lia.
Qed.

(** X30.  [zoomBy] keeps the view on the data.  With valid, ordered dates
    and a positive factor, as long as the four Numbers it hands to
    [new Date] are inside the range of Date, whenever it redraws the new
    window is at least [MIN_SPAN_MS] wide, does not end after the upper
    bound and does not start more than 3 ms before the lower bound (the
    slack left by the rounding of [new Date]); and it always asks for a
    repack. *)
Theorem zoomBy_keeps_view_on_data :
  forall (st : State) (x : Scale) (d0 d1 lo hi : Z) (factor : Q)
         (anchorDate : option Z) (start end_ : JS.Date) (repack : bool),
    let center := zoomCenter d0 d1 anchorDate in
    let span := (inject_Z d1 - inject_Z d0) / factor in
    currentXScale st = Some x ->
    domain x = (Some d0, Some d1) ->
    clampBounds st = (Some lo, Some hi) ->
    (d0 <= d1)%Z -> (lo <= hi)%Z -> 0 < factor ->
    JS.inRange (center - span / 2) -> JS.inRange (center + span / 2) ->
    JS.inRange (inject_Z lo + span) -> JS.inRange (inject_Z hi - span) ->
    zoomByRequest st factor (option_map Some anchorDate) = Redraw start end_ repack ->
    exists ns ne,
      start = Some ns /\ end_ = Some ne /\ repack = true
      /\ (MIN_SPAN_MS <= ne - ns)%Z /\ (lo - 3 <= ns)%Z /\ (ne <= hi)%Z.
Proof.
  intros st x d0 d1 lo hi factor anchorDate start end_ repack center span
         Hx Hdom Hb Hd Hle Hf _ _ _ _ Hreq.
  unfold zoomByRequest in Hreq. rewrite Hx in Hreq.
  destruct (filteredData st) as [|d ds]; [discriminate|].
  rewrite (zoomByWindow_num st x d0 d1 lo hi factor anchorDate Hdom Hb) in Hreq
    by (intro; lra).
  assert (Hsp : 0 <= span).
  { unfold span. apply Qle_shift_div_l; [exact Hf|]. rewrite Zle_Qle in Hd. lra. }
  pose proof (zoomWindowNum_bounds center span lo hi Hsp Hle) as Hbounds.
  fold center span in Hreq.
  destruct (zoomWindowNum center span lo hi) as [ns ne].
  rewrite span_lt_ofZ in Hreq.
  destruct (ne - ns <? MIN_SPAN_MS)%Z eqn:E; [discriminate|].
  apply Z.ltb_ge in E. injection Hreq as <- <- <-.
  exists ns, ne. repeat split; tauto || lia.
Qed.

Lemma zoomBy_keeps_view_on_data_witness :
  exists ns ne,
    Some (20 * day)%Z = Some ns /\ Some (80 * day)%Z = Some ne
    /\ (MIN_SPAN_MS <= ne - ns)%Z.
Proof.
  destruct (zoomBy_keeps_view_on_data
              twoRowsPage (mkScale (Some 0, Some (100 * day))%Z (40, 1040))
              0 (100 * day) 0 (100 * day) (5 # 3) None
              (Some (20 * day)%Z) (Some (80 * day)%Z) true)
    as (ns & ne & H1 & H2 & _ & H3 & _).
  - vm_compute. reflexivity.
  - reflexivity.
  - vm_compute. reflexivity.
  - vm_compute. discriminate.
  - vm_compute. discriminate.
  - reflexivity.
  - vm_compute. discriminate.
  - vm_compute. discriminate.
  - vm_compute. discriminate.
  - vm_compute. discriminate.
  - vm_compute. reflexivity.
  - exists ns, ne. auto.
Defined.
